(** * PA-SSH-prep: the staged PAN-OS upgrade, embedded and verified

    A shallow embedding of [src/panos_upgrade.py], of the reachability
    waiter of [src/ssh_client.py] and of the upgrade phase of
    [src/main.py].

    Conventions of the embedding.
    - A Python [str] is a [string] whose characters are the code points
      0..255; the regular-expression class [\d] is then exactly ['0'..'9']
      and [str.strip] removes the code points that [str.isspace] accepts
      in that range.
    - A Python [int] is unbounded: version components are [N], clock
      readings and timeouts are [Z] (whole seconds).
    - An exception is a value of [exn]; a computation yields a [result]:
      it returns, raises, or (for a [while] loop run with a bounded number
      of iterations) runs out of fuel. *)

From Stdlib Require Import List String Ascii Bool Arith NArith ZArith Lia.
From Stdlib Require Import DecimalString DecimalN DecimalFacts.
Import ListNotations.

Local Open Scope string_scope.

(** ** Exceptions and results *)

Inductive exn : Type :=
| ValueError (msg : string)
| RuntimeError (msg : string)
| AttributeError (msg : string)
| TransportError (msg : string).

Definition exn_message (e : exn) : string :=
  match e with
  | ValueError m => m
  | RuntimeError m => m
  | AttributeError m => m
  | TransportError m => m
  end.

Inductive result (A : Type) : Type :=
| Ret (a : A)
| Raise (e : exn)
| OutOfFuel.

Arguments Ret {A} a.
Arguments Raise {A} e.
Arguments OutOfFuel {A}.

Definition rbind {A B : Type} (r : result A) (k : A -> result B) : result B :=
  match r with
  | Ret a => k a
  | Raise e => Raise e
  | OutOfFuel => OutOfFuel
  end.

Declare Scope result_scope.
Delimit Scope result_scope with result.
Notation "'let?' x ':=' r 'in' k" := (rbind r (fun x => k))
  (at level 10, x name, r at level 100, k at level 200) : result_scope.

(** ** Text primitives of the Python string type *)

Module Text.

Definition code (c : ascii) : nat := nat_of_ascii c.

(** [\d] of the [re] module, on code points below 256. *)
Definition is_digit (c : ascii) : bool :=
  (48 <=? code c)%nat && (code c <=? 57)%nat.

(** [str.isspace] on code points below 256. *)
Definition is_space (c : ascii) : bool :=
  ((9 <=? code c)%nat && (code c <=? 13)%nat)
  || ((28 <=? code c)%nat && (code c <=? 32)%nat)
  || (code c =? 133)%nat || (code c =? 160)%nat.

Definition is_empty (s : string) : bool :=
  match s with EmptyString => true | String _ _ => false end.

Fixpoint all_digits (s : string) : bool :=
  match s with
  | EmptyString => true
  | String c s' => is_digit c && all_digits s'
  end.

Fixpoint forall_chars (p : ascii -> bool) (s : string) : bool :=
  match s with
  | EmptyString => true
  | String c s' => p c && forall_chars p s'
  end.

(** Does [s] start with a digit? *)
Definition head_is_digit (s : string) : bool :=
  match s with
  | EmptyString => false
  | String c _ => is_digit c
  end.

Fixpoint last_char (s : string) : option ascii :=
  match s with
  | EmptyString => None
  | String c s' =>
      match last_char s' with
      | Some x => Some x
      | None => Some c
      end
  end.

(** The characters of a printed version: digits and the dot. *)
Definition version_char (c : ascii) : bool :=
  is_digit c || Ascii.eqb c "."%char.

(** A non-empty run of digits: what [\d+] matches in full. *)
Definition digits (s : string) : bool := negb (is_empty s) && all_digits s.

Fixpoint lstrip (s : string) : string :=
  match s with
  | EmptyString => EmptyString
  | String c s' => if is_space c then lstrip s' else s
  end.

Fixpoint rstrip (s : string) : string :=
  match s with
  | EmptyString => EmptyString
  | String c s' =>
      let r := rstrip s' in
      if is_empty r && is_space c then EmptyString else String c r
  end.

(** [s.strip()] *)
Definition strip (s : string) : string := rstrip (lstrip s).

(** [s.lower()] on code points below 256: the letters A to Z and the
    capital letters of Latin-1, U+00C0 to U+00DE without the
    multiplication sign U+00D7, move up by 32; nothing else changes. *)
Definition lower_char (c : ascii) : ascii :=
  if ((65 <=? code c)%nat && (code c <=? 90)%nat)
     || ((192 <=? code c)%nat && (code c <=? 222)%nat
         && negb (code c =? 215)%nat)
  then ascii_of_nat (code c + 32) else c.

Fixpoint lower (s : string) : string :=
  match s with
  | EmptyString => EmptyString
  | String c s' => String (lower_char c) (lower s')
  end.

(** [needle in hay] *)
Fixpoint contains (needle hay : string) : bool :=
  prefix needle hay
  || match hay with
     | EmptyString => false
     | String _ hay' => contains needle hay'
     end.

(** [hay.startswith(p)] *)
Definition startswith (p hay : string) : bool := prefix p hay.

(** The longest run of digits at the head of [s], and what follows. *)
Fixpoint span_digits (s : string) : string * string :=
  match s with
  | EmptyString => (EmptyString, EmptyString)
  | String c s' =>
      if is_digit c
      then let (d, r) := span_digits s' in (String c d, r)
      else (EmptyString, s)
  end.

(** [int(s)] on a run of digits. *)
Definition int_of_digits (s : string) : N :=
  match NilEmpty.uint_of_string s with
  | Some d => N.of_uint d
  | None => 0%N
  end.

(** [str(n)] / [f"{n}"] on a non-negative integer. *)
Definition str_of_N (n : N) : string := NilZero.string_of_uint (N.to_uint n).

Definition str_of_Z (z : Z) : string :=
  match z with
  | Zneg p => "-" ++ str_of_N (Npos p)
  | _ => str_of_N (Z.to_N z)
  end.

(** [s.split('\n')] *)
Fixpoint split_lines_acc (cur : string) (s : string) : list string :=
  match s with
  | EmptyString => [cur]
  | String c s' =>
      if Ascii.eqb c "010"%char
      then cur :: split_lines_acc EmptyString s'
      else split_lines_acc (cur ++ String c EmptyString) s'
  end.

Definition split_lines (s : string) : list string :=
  split_lines_acc EmptyString s.

(** [key, _, value = line.partition(':')], given that [':' in line]. *)
Fixpoint partition_colon (s : string) : string * string :=
  match s with
  | EmptyString => (EmptyString, EmptyString)
  | String c s' =>
      if Ascii.eqb c ":"%char then (EmptyString, s')
      else let (k, v) := partition_colon s' in (String c k, v)
  end.

(** [' -> '.join(path)] and the like. *)
Fixpoint join (sep : string) (l : list string) : string :=
  match l with
  | [] => EmptyString
  | [x] => x
  | x :: l' => x ++ sep ++ join sep l'
  end.

(** [re.search(r'(\d+)%', s)]: group 1 of the leftmost match.  [run] is
    the digit run being read. *)
Fixpoint search_percent_from (run : string) (s : string) : option string :=
  match s with
  | EmptyString => None
  | String c s' =>
      if is_digit c then search_percent_from (run ++ String c EmptyString) s'
      else if Ascii.eqb c "%"%char && negb (is_empty run) then Some run
      else search_percent_from EmptyString s'
  end.

Definition search_percent (s : string) : option string :=
  search_percent_from EmptyString s.

(** [s.rsplit('.', 1)[0]]: what precedes the last dot, or all of [s]
    when it has none. *)
Fixpoint rsplit_dot_head (s : string) : option string :=
  match s with
  | EmptyString => None
  | String c s' =>
      match rsplit_dot_head s' with
      | Some h => Some (String c h)
      | None => if Ascii.eqb c "."%char then Some EmptyString else None
      end
  end.

Definition rsplit_dot (s : string) : string :=
  match rsplit_dot_head s with Some h => h | None => s end.

End Text.

(** ** [Version] *)

Module Version.
Import Text.

Record t : Type := mk {
  major : N;
  minor : N;
  patch : N;
  original : string
}.

(** [-h\d+$] tried at the head of [s].  [$] holds at the end of the text
    and also just before a final line feed; the result is what is left
    after the match. *)
Definition hotfix_here (s : string) : option string :=
  match s with
  | String "-" (String "h" s') =>
      let (d, r) := span_digits s' in
      if is_empty d then None
      else if is_empty r then Some EmptyString
      else if String.eqb r (String "010" EmptyString) then Some r
      else None
  | _ => None
  end.

(** [re.sub(r'-h\d+$', '', s)]: the leftmost match is erased. *)
Fixpoint sub_hotfix (s : string) : string :=
  match hotfix_here s with
  | Some r => r
  | None =>
      match s with
      | EmptyString => EmptyString
      | String c s' => String c (sub_hotfix s')
      end
  end.

(** [re.match(r'^(\d+)\.(\d+)\.(\d+)', s)]: the three groups. *)
Definition match_version (s : string) : option (string * string * string) :=
  let (g1, r1) := span_digits s in
  if is_empty g1 then None
  else match r1 with
       | String "." r1' =>
           let (g2, r2) := span_digits r1' in
           if is_empty g2 then None
           else match r2 with
                | String "." r2' =>
                    let (g3, _) := span_digits r2' in
                    if is_empty g3 then None else Some (g1, g2, g3)
                | _ => None
                end
       | _ => None
       end.

Definition clean_version (version_str : string) : string :=
  sub_hotfix (strip version_str).

Definition invalid_format (version_str : string) : exn :=
  ValueError ("Invalid version format: " ++ version_str).

Definition parse (version_str : string) : result t :=
  match match_version (clean_version version_str) with
  | None => Raise (invalid_format version_str)
  | Some (g1, g2, g3) =>
      Ret (mk (int_of_digits g1) (int_of_digits g2) (int_of_digits g3)
              (strip version_str))
  end.

(** [__str__] *)
Definition str (v : t) : string :=
  str_of_N (major v) ++ "." ++ str_of_N (minor v) ++ "." ++ str_of_N (patch v).

Definition major_minor (v : t) : string :=
  str_of_N (major v) ++ "." ++ str_of_N (minor v).

Definition base_version (v : t) : string :=
  str_of_N (major v) ++ "." ++ str_of_N (minor v) ++ ".0".

(** The comparison of the tuples [(major, minor, patch)]. *)
Definition compare (a b : t) : comparison :=
  match (major a ?= major b)%N with
  | Eq => match (minor a ?= minor b)%N with
          | Eq => (patch a ?= patch b)%N
          | c => c
          end
  | c => c
  end.

Definition lt (a b : t) : bool :=
  match compare a b with Lt => true | _ => false end.
Definition le (a b : t) : bool :=
  match compare a b with Gt => false | _ => true end.
Definition ge (a b : t) : bool :=
  match compare a b with Lt => false | _ => true end.
Definition eq (a b : t) : bool :=
  match compare a b with Eq => true | _ => false end.

End Version.

(** ** The upgrade map and the path planner *)

Definition UPGRADE_PATHS : list (string * string) :=
  [ ("9.0", "9.1.0");
    ("9.1", "10.0.0");
    ("10.0", "10.1.0");
    ("10.1", "10.2.0");
    ("10.2", "11.0.0");
    ("11.0", "11.1.0");
    ("11.1", "11.2.0");
    ("11.2", "12.1.2") ].

(** [d[key]] guarded by [key in d], on a dict literal. *)
Fixpoint dict_get (key : string) (d : list (string * string)) : option string :=
  match d with
  | [] => None
  | (k, v) :: d' => if String.eqb key k then Some v else dict_get key d'
  end.

Local Open Scope result_scope.

(** The [while working_version < target] loop of [get_upgrade_path];
    [path] is the list built so far. *)
Fixpoint upgrade_loop (fuel : nat) (working_version target : Version.t)
    (path : list string) : result (list string) :=
  match fuel with
  | O => OutOfFuel
  | S fuel' =>
      if Version.lt working_version target then
        let current_major_minor := Version.major_minor working_version in
        match dict_get current_major_minor UPGRADE_PATHS with
        | Some next_base =>
            let? next_version := Version.parse next_base in
            if String.eqb (Version.major_minor next_version)
                          (Version.major_minor target)
            then Ret (path ++ [Version.str target])%list
            else if Version.le next_version target
            then upgrade_loop fuel' next_version target (path ++ [next_base])%list
            else Ret (path ++ [Version.str target])%list
        | None => Ret (path ++ [Version.str target])%list
        end
      else Ret path
  end.

Definition get_upgrade_path (fuel : nat) (current_version target_version : string)
  : result (list string) :=
  let? current := Version.parse current_version in
  let? target := Version.parse target_version in
  if Version.ge current target then Ret []
  else upgrade_loop fuel current target [].

(** The loop never needs more iterations than the map has entries, plus
    the one that appends the target. *)
Definition planner_fuel : nat := S (List.length UPGRADE_PATHS).

(** ** The world the program runs in

    Everything outside the program is scripted: the clock, the answers of
    the device to the successive calls made on a session, the results of
    the successive TCP probes, the successive readings of the cancellation
    flag, and whether the successive calls into the window and the sound
    device go through or raise.  What the program does to the outside is recorded
    in [trace], most recent event first.  Debug and info log lines, the
    numeric value of the progress bar and the read timeouts handed to the
    transport are left out; an answer of the device carries the time it
    took, and reading the clock takes none. *)

Inductive answer : Type :=
| Text (output : string)
| Fault (msg : string).

Record reply : Type := mkReply {
  took : N;
  outcome : answer
}.

Record probe_reply : Type := mkProbe {
  probe_took : N;
  (** [Some code]: what [connect_ex] returns; [None]: the socket call raises. *)
  probe_code : option Z
}.

Inductive event : Type :=
| Slept (seconds : Z)
| Probed (host : string) (port : Z)
| Opened (host : string)
| Closed (host : string)
| Sent (command : string)
| SentTiming (command : string)
| Progress (message : string)
| Status (message : string)
| LogWarning (message : string)
| LogError (message : string)
| Beep
| ShownError (title message : string).

Record PANOSSSHClient : Type := mkClient {
  host : string;
  username : string;
  password : string;
  port : Z;
  timeout : Z;
  (** whether [self.connection] holds a handle *)
  connection : bool
}.

Record World : Type := mkWorld {
  (** what the successive calls into the window and the sound device do:
      [Some e] for a call that raises [e]; a call past the end succeeds *)
  gui_faults : list (option exn);
  now : Z;
  replies : list reply;
  probes : list probe_reply;
  cancels : list bool;
  (** number of sessions opened and not yet disconnected *)
  live_sessions : nat;
  (** the [client] field of the one upgrader object of a run *)
  client : option PANOSSSHClient;
  trace : list event
}.

Definition M (A : Type) : Type := World -> result A * World.

Definition ret {A : Type} (a : A) : M A := fun w => (Ret a, w).

Definition bind {A B : Type} (m : M A) (k : A -> M B) : M B :=
  fun w =>
    match m w with
    | (Ret a, w') => k a w'
    | (Raise e, w') => (Raise e, w')
    | (OutOfFuel, w') => (OutOfFuel, w')
    end.

Definition raise {A : Type} (e : exn) : M A := fun w => (Raise e, w).

Definition out_of_fuel {A : Type} : M A := fun w => (OutOfFuel, w).

(** [try: m  except Exception as e: h e] *)
Definition try_except {A : Type} (m : M A) (h : exn -> M A) : M A :=
  fun w =>
    match m w with
    | (Raise e, w') => h e w'
    | r => r
    end.

(** [try: m  finally: f] *)
Definition try_finally {A : Type} (m : M A) (f : M unit) : M A :=
  fun w =>
    match m w with
    | (OutOfFuel, w') => (OutOfFuel, w')
    | (r, w') =>
        match f w' with
        | (Ret _, w'') => (r, w'')
        | (Raise e, w'') => (Raise e, w'')
        | (OutOfFuel, w'') => (OutOfFuel, w'')
        end
    end.

Declare Scope monad_scope.
Delimit Scope monad_scope with monad.
Notation "x <- m ;; k" := (bind m (fun x => k))
  (at level 61, m at next level, right associativity) : monad_scope.
Notation "m ;; k" := (bind m (fun _ => k))
  (at level 61, right associativity) : monad_scope.

Local Open Scope monad_scope.

Definition emit (e : event) : M unit :=
  fun w => (Ret tt, mkWorld (gui_faults w) (now w) (replies w) (probes w) (cancels w)
                            (live_sessions w) (client w) (e :: trace w)).

Fixpoint emit_all (l : list event) : M unit :=
  match l with
  | [] => ret tt
  | e :: l' => emit e ;; emit_all l'
  end.

(** [time.time()] *)
Definition time_time : M Z := fun w => (Ret (now w), w).

(** [time.sleep(seconds)] *)
Definition time_sleep (seconds : Z) : M unit :=
  if (seconds <? 0)%Z
  then raise (ValueError "sleep length must be non-negative")
  else fun w => (Ret tt, mkWorld (gui_faults w) (now w + seconds) (replies w) (probes w) (cancels w)
                                 (live_sessions w) (client w)
                                 (Slept seconds :: trace w)).

Definition lost : reply := mkReply 0 (Fault "connection lost").

(** The device's answer to the next call made on a session. *)
Definition next_reply : M answer :=
  fun w =>
    let r := match replies w with [] => lost | r :: _ => r end in
    (Ret (outcome r),
     mkWorld (gui_faults w) (now w + Z.of_N (took r)) (tl (replies w)) (probes w) (cancels w)
             (live_sessions w) (client w) (trace w)).

Definition next_probe : M (option Z) :=
  fun w =>
    let r := match probes w with [] => mkProbe 0 None | r :: _ => r end in
    (Ret (probe_code r),
     mkWorld (gui_faults w) (now w + Z.of_N (probe_took r)) (replies w) (tl (probes w)) (cancels w)
             (live_sessions w) (client w) (trace w)).

(** [gui.is_cancelled()] *)
Definition is_cancelled : M bool :=
  fun w =>
    (Ret (match cancels w with [] => false | b :: _ => b end),
     mkWorld (gui_faults w) (now w) (replies w) (probes w) (tl (cancels w))
             (live_sessions w) (client w) (trace w)).

(** A call into the window ([root.after]) or the sound device
    ([winsound.Beep]): it goes through, or raises what the script says. *)
Definition gui_call : M unit :=
  fun w =>
    let w' := mkWorld (tl (gui_faults w)) (now w) (replies w) (probes w)
                      (cancels w) (live_sessions w) (client w) (trace w) in
    match gui_faults w with
    | Some e :: _ => (Raise e, w')
    | _ => (Ret tt, w')
    end.

Definition session_opened : M unit :=
  fun w => (Ret tt, mkWorld (gui_faults w) (now w) (replies w) (probes w) (cancels w)
                            (S (live_sessions w)) (client w) (trace w)).

Definition session_closed : M unit :=
  fun w => (Ret tt, mkWorld (gui_faults w) (now w) (replies w) (probes w) (cancels w)
                            (pred (live_sessions w)) (client w) (trace w)).

Definition get_client : M (option PANOSSSHClient) := fun w => (Ret (client w), w).

Definition set_client (c : option PANOSSSHClient) : M unit :=
  fun w => (Ret tt, mkWorld (gui_faults w) (now w) (replies w) (probes w) (cancels w)
                            (live_sessions w) c (trace w)).

(** ** [PANOSSSHClient] *)

Module SSH.

Definition new (h u p : string) (prt : Z) : PANOSSSHClient :=
  mkClient h u p prt 60 false.

Definition with_connection (c : PANOSSSHClient) (b : bool) : PANOSSSHClient :=
  mkClient (host c) (username c) (password c) (port c) (timeout c) b.

(** [connect]: the handler is built by the transport; any failure is
    logged and raised again. *)
Definition connect (c : PANOSSSHClient) : M PANOSSSHClient :=
  a <- next_reply ;;
  match a with
  | Text _ =>
      session_opened ;;
      emit (Opened (host c)) ;;
      ret (with_connection c true)
  | Fault msg =>
      emit (LogError ("Connection failed: " ++ msg)) ;;
      raise (TransportError msg)
  end.

(** [disconnect]: a failure of the transport is logged, never raised;
    the handle is dropped in both cases. *)
Definition disconnect (c : PANOSSSHClient) : M PANOSSSHClient :=
  if connection c then
    a <- next_reply ;;
    match a with
    | Text _ => emit (Closed (host c))
    | Fault msg => emit (LogWarning ("Error during disconnect: " ++ msg))
    end ;;
    session_closed ;;
    ret (with_connection c false)
  else ret c.

Definition send_command (c : PANOSSSHClient) (command : string) : M string :=
  if connection c then
    emit (Sent command) ;;
    a <- next_reply ;;
    match a with
    | Text output => ret output
    | Fault msg =>
        emit (LogError ("Command failed: " ++ msg)) ;;
        raise (TransportError msg)
    end
  else raise (RuntimeError "Not connected to firewall").

Definition send_command_timing (c : PANOSSSHClient) (command : string) : M string :=
  if connection c then
    emit (SentTiming command) ;;
    a <- next_reply ;;
    match a with
    | Text output => ret output
    | Fault msg =>
        emit (LogError ("Command failed: " ++ msg)) ;;
        raise (TransportError msg)
    end
  else raise (RuntimeError "Not connected to firewall").

(** The dict built by [get_system_info]: a later line replaces an
    earlier one with the same key. *)
Fixpoint system_info (lines : list string) (info : list (string * string))
  : list (string * string) :=
  match lines with
  | [] => info
  | line :: lines' =>
      if Text.contains ":" line
      then let (key, value) := Text.partition_colon line in
           system_info lines'
             ((Text.lower (Text.strip key), Text.strip value) :: info)
      else system_info lines' info
  end.

Definition get_system_info (c : PANOSSSHClient) : M (list (string * string)) :=
  output <- send_command c "show system info" ;;
  ret (system_info (Text.split_lines output) []).

Definition get_panos_version (c : PANOSSSHClient) : M string :=
  info <- get_system_info c ;;
  ret (match dict_get "sw-version" info with Some v => v | None => "" end).

End SSH.

(** ** Loops bounded by the clock

    [while (time.time() - start_time) < timeout: body], where a turn of
    the body either goes on to the next test of the condition
    ([continue], or the end of the body) or leaves the function
    ([return]).  [after] is the code that follows the loop. *)

Inductive flow (St A : Type) : Type :=
| Continue (s : St)
| Return (a : A).

Arguments Continue {St A} s.
Arguments Return {St A} a.

Fixpoint while_elapsed {St A : Type} (fuel : nat) (start_time timeout : Z)
    (body : St -> M (flow St A)) (after : M A) (s : St) : M A :=
  match fuel with
  | O => out_of_fuel
  | S fuel' =>
      t <- time_time ;;
      if (t - start_time <? timeout)%Z then
        r <- body s ;;
        match r with
        | Continue s' => while_elapsed fuel' start_time timeout body after s'
        | Return a => ret a
        end
      else after
  end.

(** ** [wait_for_ssh] *)

Definition callback : Type := option (string -> list event).

Definition call_progress (cb : callback) (message : string) : M unit :=
  match cb with
  | Some f => emit_all (f message)
  | None => ret tt
  end.

(** [sock.connect_ex((host, port))] between the creation and the closing
    of the socket. *)
Definition connect_ex (h : string) (prt : Z) : M Z :=
  emit (Probed h prt) ;;
  r <- next_probe ;;
  match r with
  | Some code => ret code
  | None => raise (TransportError "socket error")
  end.

(** The first [try] of an attempt: is the port open?  When it is not, the
    pause before the next attempt is taken here. *)
Definition port_check (h : string) (prt poll_interval : Z) : M bool :=
  try_except
    (result <- connect_ex h prt ;;
     if negb (result =? 0)%Z
     then time_sleep poll_interval ;; ret false
     else ret true)
    (fun _ => time_sleep poll_interval ;; ret false).

(** The second [try] of an attempt: a session, the liveness command, and
    the release of the session. *)
Definition ssh_check (h : string) (prt : Z) (u p : string) : M bool :=
  try_except
    (c <- SSH.connect (SSH.new h u p prt) ;;
     _ <- SSH.send_command_timing c "show clock" ;;
     _ <- SSH.disconnect c ;;
     ret true)
    (fun _ => ret false).

(** One turn of the loop of [wait_for_ssh]; the loop state is [attempt]. *)
Definition wait_for_ssh_turn (h : string) (prt : Z) (u p : string)
    (poll_interval : Z) (progress_callback : callback) (start_time : Z)
    (attempt : Z) : M (flow Z bool) :=
  let attempt := (attempt + 1)%Z in
  t <- time_time ;;
  let elapsed := (t - start_time)%Z in
  call_progress progress_callback
    ("Waiting for SSH... Attempt " ++ Text.str_of_Z attempt
     ++ " (" ++ Text.str_of_Z elapsed ++ "s elapsed)") ;;
  port_open <- port_check h prt poll_interval ;;
  if port_open then
    connected <- ssh_check h prt u p ;;
    if connected then ret (Return true)
    else time_sleep poll_interval ;; ret (Continue attempt)
  else ret (Continue attempt).

Definition wait_for_ssh (fuel : nat) (h : string) (prt : Z) (u p : string)
    (timeout poll_interval : Z) (progress_callback : callback) : M bool :=
  start_time <- time_time ;;
  while_elapsed fuel start_time timeout
    (wait_for_ssh_turn h prt u p poll_interval progress_callback start_time)
    (emit (LogError ("Timeout waiting for SSH on " ++ h)) ;; ret false)
    0%Z.

(** ** [PANOSUpgrader] *)

Fixpoint for_each {A : Type} (l : list A) (body : A -> M unit) : M unit :=
  match l with
  | [] => ret tt
  | x :: l' => body x ;; for_each l' body
  end.

Definition lift {A : Type} (r : result A) : M A := fun w => (r, w).

Module PANOSUpgrader.

Record t : Type := mk {
  host : string;
  username : string;
  password : string;
  progress_callback : callback
}.

Definition _update_progress (self : t) (message : string) : M unit :=
  call_progress (progress_callback self) message.

(** [if not self.client: raise RuntimeError("Not connected")] *)
Definition require_client : M unit :=
  oc <- get_client ;;
  match oc with
  | Some _ => ret tt
  | None => raise (RuntimeError "Not connected")
  end.

(** An access to [self.client] as an object. *)
Definition self_client : M PANOSSSHClient :=
  oc <- get_client ;;
  match oc with
  | Some c => ret c
  | None => raise (AttributeError "'NoneType' object has no attribute")
  end.

Definition connect (self : t) : M unit :=
  _update_progress self ("Connecting to " ++ host self ++ "...") ;;
  let c := SSH.new (host self) (username self) (password self) 22 in
  set_client (Some c) ;;
  c' <- SSH.connect c ;;
  set_client (Some c').

Definition disconnect (self : t) : M unit :=
  oc <- get_client ;;
  match oc with
  | Some c => _ <- SSH.disconnect c ;; set_client None
  | None => ret tt
  end.

Definition get_current_version (self : t) : M string :=
  require_client ;;
  c <- self_client ;;
  version <- SSH.get_panos_version c ;;
  _update_progress self ("Current PAN-OS version: " ++ version) ;;
  ret version.

Definition check_available_versions (self : t) : M string :=
  require_client ;;
  _update_progress self "Checking available software versions..." ;;
  c <- self_client ;;
  SSH.send_command c "request system software check".

Definition download_complete (version status : string) : bool :=
  Text.contains version status
  && existsb (fun line =>
                Text.contains version line
                && (Text.contains "yes" (Text.lower line)
                    || Text.contains "downloaded" (Text.lower line)))
             (Text.split_lines status).

(** One turn of the loop of [_wait_for_software_download]. *)
Definition download_turn (self : t) (version : string) (_ : unit)
  : M (flow unit unit) :=
  time_sleep 30 ;;
  c <- self_client ;;
  status <- SSH.send_command c "request system software info" ;;
  if download_complete version status then
    _update_progress self ("Version " ++ version ++ " download complete") ;;
    ret (Return tt)
  else
    (if Text.contains "downloading" (Text.lower status) then
       match Text.search_percent status with
       | Some pct =>
           _update_progress self
             ("Downloading " ++ version ++ ": " ++ pct ++ "%")
       | None => ret tt
       end
     else ret tt) ;;
    if Text.contains "failed" (Text.lower status)
    then raise (RuntimeError ("Download of " ++ version ++ " failed"))
    else ret (Continue tt).

Definition _wait_for_software_download (fuel : nat) (self : t)
    (version : string) (timeout : Z) : M unit :=
  require_client ;;
  start_time <- time_time ;;
  while_elapsed fuel start_time timeout
    (download_turn self version)
    (raise (RuntimeError ("Download of " ++ version ++ " timed out")))
    tt.

Definition _download_version (fuel : nat) (self : t) (version : string)
    (timeout : Z) : M unit :=
  require_client ;;
  _update_progress self ("Downloading version " ++ version ++ "...") ;;
  c <- self_client ;;
  output <- SSH.send_command c
              ("request system software download version " ++ version) ;;
  let low := Text.lower output in
  if Text.contains "already downloaded" low then
    _update_progress self ("Version " ++ version ++ " already downloaded")
  else if Text.contains "download job enqueued" low || Text.contains "started" low
  then _wait_for_software_download fuel self version timeout
  else if Text.contains "successfully" low
  then _update_progress self ("Version " ++ version ++ " downloaded")
  else if Text.contains "failed" low || Text.contains "error" low
  then raise (RuntimeError ("Failed to download " ++ version ++ ": " ++ output))
  else ret tt.

Definition download_software (fuel : nat) (self : t) (version : string)
    (timeout : Z) : M unit :=
  require_client ;;
  _update_progress self ("Downloading PAN-OS " ++ version ++ "...") ;;
  ver <- lift (Version.parse version) ;;
  (if negb (Version.patch ver =? 0)%N then
     let base := Version.base_version ver in
     _download_version fuel self base (timeout / 2)%Z
   else ret tt) ;;
  _download_version fuel self version timeout.

(** The [try] block of the loop of [_wait_for_software_install] with
    its handler: [true] when the function is to return. *)
Definition install_status (self : t) (version : string) : M bool :=
  try_except
    (c <- self_client ;;
     status <- SSH.send_command c "show jobs all" ;;
     if Text.contains "installed" (Text.lower status)
        && Text.contains version status
     then
       _update_progress self
         ("Version " ++ version ++ " installation complete") ;;
       ret true
     else if Text.contains "running" (Text.lower status)
             || Text.contains "pending" (Text.lower status)
     then
       _update_progress self ("Installing " ++ version ++ "...") ;;
       ret false
     else if Text.contains "failed" (Text.lower status)
     then raise (RuntimeError ("Installation of " ++ version ++ " failed"))
     else ret false)
    (fun e =>
       emit (LogWarning ("Error checking install status: " ++ exn_message e)) ;;
       ret false).

Definition install_turn (self : t) (version : string) (_ : unit)
  : M (flow unit unit) :=
  time_sleep 30 ;;
  done <- install_status self version ;;
  if done then ret (Return tt) else ret (Continue tt).

Definition _wait_for_software_install (fuel : nat) (self : t)
    (version : string) (timeout : Z) : M unit :=
  require_client ;;
  start_time <- time_time ;;
  while_elapsed fuel start_time timeout
    (install_turn self version)
    (raise (RuntimeError ("Installation of " ++ version ++ " timed out")))
    tt.

Definition install_software (fuel : nat) (self : t) (version : string)
    (timeout : Z) : M unit :=
  require_client ;;
  _update_progress self ("Installing PAN-OS " ++ version ++ "...") ;;
  c <- self_client ;;
  output <- SSH.send_command c
              ("request system software install version " ++ version) ;;
  let low := Text.lower output in
  if Text.contains "install job enqueued" low || Text.contains "started" low
  then _wait_for_software_install fuel self version timeout
  else if Text.contains "successfully" low || Text.contains "installed" low
  then _update_progress self ("Version " ++ version ++ " installed")
  else if Text.contains "failed" low || Text.contains "error" low
  then raise (RuntimeError ("Failed to install " ++ version ++ ": " ++ output))
  else ret tt.

Definition reboot (self : t) : M unit :=
  require_client ;;
  _update_progress self "Rebooting firewall..." ;;
  try_except
    (c <- self_client ;;
     _ <- SSH.send_command_timing c "request restart system" ;;
     c <- self_client ;;
     _ <- SSH.send_command_timing c "y" ;;
     ret tt)
    (fun _ => ret tt) ;;
  disconnect self.

Definition wait_for_reboot (fuel : nat) (self : t) (timeout : Z) : M bool :=
  _update_progress self "Waiting for firewall to reboot..." ;;
  time_sleep 60 ;;
  success <- wait_for_ssh fuel (host self) 22 (username self) (password self)
               (timeout - 60)%Z 30 (progress_callback self) ;;
  (if success
   then _update_progress self "Firewall is back online"
   else _update_progress self
          "Timeout waiting for firewall to come back online") ;;
  ret success.

(** One turn of [for version in path] in [upgrade_to_version]. *)
Definition upgrade_step (fuel : nat) (self : t) (version : string) : M unit :=
  _update_progress self ("Upgrading to " ++ version ++ "...") ;;
  _ <- check_available_versions self ;;
  download_software fuel self version 1800 ;;
  install_software fuel self version 1200 ;;
  reboot self ;;
  back <- wait_for_reboot fuel self 600 ;;
  (if negb back
   then raise (RuntimeError ("Firewall did not come back after upgrading to "
                             ++ version))
   else ret tt) ;;
  connect self ;;
  new_version <- get_current_version self ;;
  if negb (Text.startswith (Text.rsplit_dot version) new_version)
  then emit (LogWarning ("Expected version " ++ version ++ ", got "
                         ++ new_version))
  else ret tt.

(** The [try] block of [upgrade_to_version]. *)
Definition upgrade_body (fuel : nat) (self : t) (target_version : string)
  : M bool :=
  connect self ;;
  current <- get_current_version self ;;
  path <- lift (get_upgrade_path fuel current target_version) ;;
  match path with
  | [] =>
      _update_progress self
        ("Already at version " ++ current ++ ", no upgrade needed") ;;
      ret true
  | _ =>
      _update_progress self
        ("Upgrade path: " ++ current ++ " -> " ++ Text.join " -> " path) ;;
      for_each path (upgrade_step fuel self) ;;
      _update_progress self ("Upgrade to " ++ target_version ++ " complete!") ;;
      ret true
  end.

Definition upgrade_to_version (fuel : nat) (self : t) (target_version : string)
  : M bool :=
  try_finally
    (try_except
       (upgrade_body fuel self target_version)
       (fun e =>
          emit (LogError ("Upgrade failed: " ++ exn_message e)) ;;
          ret false))
    (disconnect self).

End PANOSUpgrader.

Definition upgrade_firewall (fuel : nat) (h u p target_version : string)
    (progress_callback : callback) : M bool :=
  PANOSUpgrader.upgrade_to_version fuel
    (PANOSUpgrader.mk h u p progress_callback) target_version.

(** ** [FirewallSetupOrchestrator] of [src/main.py] *)

Module FirewallSetupOrchestrator.

Record SetupConfig : Type := mkConfig {
  new_ip : string;
  new_password : string;
  target_version : string
}.

Definition DEFAULT_USERNAME : string := "admin".

(** [get_error_suggestion] of [src/utils.py] *)
Definition get_error_suggestion (e : exn) : string :=
  let error_str := Text.lower (exn_message e) in
  if Text.contains "authentication" error_str || Text.contains "password" error_str
  then "Check the username and password. The default is admin/admin."
  else if Text.contains "timeout" error_str || Text.contains "timed out" error_str
  then "The firewall may be unreachable. Check network connectivity and IP address."
  else if Text.contains "connection refused" error_str
  then "SSH may not be enabled or the firewall is not ready. Wait and try again."
  else if Text.contains "host key" error_str
  then "SSH host key verification failed. This may be a new or reset firewall."
  else if Text.contains "no route" error_str
          || Text.contains "network is unreachable" error_str
  then "Cannot reach the firewall. Check that you're on the correct network."
  else if Text.contains "license" error_str
  then "License operation failed. Ensure the firewall has internet access."
  else if Text.contains "commit" error_str
  then "Configuration commit failed. Check for conflicting settings."
  else "Check the logs for more details and try again.".

Definition nl : string := String "010" EmptyString.

(** [beep_error] of [src/utils.py] *)
Definition beep_error : M unit :=
  gui_call ;;
  emit Beep.

(** [gui.show_error(title, message)] *)
Definition show_error (title message : string) : M unit :=
  gui_call ;;
  emit (ShownError title message).

(** [gui.update_status(message)] and [gui.update_progress(overall)]; the
    value of the progress bar is not part of the trace. *)
Definition _update_progress (message : string) : M unit :=
  gui_call ;;
  emit (Status message) ;;
  gui_call.

Definition _check_cancelled : M bool := is_cancelled.

Definition upgrader_of (config : SetupConfig) : PANOSUpgrader.t :=
  PANOSUpgrader.mk (new_ip config) DEFAULT_USERNAME (new_password config)
    (Some (fun msg => [Status msg])).

(** The [for i, version in enumerate(path)] loop of [_phase4_upgrade]:
    [false] when the loop is left by [return False]. *)
Fixpoint phase4_hops (fuel : nat) (upgrader : PANOSUpgrader.t)
    (path : list string) : M bool :=
  match path with
  | [] => ret true
  | version :: path' =>
      cancelled <- _check_cancelled ;;
      if cancelled then
        PANOSUpgrader.disconnect upgrader ;;
        ret false
      else
        _update_progress ("Upgrading to " ++ version ++ "...") ;;
        _ <- PANOSUpgrader.check_available_versions upgrader ;;
        _update_progress ("Downloading PAN-OS " ++ version ++ "...") ;;
        PANOSUpgrader.download_software fuel upgrader version 1800 ;;
        _update_progress ("Installing PAN-OS " ++ version ++ "...") ;;
        PANOSUpgrader.install_software fuel upgrader version 1200 ;;
        _update_progress ("Rebooting after " ++ version ++ " install...") ;;
        PANOSUpgrader.reboot upgrader ;;
        _update_progress "Waiting for firewall to come back online..." ;;
        back <- PANOSUpgrader.wait_for_reboot fuel upgrader 600 ;;
        (if negb back
         then raise (RuntimeError
                       ("Firewall did not come back after upgrading to "
                        ++ version))
         else ret tt) ;;
        PANOSUpgrader.connect upgrader ;;
        phase4_hops fuel upgrader path'
  end.

(** The [try] block of [_phase4_upgrade]. *)
Definition phase4_body (fuel : nat) (config : SetupConfig) : M bool :=
  let upgrader := upgrader_of config in
  PANOSUpgrader.connect upgrader ;;
  current_version <- PANOSUpgrader.get_current_version upgrader ;;
  path <- lift (get_upgrade_path fuel current_version (target_version config)) ;;
  match path with
  | [] =>
      _update_progress
        ("Already at or past target version (" ++ current_version ++ ")") ;;
      PANOSUpgrader.disconnect upgrader ;;
      ret true
  | _ =>
      _update_progress
        ("Upgrade path: " ++ current_version ++ " -> " ++ Text.join " -> " path) ;;
      finished <- phase4_hops fuel upgrader path ;;
      if finished then
        final_version <- PANOSUpgrader.get_current_version upgrader ;;
        _update_progress
          ("Upgrade complete. Final version: " ++ final_version) ;;
        PANOSUpgrader.disconnect upgrader ;;
        ret true
      else ret false
  end.

(** The [except] clause of [_phase4_upgrade]. *)
Definition phase4_failed (e : exn) : M bool :=
  emit (LogError ("Phase 4 failed: " ++ exn_message e)) ;;
  beep_error ;;
  show_error "PAN-OS Upgrade Failed"
    ("Failed to upgrade PAN-OS: " ++ exn_message e ++ nl ++ nl
     ++ "Suggestion: " ++ get_error_suggestion e) ;;
  ret false.

Definition _phase4_upgrade (fuel : nat) (config : SetupConfig) : M bool :=
  _update_progress "Phase 4: PAN-OS Upgrade" ;;
  try_except (phase4_body fuel config) phase4_failed.

(** The [except] clause of [run]. *)
Definition run_failed (e : exn) : M bool :=
  emit (LogError "Setup failed") ;;
  beep_error ;;
  show_error "Setup Failed"
    ("An error occurred: " ++ exn_message e ++ nl ++ nl
     ++ "Suggestion: " ++ get_error_suggestion e) ;;
  ret false.

(** [run].  The first three phases drive collaborators that are not
    embedded here (configuration, licensing, content update); they are
    taken as arbitrary computations that return a boolean or raise. *)
Section Run.

Variables _phase1_initial_config _phase2_licensing _phase3_content_update
  : M bool.

(** The [try] block of [run]. *)
Definition run_body (fuel : nat) (config : SetupConfig) : M bool :=
  ok1 <- _phase1_initial_config ;;
  if negb ok1 then ret false else
  c1 <- _check_cancelled ;;
  if c1 then ret false else
  ok2 <- _phase2_licensing ;;
  if negb ok2 then ret false else
  c2 <- _check_cancelled ;;
  if c2 then ret false else
  ok3 <- _phase3_content_update ;;
  if negb ok3 then ret false else
  c3 <- _check_cancelled ;;
  if c3 then ret false else
  ok4 <- _phase4_upgrade fuel config ;;
  if negb ok4 then ret false else
  _update_progress "Setup complete!" ;;
  ret true.

Definition run (fuel : nat) (config : SetupConfig) : M bool :=
  try_except (run_body fuel config) run_failed.

End Run.

End FirewallSetupOrchestrator.

(** ** The rest of [PANOSSSHClient]: configuration mode and commit *)

Module SSHConfig.

(** [enter_configure_mode] *)
Definition enter_configure_mode (c : PANOSSSHClient) : M string :=
  SSH.send_command_timing c "configure".

(** [exit_configure_mode] *)
Definition exit_configure_mode (c : PANOSSSHClient) : M string :=
  SSH.send_command_timing c "exit".

(** [commit]: a failed commit and any error of the command are logged and
    raised. *)
Definition commit (c : PANOSSSHClient) : M string :=
  try_except
    (output <- SSH.send_command c "commit" ;;
     if Text.contains "failed" (Text.lower output)
     then raise (RuntimeError ("Commit failed: " ++ output))
     else ret output)
    (fun e =>
       emit (LogError ("Commit failed: " ++ exn_message e)) ;;
       raise e).

End SSHConfig.

(** ** Sessions scoped by [try ... finally]

    [client = None; try: client = c; client.connect(); body
     except Exception as e: handler e
     finally: if client: client.disconnect()].
    When [connect] raises, the client holds no connection and its
    [disconnect] in the [finally] does nothing. *)
Definition session_scope {A : Type} (c : PANOSSSHClient)
    (body : PANOSSSHClient -> M A) (handler : exn -> M A) : M A :=
  fun w =>
    match SSH.connect c w with
    | (Ret c', w1) =>
        try_finally (try_except (body c') handler)
                    (_ <- SSH.disconnect c' ;; ret tt) w1
    | (Raise e, w1) =>
        try_finally (handler e) (_ <- SSH.disconnect c ;; ret tt) w1
    | (OutOfFuel, w1) => (OutOfFuel, w1)
    end.

(** ** [FirewallConfigurator] of [src/firewall_config.py] *)

Module FirewallConfigurator.

Record t : Type := mk {
  client : PANOSSSHClient;
  progress_callback : callback
}.

Definition nl : string := String "010" EmptyString.

Definition _update_progress (self : t) (message : string) : M unit :=
  call_progress (progress_callback self) message.

Definition rejected (output : string) : bool :=
  Text.contains "error" (Text.lower output)
  || Text.contains "invalid" (Text.lower output).

Definition set_management_ip (self : t) (ip_address subnet_mask gateway : string)
  : M unit :=
  _update_progress self ("Setting management IP to " ++ ip_address ++ "...") ;;
  _ <- SSHConfig.enter_configure_mode (client self) ;;
  try_finally
    (let commands :=
       [ "set deviceconfig system ip-address " ++ ip_address;
         "set deviceconfig system netmask " ++ subnet_mask;
         "set deviceconfig system default-gateway " ++ gateway ] in
     for_each commands
       (fun cmd =>
          output <- SSH.send_command_timing (client self) cmd ;;
          if rejected output
          then raise (RuntimeError ("Command failed: " ++ cmd ++ nl
                                    ++ "Output: " ++ output))
          else ret tt) ;;
     _update_progress self "Management IP configured")
    (_ <- SSHConfig.exit_configure_mode (client self) ;; ret tt).

(** The truth value of [secondary_dns]: neither [None] nor empty. *)
Definition given (secondary_dns : option string) : option string :=
  match secondary_dns with
  | Some s => if Text.is_empty s then None else Some s
  | None => None
  end.

Definition set_dns_servers (self : t) (primary_dns : string)
    (secondary_dns : option string) : M unit :=
  _update_progress self "Setting DNS servers..." ;;
  _ <- SSHConfig.enter_configure_mode (client self) ;;
  try_finally
    (output <- SSH.send_command_timing (client self)
                 ("set deviceconfig system dns-setting servers primary "
                  ++ primary_dns) ;;
     (if rejected output
      then raise (RuntimeError ("Failed to set primary DNS: " ++ output))
      else ret tt) ;;
     match given secondary_dns with
     | Some secondary =>
         output <- SSH.send_command_timing (client self)
                     ("set deviceconfig system dns-setting servers secondary "
                      ++ secondary) ;;
         if rejected output
         then raise (RuntimeError ("Failed to set secondary DNS: " ++ output))
         else ret tt
     | None => ret tt
     end ;;
     _update_progress self "DNS servers configured")
    (_ <- SSHConfig.exit_configure_mode (client self) ;; ret tt).

Definition change_admin_password (self : t) (new_password : string) : M unit :=
  _update_progress self "Changing admin password..." ;;
  _ <- SSHConfig.enter_configure_mode (client self) ;;
  try_finally
    (_ <- SSH.send_command_timing (client self)
            "set mgt-config users admin password" ;;
     _ <- SSH.send_command_timing (client self) new_password ;;
     output <- SSH.send_command_timing (client self) new_password ;;
     (if Text.contains "error" (Text.lower output)
      then raise (RuntimeError ("Password change failed: " ++ output))
      else ret tt) ;;
     _update_progress self "Admin password changed")
    (_ <- SSHConfig.exit_configure_mode (client self) ;; ret tt).

Definition commit_configuration (self : t) : M unit :=
  _update_progress self "Committing configuration..." ;;
  output <- SSHConfig.commit (client self) ;;
  if Text.contains "success" (Text.lower output)
  then _update_progress self "Configuration committed successfully"
  else _update_progress self "Configuration commit completed".

(** [dns_servers[0] if dns_servers else "8.8.8.8"] *)
Definition primary_of (dns_servers : list string) : string :=
  match dns_servers with
  | [] => "8.8.8.8"
  | d :: _ => d
  end.

(** [dns_servers[1] if len(dns_servers) > 1 else None] *)
Definition secondary_of (dns_servers : list string) : option string :=
  match dns_servers with
  | _ :: d :: _ => Some d
  | _ => None
  end.

Definition perform_initial_setup (self : t)
    (new_ip subnet_mask gateway : string) (dns_servers : list string)
    (new_password : string) : M unit :=
  _update_progress self "Starting initial configuration..." ;;
  set_management_ip self new_ip subnet_mask gateway ;;
  set_dns_servers self (primary_of dns_servers) (secondary_of dns_servers) ;;
  change_admin_password self new_password ;;
  commit_configuration self ;;
  _update_progress self "Initial configuration complete".

End FirewallConfigurator.

Definition configure_firewall (h new_ip subnet_mask gateway : string)
    (dns_servers : list string) (new_password u current_password : string)
    (progress_callback : callback) : M bool :=
  call_progress progress_callback ("Connecting to " ++ h ++ "...") ;;
  session_scope (SSH.new h u current_password 22)
    (fun c =>
       FirewallConfigurator.perform_initial_setup
         (FirewallConfigurator.mk c progress_callback)
         new_ip subnet_mask gateway dns_servers new_password ;;
       ret true)
    raise.

(** ** [LicenseManager] of [src/licensing.py] *)

Module LicenseManager.

Record t : Type := mk {
  client : PANOSSSHClient;
  progress_callback : callback
}.

Definition _update_progress (self : t) (message : string) : M unit :=
  call_progress (progress_callback self) message.

Definition fetch_licenses (self : t) : M string :=
  _update_progress self "Fetching licenses from license server..." ;;
  try_except
    (output <- SSH.send_command (client self) "request license fetch" ;;
     let low := Text.lower output in
     if Text.contains "successfully" low then
       _update_progress self "Licenses fetched successfully" ;;
       ret output
     else if Text.contains "failed" low then
       raise (RuntimeError ("License fetch failed: " ++ output))
     else if Text.contains "unable to connect" low then
       raise (RuntimeError
                "Unable to connect to license server. Check internet connectivity.")
     else if Text.contains "invalid auth code" low then
       raise (RuntimeError "Invalid auth code. Check firewall registration.")
     else
       _update_progress self "License fetch completed" ;;
       ret output)
    (fun e =>
       emit (LogError ("License fetch error: " ++ exn_message e)) ;;
       raise e).

Definition get_license_info (self : t) : M string :=
  _update_progress self "Checking license status..." ;;
  SSH.send_command (client self) "request license info".

Definition verify_licenses_active (self : t) : M bool :=
  output <- get_license_info self ;;
  let low := Text.lower output in
  ret (Text.contains "threat prevention" low
       || Text.contains "pandb url filtering" low
       || Text.contains "wildfire" low
       || Text.contains "globalprotect" low
       || Text.contains "valid" low).

End LicenseManager.

(** [f"{last_error}"] *)
Definition str_of_error (last_error : option exn) : string :=
  match last_error with
  | Some e => exn_message e
  | None => "None"
  end.

(** One turn of [for attempt in range(1, max_retries + 1)] in
    [fetch_and_verify_licenses]: the value returned, or the error
    caught. *)
Definition license_attempt (license_manager : LicenseManager.t)
    (progress_callback : callback) (attempt max_retries retry_delay : Z)
  : M (exn + bool) :=
  try_except
    (call_progress progress_callback
       ("License fetch attempt " ++ Text.str_of_Z attempt ++ "/"
        ++ Text.str_of_Z max_retries ++ "...") ;;
     _ <- LicenseManager.fetch_licenses license_manager ;;
     active <- LicenseManager.verify_licenses_active license_manager ;;
     if active then
       call_progress progress_callback "Licenses verified as active" ;;
       ret (inr true)
     else
       call_progress progress_callback
         "Warning: Could not verify license activation" ;;
       ret (inr true))
    (fun e =>
       emit (LogWarning ("License fetch attempt " ++ Text.str_of_Z attempt
                         ++ " failed: " ++ exn_message e)) ;;
       (if (attempt <? max_retries)%Z then
          call_progress progress_callback
            ("Retrying in " ++ Text.str_of_Z retry_delay ++ " seconds...") ;;
          time_sleep retry_delay
        else ret tt) ;;
       ret (inl e)).

(** The [for] loop with the [raise] that follows it; [remaining] counts
    the turns left and [attempt] is the next value of the loop variable. *)
Fixpoint license_attempts (remaining : nat) (license_manager : LicenseManager.t)
    (progress_callback : callback) (attempt max_retries retry_delay : Z)
    (last_error : option exn) : M bool :=
  match remaining with
  | O =>
      raise (RuntimeError ("License fetch failed after "
                           ++ Text.str_of_Z max_retries ++ " attempts: "
                           ++ str_of_error last_error))
  | S remaining' =>
      r <- license_attempt license_manager progress_callback attempt
             max_retries retry_delay ;;
      match r with
      | inr b => ret b
      | inl e =>
          license_attempts remaining' license_manager progress_callback
            (attempt + 1)%Z max_retries retry_delay (Some e)
      end
  end.

Definition fetch_and_verify_licenses (h u p : string)
    (progress_callback : callback) (max_retries retry_delay : Z) : M bool :=
  call_progress progress_callback ("Connecting to " ++ h ++ " for licensing...") ;;
  session_scope (SSH.new h u p 22)
    (fun c =>
       license_attempts (Z.to_nat max_retries)
         (LicenseManager.mk c progress_callback) progress_callback
         1%Z max_retries retry_delay None)
    raise.

(** ** [ContentUpdater] of [src/content_update.py] *)

Module ContentUpdater.

Record t : Type := mk {
  client : PANOSSSHClient;
  progress_callback : callback
}.

Definition _update_progress (self : t) (message : string) : M unit :=
  call_progress (progress_callback self) message.

Definition check_content_version (self : t) : M string :=
  SSH.send_command (client self) "request content upgrade check".

(** [\s+yes] at the head of [s]; [seen] tells whether a space was read. *)
Fixpoint spaces_yes (seen : bool) (s : string) : bool :=
  match s with
  | EmptyString => false
  | String c s' =>
      if Text.is_space c then spaces_yes true s'
      else seen && prefix "yes" s
  end.

(** [\d+-\d+\s+yes] at the head of [s]. *)
Definition version_yes_here (s : string) : bool :=
  let (d1, r1) := Text.span_digits s in
  if Text.is_empty d1 then false
  else match r1 with
       | String "-" r1' =>
           let (d2, r2) := Text.span_digits r1' in
           if Text.is_empty d2 then false else spaces_yes false r2
       | _ => false
       end.

(** [re.search(r'(\d+-\d+)\s+yes', s)] finds a match. *)
Fixpoint search_version_yes (s : string) : bool :=
  version_yes_here s
  || match s with
     | EmptyString => false
     | String _ s' => search_version_yes s'
     end.

(** The truth value of [_get_downloadable_version(status_output)]. *)
Definition _get_downloadable_version (status_output : string) : bool :=
  search_version_yes (Text.lower status_output).

Definition download_turn (self : t) (_ : unit) : M (flow unit string) :=
  time_sleep 10 ;;
  status <- SSH.send_command (client self) "request content upgrade info" ;;
  let low := Text.lower status in
  if Text.contains "currently downloading" low then
    match Text.search_percent status with
    | Some pct => _update_progress self ("Downloading content: " ++ pct ++ "%")
    | None => ret tt
    end ;;
    ret (Continue tt)
  else if Text.contains "download" low && Text.contains "complete" low then
    _update_progress self "Content download completed" ;;
    ret (Return status)
  else if Text.contains "failed" low then
    raise (RuntimeError ("Content download failed: " ++ status))
  else if _get_downloadable_version status then ret (Return status)
  else ret (Continue tt).

Definition _wait_for_download_completion (fuel : nat) (self : t) (timeout : Z)
  : M string :=
  start_time <- time_time ;;
  while_elapsed fuel start_time timeout (download_turn self)
    (raise (RuntimeError "Content download timed out")) tt.

Definition download_latest_content (fuel : nat) (self : t) (timeout : Z)
  : M string :=
  _update_progress self "Downloading latest content update..." ;;
  try_except
    (output <- SSH.send_command (client self)
                 "request content upgrade download latest" ;;
     let low := Text.lower output in
     if Text.contains "download job enqueued" low then
       _update_progress self
         "Content download job started, waiting for completion..." ;;
       _wait_for_download_completion fuel self timeout
     else if Text.contains "already downloaded" low then
       _update_progress self "Latest content already downloaded" ;;
       ret output
     else if Text.contains "download succeeded" low
             || Text.contains "successfully" low then
       _update_progress self "Content download completed" ;;
       ret output
     else if Text.contains "failed" low then
       raise (RuntimeError ("Content download failed: " ++ output))
     else ret output)
    (fun e =>
       emit (LogError ("Content download error: " ++ exn_message e)) ;;
       raise e).

Definition install_turn (self : t) (_ : unit) : M (flow unit string) :=
  time_sleep 10 ;;
  status <- SSH.send_command (client self) "request content upgrade info" ;;
  let low := Text.lower status in
  if Text.contains "currently installing" low then
    _update_progress self "Installing content..." ;;
    ret (Continue tt)
  else if Text.contains "install" low && Text.contains "complete" low then
    _update_progress self "Content installation completed" ;;
    ret (Return status)
  else if Text.contains "failed" low then
    raise (RuntimeError ("Content installation failed: " ++ status))
  else if Text.contains "version" low && Text.contains "current" low
  then ret (Return status)
  else ret (Continue tt).

Definition _wait_for_install_completion (fuel : nat) (self : t) (timeout : Z)
  : M string :=
  start_time <- time_time ;;
  while_elapsed fuel start_time timeout (install_turn self)
    (raise (RuntimeError "Content installation timed out")) tt.

Definition install_latest_content (fuel : nat) (self : t) (timeout : Z)
  : M string :=
  _update_progress self "Installing content update..." ;;
  try_except
    (output <- SSH.send_command (client self)
                 "request content upgrade install version latest" ;;
     let low := Text.lower output in
     if Text.contains "install job enqueued" low then
       _update_progress self
         "Content install job started, waiting for completion..." ;;
       _wait_for_install_completion fuel self timeout
     else if Text.contains "successfully" low || Text.contains "installed" low
     then
       _update_progress self "Content installed successfully" ;;
       ret output
     else if Text.contains "failed" low then
       raise (RuntimeError ("Content installation failed: " ++ output))
     else if Text.contains "already installed" low then
       _update_progress self "Latest content already installed" ;;
       ret output
     else ret output)
    (fun e =>
       emit (LogError ("Content install error: " ++ exn_message e)) ;;
       raise e).

Definition update_content (fuel : nat) (self : t) : M unit :=
  _update_progress self "Starting content update..." ;;
  _ <- download_latest_content fuel self 600 ;;
  _ <- install_latest_content fuel self 300 ;;
  _update_progress self "Content update complete".

End ContentUpdater.

Definition update_firewall_content (fuel : nat) (h u p : string)
    (progress_callback : callback) : M bool :=
  call_progress progress_callback
    ("Connecting to " ++ h ++ " for content update...") ;;
  session_scope (SSH.new h u p 22)
    (fun c =>
       ContentUpdater.update_content fuel
         (ContentUpdater.mk c progress_callback) ;;
       ret true)
    raise.

(** ** The first three phases of [FirewallSetupOrchestrator] *)

Module SetupPhases.
Import FirewallSetupOrchestrator.

(** The fields of [SetupConfig] that the first phase reads besides those
    of the upgrade phase. *)
Record NetworkConfig : Type := mkNetwork {
  subnet_mask : string;
  gateway : string;
  dns_servers : list string
}.

Definition DEFAULT_FIREWALL_IP : string := "192.168.1.1".
Definition DEFAULT_PASSWORD : string := "admin".

Definition to_status : callback := Some (fun msg => [Status msg]).

(** The [except] clause of a phase. *)
Definition phase_failed (number title what : string) (e : exn) : M bool :=
  emit (LogError ("Phase " ++ number ++ " failed: " ++ exn_message e)) ;;
  beep_error ;;
  show_error title
    (what ++ exn_message e ++ nl ++ nl
     ++ "Suggestion: " ++ get_error_suggestion e) ;;
  ret false.

Definition _phase1_initial_config (config : SetupConfig) (net : NetworkConfig)
  : M bool :=
  _update_progress "Phase 1: Initial Configuration" ;;
  _update_progress "Connecting to firewall at 192.168.1.1..." ;;
  session_scope
    (SSH.new DEFAULT_FIREWALL_IP DEFAULT_USERNAME DEFAULT_PASSWORD 22)
    (fun c =>
       let configurator := FirewallConfigurator.mk c to_status in
       _update_progress "Configuring management IP..." ;;
       FirewallConfigurator.set_management_ip configurator
         (new_ip config) (subnet_mask net) (gateway net) ;;
       _update_progress "Configuring DNS servers..." ;;
       FirewallConfigurator.set_dns_servers configurator
         (FirewallConfigurator.primary_of (dns_servers net))
         (FirewallConfigurator.secondary_of (dns_servers net)) ;;
       _update_progress "Changing admin password..." ;;
       FirewallConfigurator.change_admin_password configurator
         (new_password config) ;;
       _update_progress "Committing configuration..." ;;
       FirewallConfigurator.commit_configuration configurator ;;
       _update_progress "Initial configuration complete" ;;
       ret true)
    (phase_failed "1" "Initial Configuration Failed"
       "Failed to configure firewall: ").

Definition _phase2_licensing (fuel : nat) (config : SetupConfig) : M bool :=
  _update_progress "Phase 2: Licensing" ;;
  _update_progress "Waiting for firewall at new IP..." ;;
  reachable <- wait_for_ssh fuel (new_ip config) 22 DEFAULT_USERNAME
                 (new_password config) 180 15 to_status ;;
  if negb reachable then
    beep_error ;;
    show_error "Connection Failed"
      ("Cannot connect to firewall at " ++ new_ip config ++ nl ++ nl
       ++ "The firewall may still be committing or restarting services.") ;;
    ret false
  else
    _update_progress "Connecting to firewall..." ;;
    session_scope
      (SSH.new (new_ip config) DEFAULT_USERNAME (new_password config) 22)
      (fun c =>
         _update_progress "Fetching licenses..." ;;
         _ <- LicenseManager.fetch_licenses (LicenseManager.mk c to_status) ;;
         _update_progress "Licensing complete" ;;
         ret true)
      (phase_failed "2" "Licensing Failed" "Failed to fetch licenses: ").

Definition _phase3_content_update (fuel : nat) (config : SetupConfig) : M bool :=
  _update_progress "Phase 3: Content Update" ;;
  _update_progress "Connecting to firewall..." ;;
  session_scope
    (SSH.new (new_ip config) DEFAULT_USERNAME (new_password config) 22)
    (fun c =>
       let content_updater := ContentUpdater.mk c to_status in
       _update_progress "Downloading content update..." ;;
       _ <- ContentUpdater.download_latest_content fuel content_updater 600 ;;
       _update_progress "Installing content update..." ;;
       _ <- ContentUpdater.install_latest_content fuel content_updater 300 ;;
       _update_progress "Content update complete" ;;
       ret true)
    (phase_failed "3" "Content Update Failed" "Failed to update content: ").

(** [run] with its four phases. *)
Definition run_all (fuel : nat) (config : SetupConfig) (net : NetworkConfig)
  : M bool :=
  run (_phase1_initial_config config net) (_phase2_licensing fuel config)
      (_phase3_content_update fuel config) fuel config.

End SetupPhases.

(** ** The words of the specification

    Declarative counterparts of what the code computes, written after the
    specification's wording; the theorems relate them to the code. *)

Module Spec.
Import Text.

(** The text begins with three dot-separated all-digit components. *)
Definition begins_with_triple (s : string) : Prop :=
  exists d1 d2 d3 rest,
    digits d1 = true /\ digits d2 = true /\ digits d3 = true
    /\ s = d1 ++ "." ++ d2 ++ "." ++ d3 ++ rest.

(** [c] is [s] without one trailing [-h<digits>] suffix, when [s] has
    one, and [s] itself otherwise. *)
Definition without_hotfix (s c : string) : Prop :=
  (exists d, digits d = true /\ s = c ++ "-h" ++ d)
  \/ (c = s /\ forall p d, digits d = true -> s <> p ++ "-h" ++ d).

(** Each element of [path] parses to a version that strictly exceeds
    the one before it, [prev] coming before the first. *)
Fixpoint increasing_from (prev : Version.t) (path : list string) : Prop :=
  match path with
  | [] => True
  | s :: path' =>
      exists v, Version.parse s = Ret v
                /\ Version.lt prev v = true
                /\ increasing_from v path'
  end.

(** How many entries of the upgrade map lie ahead of the train of [v]:
    the measure that bounds the planner's loop. *)
Definition train_rank (v : Version.t) : nat :=
  let ma := Version.major v in
  let mi := Version.minor v in
  if ((ma =? 9) && (mi =? 0))%N then 8
  else if ((ma =? 9) && (mi =? 1))%N then 7
  else if ((ma =? 10) && (mi =? 0))%N then 6
  else if ((ma =? 10) && (mi =? 1))%N then 5
  else if ((ma =? 10) && (mi =? 2))%N then 4
  else if ((ma =? 11) && (mi =? 0))%N then 3
  else if ((ma =? 11) && (mi =? 1))%N then 2
  else if ((ma =? 11) && (mi =? 2))%N then 1
  else 0.

End Spec.

(** ** The reachability waiter in the words of the specification *)

Module Reachability.

Definition is_text (a : answer) : bool :=
  match a with Text _ => true | Fault _ => false end.

(** The next TCP probe finds the port open. *)
Definition tcp_ready (w : World) : bool :=
  match probes w with
  | p :: _ =>
      match probe_code p with
      | Some code => (code =? 0)%Z
      | None => false
      end
  | [] => false
  end.

(** The device accepts the next session and answers its first command. *)
Definition session_ready (w : World) : bool :=
  match replies w with
  | r1 :: r2 :: _ => is_text (outcome r1) && is_text (outcome r2)
  | _ => false
  end.

(** An attempt started in [w] succeeds at both layers. *)
Definition attempt_ok (w : World) : bool := tcp_ready w && session_ready w.

(** A waiter that makes attempts, each by [turn], until one succeeds or
    the timeout has elapsed; [on_timeout] is what it does on the timeout.
    [waits n w b w']: started in [w] with [n] attempts behind it, the
    waiter answers [b] and leaves the world [w']. *)
Inductive waits (start_time timeout : Z) (turn : Z -> M (flow Z bool))
    (on_timeout : World -> World) : Z -> World -> bool -> World -> Prop :=
| waits_timeout n w :
    (timeout <= now w - start_time)%Z ->
    waits start_time timeout turn on_timeout n w false (on_timeout w)
| waits_ready n w w' :
    (now w - start_time < timeout)%Z ->
    attempt_ok w = true ->
    turn n w = (Ret (Return true), w') ->
    waits start_time timeout turn on_timeout n w true w'
| waits_retry n w w1 b w' :
    (now w - start_time < timeout)%Z ->
    attempt_ok w = false ->
    turn n w = (Ret (Continue (n + 1)%Z), w1) ->
    waits start_time timeout turn on_timeout (n + 1)%Z w1 b w' ->
    waits start_time timeout turn on_timeout n w b w'.

End Reachability.

(** What a callback adds to the trace, most recent event first. *)
Definition shown (cb : callback) (message : string) : list event :=
  match cb with
  | Some f => rev (f message)
  | None => []
  end.

Definition add_trace (l : list event) (w : World) : World :=
  mkWorld (gui_faults w) (now w) (replies w) (probes w) (cancels w) (live_sessions w)
          (client w) (l ++ trace w).

(** ** Scenarios *)

Module Scenario.

Definition upgrader : PANOSUpgrader.t :=
  PANOSUpgrader.mk "10.0.0.1" "admin" "secret" None.

Definition connected : PANOSSSHClient :=
  mkClient "10.0.0.1" "admin" "secret" 22 60 true.

Definition says (output : string) : reply := mkReply 0 (Text output).

(** A connected upgrader whose device reports a failed install job. *)
Definition install_fails : World :=
  mkWorld [] 0 [says "installation failed"; says "installation failed"]
          [] [] 1 (Some connected) [].

(** A connected upgrader whose device reports a failed download job. *)
Definition download_fails : World :=
  mkWorld [] 0 [says "download failed"; says "download failed"]
          [] [] 1 (Some connected) [].

(** A device at 10.2.0 that accepts the session and answers the version
    query, and whose transport then breaks. *)
Definition check_faults : World :=
  mkWorld [] 0 [says ""; says "sw-version: 10.2.0";
             mkReply 5 (Fault "Socket is closed"); says ""]
          [] [] 0 None [].

(** A connected upgrader whose device has every image already. *)
Definition all_downloaded : World :=
  mkWorld [] 0 [says "already downloaded"; says "already downloaded"]
          [] [] 1 (Some connected) [].

(** A device that is reachable at the second attempt. *)
Definition back_at_second_attempt : World :=
  mkWorld [] 0 [says ""; says "clock"; says ""]
          [mkProbe 1 (Some 111%Z); mkProbe 1 (Some 0%Z)] [] 0 None [].

Definition config : FirewallSetupOrchestrator.SetupConfig :=
  FirewallSetupOrchestrator.mkConfig "10.0.0.1" "secret" "10.2.4".

Definition no_session : World := mkWorld [] 0 [] [] [] 0 None [].

End Scenario.

(** ** Judgements on computations *)

(** [m] never runs out of fuel. *)
Definition total {A : Type} (m : M A) : Prop :=
  forall w, fst (m w) <> OutOfFuel.

(** The clock never goes back while [m] runs, however [m] ends. *)
Definition clock_mono {A : Type} (m : M A) : Prop :=
  forall w, (now w <= now (snd (m w)))%Z.

(** When [m] returns, at least [d] seconds have passed. *)
Definition returns_after {A : Type} (d : Z) (m : M A) : Prop :=
  forall w a w', m w = (Ret a, w') -> (now w + d <= now w')%Z.

(** [R] relates the world [m] starts in to the world it leaves, however
    [m] ends. *)
Definition preserves (R : World -> World -> Prop) {A : Type} (m : M A) : Prop :=
  forall w, R w (snd (m w)).

(** As many sessions are open after as before. *)
Definition same_sessions (w w' : World) : Prop :=
  live_sessions w' = live_sessions w.

(** The trace is only added to. *)
Definition trace_grows (w w' : World) : Prop :=
  exists l, trace w' = (l ++ trace w)%list.

(** The upgrader's client field is left as it is. *)
Definition same_client (w w' : World) : Prop := client w' = client w.

(** Every exception that [m] raises satisfies [P]. *)
Definition raises_only (P : exn -> Prop) {A : Type} (m : M A) : Prop :=
  forall w e w', m w = (Raise e, w') -> P e.

(** Events that only display something. *)
Definition is_display (e : event) : bool :=
  match e with
  | Progress _ | Status _ => true
  | _ => false
  end.

(** A callback that does nothing but display its message. *)
Definition display_only (cb : callback) : Prop :=
  forall message, forallb is_display (shown cb message) = true.

(** The commands in a trace, most recent first. *)
Definition commands (tr : list event) : list string :=
  flat_map (fun e => match e with
                     | Sent c => [c]
                     | SentTiming c => [c]
                     | _ => []
                     end) tr.

(** The session that an attempt of the waiter opens is left open: the
    device accepts the session and does not answer the first command. *)
Definition session_orphaned (w : World) : bool :=
  match replies w with
  | r1 :: rest =>
      Reachability.is_text (outcome r1)
      && negb (match rest with
               | r2 :: _ => Reachability.is_text (outcome r2)
               | [] => false
               end)
  | [] => false
  end.

(** ** Parts of the code that the statements name *)

(** The guarded block of [PANOSUpgrader.reboot]: both commands, any
    failure dropped. *)
Definition reboot_block : M unit :=
  try_except
    (c <- PANOSUpgrader.self_client ;;
     _ <- SSH.send_command_timing c "request restart system" ;;
     c <- PANOSUpgrader.self_client ;;
     _ <- SSH.send_command_timing c "y" ;;
     ret tt)
    (fun _ => ret tt).

(** What [get_panos_version] reads in the output of [show system info]. *)
Definition sw_version (info : string) : string :=
  match dict_get "sw-version" (SSH.system_info (Text.split_lines info) []) with
  | Some v => v
  | None => ""
  end.

Module MoreScenarios.

(** A device at 11.1.4 that accepts the session and answers. *)
Definition at_11_1_4 : World :=
  mkWorld [] 0 [Scenario.says ""; Scenario.says "sw-version: 11.1.4";
             Scenario.says ""]
          [] [] 0 None [].

End MoreScenarios.

(** Once the device has taken [configure], the last command that [m]
    sends is [exit], however [m] ends. *)
Definition leaves_configure_mode (m : M unit) : Prop :=
  forall w d o rest r w',
    replies w = mkReply d (Text o) :: rest ->
    m w = (r, w') ->
    exists mid,
      commands (trace w')
      = ("exit" :: mid ++ "configure" :: commands (trace w))%list.

Module ConfigScenario.

Definition configurator : FirewallConfigurator.t :=
  FirewallConfigurator.mk Scenario.connected None.

(** A device that takes [configure] and rejects the address. *)
Definition address_rejected : World :=
  mkWorld [] 0 [Scenario.says ""; Scenario.says "Invalid syntax.";
             Scenario.says ""; Scenario.says "never read"]
          [] [] 1 None [].

End ConfigScenario.

(** What reaches the caller of [set_management_ip] when the device
    rejects the address with [output]: the rejection, unless leaving
    configuration mode fails too. *)
Definition rejection_reported (ip_address output : string) (on_exit : reply)
  : exn :=
  match outcome on_exit with
  | Text _ =>
      RuntimeError ("Command failed: set deviceconfig system ip-address "
                    ++ ip_address ++ FirewallConfigurator.nl
                    ++ "Output: " ++ output)
  | Fault msg => TransportError msg
  end.

(** Whenever [m] ends, by returning or by raising, as many sessions are
    open as when it started. *)
Definition releases_sessions {A : Type} (m : M A) : Prop :=
  forall w r w',
    m w = (r, w') -> r <> OutOfFuel -> live_sessions w' = live_sessions w.

(** ** The window and the sound device *)

(** The next [n] calls into the window and the sound device go through. *)
Definition calls_pass (n : nat) (w : World) : Prop :=
  Forall (fun o => o = None) (firstn n (gui_faults w)).

(** One of the next [n] such calls raises [e]. *)
Definition call_raises (n : nat) (w : World) (e : exn) : Prop :=
  In (Some e) (firstn n (gui_faults w)).

(** Every such call goes through. *)
Definition gui_works (w : World) : Prop :=
  Forall (fun o => o = None) (gui_faults w).

(** Calls into the window only use the script up. *)
Definition faults_shrink (w w' : World) : Prop :=
  exists l, gui_faults w = (l ++ gui_faults w')%list.

(** [m] raises only what a call into the window or the sound device
    raised. *)
Definition raises_scripted {A : Type} (m : M A) : Prop :=
  forall w e w', m w = (Raise e, w') -> In (Some e) (gui_faults w).

(** Where the window and the sound device work, [m] returns a value: it
    neither raises nor runs out of fuel. *)
Definition answers {A : Type} (m : M A) : Prop :=
  forall w, gui_works w -> exists a w', m w = (Ret a, w').

(** The device's answer to the first call made on a session from [w]. *)
Definition first_answer (w : World) : answer :=
  outcome (match replies w with [] => lost | r :: _ => r end).

(** The error of [fetch_and_verify_licenses] once every attempt has
    failed. *)
Definition attempts_failed (max_retries : Z) (e : exn) : Prop :=
  exists last,
    e = RuntimeError ("License fetch failed after "
                      ++ Text.str_of_Z max_retries ++ " attempts: "
                      ++ last).

(** What the pattern [(\d+-\d+)\s+yes] asks of a string: somewhere in it
    two runs of digits joined by a dash, then white space, then [yes]. *)
Definition matches_version_yes (s : string) : Prop :=
  exists pre d1 d2 sp post,
    s = pre ++ d1 ++ "-" ++ d2 ++ sp ++ "yes" ++ post
    /\ Text.digits d1 = true
    /\ Text.digits d2 = true
    /\ sp <> ""
    /\ Text.forall_chars Text.is_space sp = true.

(** The run of the four phases that [run] needs to answer [True]: each
    phase in turn answers [True] and no cancellation is seen between two
    of them. *)
Definition all_phases_passed (p1 p2 p3 p4 : M bool) (w w' : World) : Prop :=
  exists w1 w2 w3 w4 w5 w6 w7,
    p1 w = (Ret true, w1)
    /\ FirewallSetupOrchestrator._check_cancelled w1 = (Ret false, w2)
    /\ p2 w2 = (Ret true, w3)
    /\ FirewallSetupOrchestrator._check_cancelled w3 = (Ret false, w4)
    /\ p3 w4 = (Ret true, w5)
    /\ FirewallSetupOrchestrator._check_cancelled w5 = (Ret false, w6)
    /\ p4 w6 = (Ret true, w7)
    /\ FirewallSetupOrchestrator._update_progress "Setup complete!" w7
       = (Ret tt, w').

(** ** [send_config_command] of [src/ssh_client.py]

    The three calls go to the transport itself, not through
    [send_command_timing]; one [except] logs and raises again. *)

(** [self.connection.send_command_timing(command)] *)
Definition transport_timing (command : string) : M string :=
  emit (SentTiming command) ;;
  a <- next_reply ;;
  match a with
  | Text output => ret output
  | Fault msg => raise (TransportError msg)
  end.

Definition send_config_command (c : PANOSSSHClient) (command : string)
  : M string :=
  if connection c then
    try_except
      (_ <- transport_timing "configure" ;;
       output <- transport_timing command ;;
       _ <- transport_timing "exit" ;;
       ret output)
      (fun e =>
         emit (LogError ("Config command failed: " ++ exn_message e)) ;;
         raise e)
  else raise (RuntimeError "Not connected to firewall").

Module TransportScenario.

(** A device that takes [configure] and then drops the session. *)
Definition drops_in_configure_mode : World :=
  mkWorld [] 0 [Scenario.says ""; mkReply 2 (Fault "Socket is closed");
             Scenario.says "never read"]
          [] [] 1 None [].

End TransportScenario.

(** ** [src/network_detect.py]: the functions on dotted addresses *)

Module NetworkDetect.

(** [s.split('.')] *)
Fixpoint split_dot (s : string) : list string :=
  match s with
  | EmptyString => [EmptyString]
  | String c s' =>
      if Ascii.eqb c "."%char then EmptyString :: split_dot s'
      else match split_dot s' with
           | part :: parts => String c part :: parts
           | [] => [String c EmptyString]
           end
  end.

(** [l[i] = v], for [i] in range. *)
Fixpoint set_item (i : nat) (v : string) (l : list string) : list string :=
  match l, i with
  | [], _ => []
  | _ :: l', O => v :: l'
  | x :: l', S i' => x :: set_item i' v l'
  end.

Definition get_default_gateway_for_ip (ip : string) : string :=
  let parts := split_dot ip in
  if (List.length parts =? 4)%nat
  then Text.join "." (set_item 3 "254" parts)
  else "192.168.1.254".

Section Parsed.

(** [int(p)]: the number read, or [None] for a [ValueError]. *)
Variable int : string -> option Z.

(** [[int(p) for p in parts]] *)
Fixpoint ints (parts : list string) : option (list Z) :=
  match parts with
  | [] => Some []
  | p :: parts' =>
      match int p with
      | Some n =>
          match ints parts' with
          | Some ns => Some (n :: ns)
          | None => None
          end
      | None => None
      end
  end.

(** The test of one turn of the loop:
    [(ip1_parts[i] & mask_parts[i]) != (ip2_parts[i] & mask_parts[i])],
    or [None] for an [IndexError]. *)
Definition differ_at (ip1_parts ip2_parts mask_parts : list Z) (i : nat)
  : option bool :=
  match nth_error ip1_parts i, nth_error mask_parts i,
        nth_error ip2_parts i with
  | Some a, Some m, Some b => Some (negb (Z.land a m =? Z.land b m)%Z)
  | _, _, _ => None
  end.

(** [for i in range(4)], with [return False] at the first difference and
    at the first exception. *)
Fixpoint same_on (indices : list nat) (ip1_parts ip2_parts mask_parts : list Z)
  : bool :=
  match indices with
  | [] => true
  | i :: indices' =>
      match differ_at ip1_parts ip2_parts mask_parts i with
      | Some false => same_on indices' ip1_parts ip2_parts mask_parts
      | Some true => false
      | None => false
      end
  end.

(** Every exception of the block ends in [return False]. *)
Definition is_same_subnet (ip1 ip2 mask : string) : bool :=
  match ints (split_dot ip1) with
  | Some ip1_parts =>
      match ints (split_dot ip2) with
      | Some ip2_parts =>
          match ints (split_dot mask) with
          | Some mask_parts => same_on [0; 1; 2; 3] ip1_parts ip2_parts mask_parts
          | None => false
          end
      | None => false
      end
  | None => false
  end.

End Parsed.

(** What the loop of [is_same_subnet] asks of the three lists: at each of
    the four indices all three have an entry, and the two addresses agree
    under the mask. *)
Definition agree (a b m : list Z) : Prop :=
  forall i, i < 4 ->
    exists x y k,
      nth_error a i = Some x /\ nth_error b i = Some y
      /\ nth_error m i = Some k /\ Z.land x k = Z.land y k.

(** A reading of plain decimal numerals, for examples. *)
Definition decimal (s : string) : option Z :=
  if Text.digits s then Some (Z.of_N (Text.int_of_digits s)) else None.

End NetworkDetect.

(** A part of a dotted address holds no dot. *)
Definition dot_free (s : string) : bool :=
  Text.forall_chars (fun c => negb (Ascii.eqb c "."%char)) s.

Module ReportScenario.

Definition net : SetupPhases.NetworkConfig :=
  SetupPhases.mkNetwork "255.255.255.0" "10.0.0.254" ["8.8.8.8"].

(** What [winsound.Beep] raises when it cannot beep. *)
Definition no_beep : exn := RuntimeError "Failed to beep".

(** A device that does not answer, on a machine whose sound device fails:
    the four calls that show the first two status lines go through, the
    two beeps that follow raise. *)
Definition unreachable_and_mute : World :=
  mkWorld [None; None; None; None; Some no_beep; Some no_beep]
          0 [] [] [] 0 None [].

End ReportScenario.

(** The world in which [wait_for_reboot] starts probing: its first
    progress message shown and the 60-second pause taken. *)
Definition settled (self : PANOSUpgrader.t) (w : World) : World :=
  mkWorld (gui_faults w) (now w + 60) (replies w) (probes w) (cancels w)
    (live_sessions w) (client w)
    (Slept 60
     :: shown (PANOSUpgrader.progress_callback self)
          "Waiting for firewall to reboot..."
     ++ trace w).

(** The last progress message of [wait_for_reboot]. *)
Definition reboot_verdict (success : bool) : string :=
  if success then "Firewall is back online"
  else "Timeout waiting for firewall to come back online".

(** ** Commands and the clock *)

(** Nothing is sent and the clock does not go back. *)
Definition silent (w w' : World) : Prop :=
  commands (trace w') = commands (trace w) /\ (now w <= now w')%Z.

(** At most the command [q] is sent, once, and the clock does not go
    back. *)
Definition at_most (q : string) (w w' : World) : Prop :=
  (commands (trace w') = commands (trace w)
   \/ commands (trace w') = q :: commands (trace w))
  /\ (now w <= now w')%Z.

(** One turn of a waiter that polls with [q] every [d] seconds: at least
    [d] seconds pass, and at most the one command [q] is sent. *)
Definition polled (q : string) (d : Z) (w w' : World) : Prop :=
  (commands (trace w') = commands (trace w)
   \/ commands (trace w') = q :: commands (trace w))
  /\ (now w + d <= now w')%Z.

(** What a waiter with the status query [q], the interval [d] and the
    budget [timeout] sends between [w] and [w']: the query only; every
    query is paid for by a full interval, the first too; and one more
    query than [n] is sent only where [n] intervals fit in the budget. *)
Definition polls_of (q : string) (d timeout : Z) (w w' : World)
    (polls : list string) : Prop :=
  commands (trace w') = (polls ++ commands (trace w))%list
  /\ Forall (fun c => c = q) polls
  /\ (d * Z.of_nat (List.length polls) <= now w' - now w)%Z
  /\ (polls = [] \/ (d * (Z.of_nat (List.length polls) - 1) < timeout)%Z).

(** [m] is such a waiter, however it ends. *)
Definition polls_every (q : string) (d timeout : Z) {A : Type} (m : M A)
  : Prop :=
  forall w, exists polls, polls_of q d timeout w (snd (m w)) polls.

Definition download_command (version : string) : string :=
  "request system software download version " ++ version.

Definition software_info : string := "request system software info".

Definition download_timed_out (version : string) : exn :=
  RuntimeError ("Download of " ++ version ++ " timed out").

(** The commands of one download of [version] with the budget [timeout],
    oldest first: the download command, then status queries, one more
    than [n] only where [n] intervals of 30 seconds fit in the budget. *)
Definition one_download (version : string) (timeout : Z)
    (cmds : list string) : Prop :=
  exists polls,
    cmds = download_command version :: polls
    /\ Forall (fun c => c = software_info) polls
    /\ (polls = [] \/ (30 * (Z.of_nat (List.length polls) - 1) < timeout)%Z).

(** ** Sleeps and status queries *)

(** The events [new] (most recent first) send no command. *)
Definition quiet (w w' : World) : Prop :=
  exists new, trace w' = (new ++ trace w)%list /\ commands new = [].

(** At most one command is sent, the query [q], before anything else
    happens. *)
Definition query_first (q : string) (w w' : World) : Prop :=
  exists later,
    (trace w' = (later ++ trace w)%list
     \/ trace w' = (later ++ Sent q :: trace w)%list)
    /\ commands later = [].

(** In the events [new] (most recent first) every command is the query
    [q], and the event just before it is a sleep of [d] seconds. *)
Fixpoint sleeps_before_queries (q : string) (d : Z) (new : list event)
  : bool :=
  match new with
  | [] => true
  | Sent c :: rest =>
      String.eqb c q
      && match rest with
         | Slept d' :: _ => (d' =? d)%Z
         | _ => false
         end
      && sleeps_before_queries q d rest
  | SentTiming _ :: _ => false
  | _ :: rest => sleeps_before_queries q d rest
  end.

(** [w'] comes from [w] by such events. *)
Definition paced (q : string) (d : Z) (w w' : World) : Prop :=
  exists new,
    trace w' = (new ++ trace w)%list
    /\ sleeps_before_queries q d new = true.

(** * Properties *)

(** ** Facts on texts *)

Module TextFacts.
Import Text.

Lemma append_assoc (a b c : string) : (a ++ b) ++ c = a ++ (b ++ c).
Proof. induction a as [|x a IH]; simpl; [reflexivity | now rewrite IH]. Qed.

Lemma append_nil_r (a : string) : a ++ "" = a.
Proof. induction a as [|x a IH]; simpl; [reflexivity | now rewrite IH]. Qed.

Lemma forall_chars_app (p : ascii -> bool) (a b : string) :
  forall_chars p (a ++ b) = forall_chars p a && forall_chars p b.
Proof.
  induction a as [|x a IH]; simpl; [reflexivity|].
  now rewrite IH, andb_assoc.
Qed.

Lemma forall_chars_impl (p q : ascii -> bool) (s : string) :
  (forall c, p c = true -> q c = true) ->
  forall_chars p s = true -> forall_chars q s = true.
Proof.
  intros Hpq. induction s as [|x s IH]; simpl; [reflexivity|].
  intros H. apply andb_true_iff in H as [Hx Hs].
  now rewrite (Hpq _ Hx), IH.
Qed.

Lemma all_digits_forall (s : string) : all_digits s = forall_chars is_digit s.
Proof. induction s as [|x s IH]; simpl; [reflexivity | now rewrite IH]. Qed.

Lemma all_digits_app (a b : string) :
  all_digits (a ++ b) = all_digits a && all_digits b.
Proof. rewrite !all_digits_forall. apply forall_chars_app. Qed.

(** *** Runs of digits *)

Lemma span_digits_eq (s : string) :
  s = fst (span_digits s) ++ snd (span_digits s).
Proof.
  induction s as [|x s IH]; simpl; [reflexivity|].
  destruct (is_digit x); [|reflexivity].
  destruct (span_digits s) as [d r]; simpl in *. now rewrite IH at 1.
Qed.

Lemma span_digits_all (s : string) : all_digits (fst (span_digits s)) = true.
Proof.
  induction s as [|x s IH]; simpl; [reflexivity|].
  destruct (is_digit x) eqn:Hx; [|reflexivity].
  destruct (span_digits s) as [d r]; simpl in *. now rewrite Hx.
Qed.

Lemma span_digits_rest (s : string) :
  head_is_digit (snd (span_digits s)) = false.
Proof.
  induction s as [|x s IH]; simpl; [reflexivity|].
  destruct (is_digit x) eqn:Hx.
  - destruct (span_digits s) as [d r]; simpl in *. exact IH.
  - simpl. exact Hx.
Qed.

Lemma span_digits_app (d s : string) :
  all_digits d = true ->
  span_digits (d ++ s) = (d ++ fst (span_digits s), snd (span_digits s)).
Proof.
  induction d as [|x d IH]; simpl; intros H.
  - now destruct (span_digits s).
  - apply andb_true_iff in H as [Hx Hd]. rewrite Hx, (IH Hd). reflexivity.
Qed.

Lemma span_digits_stop (s : string) :
  head_is_digit s = false -> span_digits s = ("", s).
Proof. destruct s as [|x s]; simpl; [reflexivity|]. now intros ->. Qed.

Lemma span_digits_exact (d s : string) :
  all_digits d = true -> head_is_digit s = false ->
  span_digits (d ++ s) = (d, s).
Proof.
  intros Hd Hs. rewrite (span_digits_app _ _ Hd), (span_digits_stop _ Hs).
  simpl. now rewrite append_nil_r.
Qed.

Lemma is_empty_app (a b : string) :
  is_empty (a ++ b) = is_empty a && is_empty b.
Proof. now destruct a. Qed.

Lemma is_empty_true (a : string) : is_empty a = true -> a = "".
Proof. now destruct a. Qed.

Lemma digits_split (d : string) :
  digits d = true -> is_empty d = false /\ all_digits d = true.
Proof.
  unfold digits. intros H. apply andb_true_iff in H as [H1 H2].
  split; [now apply negb_true_iff | exact H2].
Qed.

(** *** Decimal numerals *)

Lemma string_of_uint_digits (d : Decimal.uint) :
  all_digits (NilEmpty.string_of_uint d) = true.
Proof. induction d; simpl; auto. Qed.

Lemma str_of_N_all_digits (n : N) : all_digits (str_of_N n) = true.
Proof.
  unfold str_of_N, NilZero.string_of_uint.
  destruct (N.to_uint n); try reflexivity; apply string_of_uint_digits.
Qed.

Lemma str_of_N_nonempty (n : N) : is_empty (str_of_N n) = false.
Proof.
  unfold str_of_N, NilZero.string_of_uint.
  destruct (N.to_uint n); reflexivity.
Qed.

Lemma str_of_N_digits (n : N) : digits (str_of_N n) = true.
Proof.
  unfold digits. now rewrite str_of_N_nonempty, str_of_N_all_digits.
Qed.

Lemma int_of_str (n : N) : int_of_digits (str_of_N n) = n.
Proof.
  pose proof (DecimalN.Unsigned.of_to n) as H.
  unfold int_of_digits, str_of_N, NilZero.string_of_uint.
  destruct (N.to_uint n) eqn:E;
    try (cbv beta iota; rewrite NilEmpty.usu; exact H).
  rewrite <- H. reflexivity.
Qed.

Lemma str_of_N_inj (a b : N) : str_of_N a = str_of_N b -> a = b.
Proof. intros H. now rewrite <- (int_of_str a), <- (int_of_str b), H. Qed.

(** Two texts that start with a run of digits and a dot agree on the
    run and on what follows the dot. *)
Lemma digits_dot_inj (a b x y : string) :
  all_digits a = true -> all_digits b = true ->
  a ++ "." ++ x = b ++ "." ++ y -> a = b /\ x = y.
Proof.
  revert b. induction a as [|c a IH]; intros [|c' b]; simpl; intros Ha Hb E.
  - now injection E.
  - injection E as <- _. discriminate.
  - injection E as -> _. discriminate.
  - injection E as <- E. apply andb_true_iff in Ha as [_ Ha].
    apply andb_true_iff in Hb as [_ Hb].
    destruct (IH b Ha Hb E) as [-> ->]. now split.
Qed.

End TextFacts.

(** ** Facts on versions *)

Module VersionFacts.
Import Text TextFacts Version.

Lemma span_digits_dot (d s : string) :
  all_digits d = true ->
  span_digits (d ++ String "." s) = (d, String "." s).
Proof. intros A. now apply span_digits_exact. Qed.

Lemma match_version_complete (d1 d2 d3 rest : string) :
  digits d1 = true -> digits d2 = true -> digits d3 = true ->
  match_version (d1 ++ "." ++ d2 ++ "." ++ d3 ++ rest)
  = Some (d1, d2, d3 ++ fst (span_digits rest)).
Proof.
  intros H1 H2 H3.
  apply digits_split in H1 as [E1 A1].
  apply digits_split in H2 as [E2 A2].
  apply digits_split in H3 as [E3 A3].
  change (match_version
            (d1 ++ String "." (d2 ++ String "." (d3 ++ rest)))
          = Some (d1, d2, d3 ++ fst (span_digits rest))).
  unfold match_version.
  rewrite (span_digits_dot d1 _ A1), E1.
  rewrite (span_digits_dot d2 _ A2), E2.
  rewrite (span_digits_app d3 rest A3), is_empty_app, E3. reflexivity.
Qed.

Lemma match_version_sound (s g1 g2 g3 : string) :
  match_version s = Some (g1, g2, g3) ->
  exists rest,
    s = g1 ++ "." ++ g2 ++ "." ++ g3 ++ rest
    /\ digits g1 = true /\ digits g2 = true /\ digits g3 = true
    /\ head_is_digit rest = false.
Proof.
  unfold match_version.
  pose proof (span_digits_eq s) as Q1. pose proof (span_digits_all s) as A1.
  destruct (span_digits s) as [a r1]; simpl in Q1, A1.
  destruct (is_empty a) eqn:E1; [discriminate|].
  destruct r1 as [|c r1]; [discriminate|].
  destruct (Ascii.eqb_spec c "."%char) as [->|Hc];
    [| destruct c as [[] [] [] [] [] [] [] []]; try discriminate;
       now contradiction Hc].
  pose proof (span_digits_eq r1) as Q2. pose proof (span_digits_all r1) as A2.
  destruct (span_digits r1) as [b r2]; simpl in Q2, A2.
  destruct (is_empty b) eqn:E2; [discriminate|].
  destruct r2 as [|c r2]; [discriminate|].
  destruct (Ascii.eqb_spec c "."%char) as [->|Hc];
    [| destruct c as [[] [] [] [] [] [] [] []]; try discriminate;
       now contradiction Hc].
  pose proof (span_digits_eq r2) as Q3. pose proof (span_digits_all r2) as A3.
  pose proof (span_digits_rest r2) as R3.
  destruct (span_digits r2) as [c r3]; simpl in Q3, A3, R3.
  destruct (is_empty c) eqn:E3; [discriminate|].
  intros [= <- <- <-]. exists r3.
  unfold digits. rewrite E1, E2, E3, A1, A2, A3. repeat split; try exact R3.
  rewrite Q1, Q2, Q3 at 1. reflexivity.
Qed.

Lemma match_version_iff (s : string) :
  match_version s = None <-> ~ Spec.begins_with_triple s.
Proof.
  split.
  - intros H (d1 & d2 & d3 & rest & H1 & H2 & H3 & ->).
    now rewrite (match_version_complete _ _ _ rest H1 H2 H3) in H.
  - intros H. destruct (match_version s) as [[[g1 g2] g3]|] eqn:E; [|reflexivity].
    exfalso. apply H. apply match_version_sound in E as (rest & -> & ? & ? & ? & _).
    now exists g1, g2, g3, rest.
Qed.

(** *** The hotfix suffix *)

Lemma sub_hotfix_cons (x : ascii) (s : string) :
  sub_hotfix (String x s)
  = match hotfix_here (String x s) with
    | Some r => r
    | None => String x (sub_hotfix s)
    end.
Proof. reflexivity. Qed.

Lemma hotfix_here_digits (d : string) :
  digits d = true -> hotfix_here ("-h" ++ d) = Some "".
Proof.
  intros H. apply digits_split in H as [E A]. simpl.
  replace d with (d ++ "") by apply append_nil_r.
  rewrite (span_digits_exact d "" A eq_refl), E. reflexivity.
Qed.

Lemma last_char_app_cons (a : string) (c : ascii) (b : string) :
  last_char (a ++ String c b) = last_char (String c b).
Proof.
  induction a as [|x a IH]; [reflexivity|].
  change (last_char (String x (a ++ String c b))
          = last_char (String c b)).
  simpl last_char at 1. rewrite IH. simpl. now destruct (last_char b).
Qed.

Lemma hotfix_here_some (s r : string) :
  hotfix_here s = Some r ->
  exists d, digits d = true
            /\ ((r = "" /\ s = "-h" ++ d)
                \/ last_char s = Some "010"%char).
Proof.
  destruct s as [|c1 [|c2 s]]; try discriminate.
  - destruct c1 as [[] [] [] [] [] [] [] []]; discriminate.
  - intros H.
    assert (c1 = "-"%char /\ c2 = "h"%char) as [-> ->].
    { destruct c1 as [[] [] [] [] [] [] [] []]; try discriminate;
      destruct c2 as [[] [] [] [] [] [] [] []]; try discriminate; now split. }
    simpl in H.
    pose proof (span_digits_eq s) as Q. pose proof (span_digits_all s) as A.
    destruct (span_digits s) as [d r']; simpl in Q, A.
    destruct (is_empty d) eqn:E; [discriminate|].
    exists d. unfold digits. rewrite E, A. split; [reflexivity|].
    destruct (is_empty r') eqn:E'.
    + injection H as <-. apply is_empty_true in E'. subst r'.
      rewrite append_nil_r in Q. left. split; [reflexivity|]. now rewrite <- Q.
    + destruct (String.eqb_spec r' (String "010" "")) as [->|]; [|discriminate].
      right. rewrite Q.
      change (last_char (("-h" ++ d) ++ String "010" "") = Some "010"%char).
      now rewrite last_char_app_cons.
Qed.

Lemma last_char_cons (x : ascii) (s : string) (c : ascii) :
  last_char s = Some c -> last_char (String x s) = Some c.
Proof. simpl. now intros ->. Qed.

Lemma sub_hotfix_spec (s : string) :
  (forall c, last_char s = Some c -> is_space c = false) ->
  Spec.without_hotfix s (sub_hotfix s).
Proof.
  induction s as [|x s IH]; intros Hlast.
  - right. split; [reflexivity|]. intros [|? ?] d _; discriminate.
  - rewrite sub_hotfix_cons.
    destruct (hotfix_here (String x s)) as [r|] eqn:E.
    + apply hotfix_here_some in E as (d & Hd & [[-> ->] | Hnl]).
      * left. now exists d.
      * now apply Hlast in Hnl.
    + destruct IH as [(d & Hd & Hs) | [Hs Hno]].
      * intros c Hc. apply Hlast. now apply last_char_cons.
      * left. exists d. split; [exact Hd|].
        change (String x s = String x (sub_hotfix s ++ "-h" ++ d)).
        f_equal. exact Hs.
      * right. rewrite Hs. split; [reflexivity|].
        intros [|y p] d Hd Heq.
        -- simpl in Heq. rewrite Heq in E.
           change (hotfix_here ("-h" ++ d) = None) in E.
           now rewrite (hotfix_here_digits _ Hd) in E.
        -- injection Heq as _ Heq. exact (Hno p d Hd Heq).
Qed.

Lemma rstrip_last (s : string) (c : ascii) :
  last_char (rstrip s) = Some c -> is_space c = false.
Proof.
  induction s as [|x s IH]; simpl; [discriminate|].
  destruct (is_empty (rstrip s)) eqn:E; simpl.
  - destruct (is_space x) eqn:Hx; simpl; [discriminate|].
    apply is_empty_true in E. rewrite E. simpl. now intros [= <-].
  - destruct (last_char (rstrip s)) as [y|] eqn:L.
    + intros [= <-]. now apply IH.
    + destruct (rstrip s); [discriminate|]. simpl in L.
      now destruct (last_char s0).
Qed.

Lemma clean_version_spec (version_str : string) :
  Spec.without_hotfix (strip version_str) (clean_version version_str).
Proof.
  apply sub_hotfix_spec. intros c. unfold strip. apply rstrip_last.
Qed.

(** *** Printing and parsing back *)

Lemma version_char_plain (c : ascii) :
  version_char c = true ->
  is_space c = false /\ Ascii.eqb c "-"%char = false.
Proof.
  destruct c as [[] [] [] [] [] [] [] []]; try discriminate; now split.
Qed.

Lemma lstrip_id (s : string) :
  forall_chars version_char s = true -> lstrip s = s.
Proof.
  destruct s as [|x s]; simpl; [reflexivity|].
  intros H. apply andb_true_iff in H as [Hx _].
  now destruct (version_char_plain _ Hx) as [-> _].
Qed.

Lemma rstrip_id (s : string) :
  forall_chars version_char s = true -> rstrip s = s.
Proof.
  induction s as [|x s IH]; simpl; [reflexivity|].
  intros H. apply andb_true_iff in H as [Hx Hs].
  destruct (version_char_plain _ Hx) as [-> _].
  now rewrite (IH Hs), andb_false_r.
Qed.

Lemma hotfix_here_dash (x : ascii) (s : string) :
  Ascii.eqb x "-"%char = false -> hotfix_here (String x s) = None.
Proof.
  destruct x as [[] [] [] [] [] [] [] []]; try reflexivity; discriminate.
Qed.

Lemma sub_hotfix_id (s : string) :
  forall_chars version_char s = true -> sub_hotfix s = s.
Proof.
  induction s as [|x s IH]; [reflexivity|].
  intros H. simpl in H. apply andb_true_iff in H as [Hx Hs].
  destruct (version_char_plain _ Hx) as [_ Hd].
  now rewrite sub_hotfix_cons, (hotfix_here_dash _ _ Hd), (IH Hs).
Qed.

Lemma digits_version_chars (d : string) :
  all_digits d = true -> forall_chars version_char d = true.
Proof.
  rewrite all_digits_forall. apply forall_chars_impl.
  intros c Hc. unfold version_char. now rewrite Hc.
Qed.

Lemma str_version_chars (v : t) : forall_chars version_char (str v) = true.
Proof.
  unfold str. rewrite !forall_chars_app.
  rewrite !(digits_version_chars _ (str_of_N_all_digits _)). reflexivity.
Qed.

Lemma clean_version_str (v : t) : clean_version (str v) = str v.
Proof.
  unfold clean_version, strip.
  now rewrite (lstrip_id _ (str_version_chars v)),
    (rstrip_id _ (str_version_chars v)), (sub_hotfix_id _ (str_version_chars v)).
Qed.

Lemma strip_str (v : t) : strip (str v) = str v.
Proof.
  unfold strip.
  now rewrite (lstrip_id _ (str_version_chars v)),
    (rstrip_id _ (str_version_chars v)).
Qed.

Lemma parse_str (v : t) :
  parse (str v) = Ret (mk (major v) (minor v) (patch v) (str v)).
Proof.
  unfold parse. rewrite clean_version_str, strip_str.
  unfold str at 1.
  rewrite <- (append_nil_r (str_of_N (patch v))).
  rewrite (match_version_complete _ _ _ ""
             (str_of_N_digits _) (str_of_N_digits _) (str_of_N_digits _)).
  simpl fst. rewrite !append_nil_r, !int_of_str. reflexivity.
Qed.

Lemma major_minor_inj (v w : t) :
  major_minor v = major_minor w -> major v = major w /\ minor v = minor w.
Proof.
  unfold major_minor. intros H.
  apply digits_dot_inj in H as [H1 H2]; try apply str_of_N_all_digits.
  split; now apply str_of_N_inj.
Qed.

Lemma parse_not_out_of_fuel (version_str : string) :
  parse version_str <> OutOfFuel.
Proof.
  unfold parse.
  destruct (match_version (clean_version version_str)) as [[[g1 g2] g3]|];
    discriminate.
Qed.

(** *** The order *)

Lemma compare_triple (a b : t) (o : string) :
  compare a (mk (major b) (minor b) (patch b) o) = compare a b.
Proof. reflexivity. Qed.

Lemma ge_lt (a b : t) : ge a b = negb (lt a b).
Proof. unfold ge, lt. now destruct (compare a b). Qed.

End VersionFacts.

(** ** [Version.parse] *)

(** C9. [Version.parse] raises its invalid-format error exactly when the
    input, once trimmed and rid of one trailing [-h<digits>] suffix, does
    not begin with three dot-separated runs of digits; it raises nothing
    else; what follows the third run is ignored, and ["10.2.4beta"] parses
    to (10, 2, 4). *)
Theorem parse_raises_iff (version_str : string) :
  Spec.without_hotfix (Text.strip version_str)
                      (Version.clean_version version_str)
  /\ (Version.parse version_str = Raise (Version.invalid_format version_str)
      <-> ~ Spec.begins_with_triple (Version.clean_version version_str))
  /\ (forall e, Version.parse version_str = Raise e ->
                e = Version.invalid_format version_str)
  /\ Version.parse version_str <> OutOfFuel
  /\ (forall d1 d2 d3 rest,
        Text.digits d1 = true -> Text.digits d2 = true ->
        Text.digits d3 = true -> Text.head_is_digit rest = false ->
        Version.clean_version version_str = d1 ++ "." ++ d2 ++ "." ++ d3 ++ rest ->
        Version.parse version_str
        = Ret (Version.mk (Text.int_of_digits d1) (Text.int_of_digits d2)
                          (Text.int_of_digits d3) (Text.strip version_str)))
  /\ Version.parse "10.2.4beta" = Ret (Version.mk 10 2 4 "10.2.4beta").
Proof.
  split; [apply VersionFacts.clean_version_spec|].
  split; [|split; [|split; [|split; [|reflexivity]]]].
  - rewrite <- VersionFacts.match_version_iff. unfold Version.parse.
    destruct (Version.match_version (Version.clean_version version_str))
      as [[[g1 g2] g3]|]; split; try reflexivity; discriminate.
  - unfold Version.parse.
    destruct (Version.match_version (Version.clean_version version_str))
      as [[[g1 g2] g3]|]; intros e H; [discriminate | now injection H].
  - unfold Version.parse.
    destruct (Version.match_version (Version.clean_version version_str))
      as [[[g1 g2] g3]|]; discriminate.
  - intros d1 d2 d3 rest H1 H2 H3 Hr E. unfold Version.parse. rewrite E.
    rewrite (VersionFacts.match_version_complete _ _ _ rest H1 H2 H3).
    rewrite (TextFacts.span_digits_stop _ Hr). simpl fst.
    now rewrite TextFacts.append_nil_r.
Qed.

(** ** The path planner *)

Module PlannerFacts.
Import Version VersionFacts.

Lemma dict_get_in (k : string) (d : list (string * string)) (v : string) :
  dict_get k d = Some v -> In (k, v) d.
Proof.
  induction d as [|[k' v'] d IH]; simpl; [discriminate|].
  destruct (String.eqb_spec k k') as [->|_].
  - intros [= ->]. now left.
  - intros H. right. now apply IH.
Qed.

Lemma train_rank_bound (v : t) : Spec.train_rank v < planner_fuel.
Proof.
  unfold Spec.train_rank, planner_fuel. simpl List.length.
  repeat match goal with |- context [if ?b then _ else _] => destruct b end;
    lia.
Qed.

Ltac train w H ma mi :=
  change (major_minor (mk ma mi 0 "") = major_minor w) in H;
  apply major_minor_inj in H as [? ?];
  destruct w as [wma wmi wpa wor]; simpl in *; subst wma wmi.

(** Every entry of the map leads to a later train, nearer to the end
    of the map. *)
Lemma lookup_advances (w : t) (next_base : string) :
  dict_get (major_minor w) UPGRADE_PATHS = Some next_base ->
  exists next_version,
    parse next_base = Ret next_version
    /\ lt w next_version = true
    /\ Spec.train_rank next_version < Spec.train_rank w.
Proof.
  intros H. apply dict_get_in in H. unfold UPGRADE_PATHS in H.
  simpl In in H.
  destruct H as [H|[H|[H|[H|[H|[H|[H|[H|[]]]]]]]]];
    injection H as Hk <-.
  - train w Hk 9%N 0%N. eexists. split; [reflexivity|]. split; [reflexivity|].
    unfold Spec.train_rank; simpl; lia.
  - train w Hk 9%N 1%N. eexists. split; [reflexivity|]. split; [reflexivity|].
    unfold Spec.train_rank; simpl; lia.
  - train w Hk 10%N 0%N. eexists. split; [reflexivity|]. split; [reflexivity|].
    unfold Spec.train_rank; simpl; lia.
  - train w Hk 10%N 1%N. eexists. split; [reflexivity|]. split; [reflexivity|].
    unfold Spec.train_rank; simpl; lia.
  - train w Hk 10%N 2%N. eexists. split; [reflexivity|]. split; [reflexivity|].
    unfold Spec.train_rank; simpl; lia.
  - train w Hk 11%N 0%N. eexists. split; [reflexivity|]. split; [reflexivity|].
    unfold Spec.train_rank; simpl; lia.
  - train w Hk 11%N 1%N. eexists. split; [reflexivity|]. split; [reflexivity|].
    unfold Spec.train_rank; simpl; lia.
  - train w Hk 11%N 2%N. eexists. split; [reflexivity|]. split; [reflexivity|].
    unfold Spec.train_rank; simpl; lia.
Qed.

Lemma upgrade_loop_step (fuel : nat) (w target : t) (path : list string) :
  upgrade_loop (S fuel) w target path
  = if lt w target then
      match dict_get (major_minor w) UPGRADE_PATHS with
      | Some next_base =>
          rbind (parse next_base) (fun next_version =>
            if String.eqb (major_minor next_version) (major_minor target)
            then Ret (path ++ [str target])%list
            else if le next_version target
            then upgrade_loop fuel next_version target (path ++ [next_base])%list
            else Ret (path ++ [str target])%list)
      | None => Ret (path ++ [str target])%list
      end
    else Ret path.
Proof. reflexivity. Qed.

Lemma target_exceeds (w target : t) :
  lt w target = true -> Spec.increasing_from w [str target].
Proof.
  intros H. simpl. eexists. split; [apply parse_str|]. split; [|exact I].
  unfold lt. now rewrite compare_triple.
Qed.

(** The loop returns with any fuel above the rank of the working
    version; what it appends is empty only when the loop is not entered,
    and increases strictly from the working version on. *)
Lemma upgrade_loop_spec (target : t) :
  forall n w, Spec.train_rank w < n ->
  exists rest,
    (forall fuel path, Spec.train_rank w < fuel ->
       upgrade_loop fuel w target path = Ret (path ++ rest)%list)
    /\ (rest = [] <-> lt w target = false)
    /\ Spec.increasing_from w rest.
Proof.
  induction n as [|n IH]; intros w Hn; [lia|].
  destruct (lt w target) eqn:Hlt.
  2:{ exists []. split; [|split; [tauto | exact I]].
      intros [|fuel] path Hf; [lia|].
      now rewrite upgrade_loop_step, Hlt, List.app_nil_r. }
  assert (Hdirect :
    (forall fuel path,
        upgrade_loop (S fuel) w target path = Ret (path ++ [str target])%list) ->
    exists rest,
      (forall fuel path, Spec.train_rank w < fuel ->
         upgrade_loop fuel w target path = Ret (path ++ rest)%list)
      /\ (rest = [] <-> true = false)
      /\ Spec.increasing_from w rest).
  { intros Hrun. exists [str target]. split; [|split].
    - intros [|fuel] path Hf; [lia|]. apply Hrun.
    - split; discriminate.
    - now apply target_exceeds. }
  destruct (dict_get (major_minor w) UPGRADE_PATHS) as [next_base|] eqn:Hd.
  2:{ apply Hdirect. intros fuel path.
      now rewrite upgrade_loop_step, Hlt, Hd. }
  destruct (lookup_advances _ _ Hd) as (nv & Hp & Hadv & Hrank).
  destruct (String.eqb (major_minor nv) (major_minor target)) eqn:He.
  { apply Hdirect. intros fuel path.
    rewrite upgrade_loop_step, Hlt, Hd, Hp. simpl rbind. now rewrite He. }
  destruct (le nv target) eqn:Hle.
  2:{ apply Hdirect. intros fuel path.
      rewrite upgrade_loop_step, Hlt, Hd, Hp. simpl rbind.
      now rewrite He, Hle. }
  destruct (IH nv ltac:(lia)) as (rest & Hrun & _ & Hinc).
  exists (next_base :: rest). split; [|split].
  - intros [|fuel] path Hf; [lia|].
    rewrite upgrade_loop_step, Hlt, Hd, Hp. simpl rbind.
    rewrite He, Hle, Hrun by lia. now rewrite <- List.app_assoc.
  - split; discriminate.
  - simpl. exists nv. auto.
Qed.

Lemma get_upgrade_path_spec (current_version target_version : string)
    (current target : t) :
  parse current_version = Ret current ->
  parse target_version = Ret target ->
  exists path,
    (forall fuel, planner_fuel <= fuel ->
       get_upgrade_path fuel current_version target_version = Ret path)
    /\ (path = [] <-> ge current target = true)
    /\ Spec.increasing_from current path.
Proof.
  intros Hc Ht. unfold get_upgrade_path. rewrite Hc, Ht. simpl rbind.
  rewrite ge_lt.
  destruct (upgrade_loop_spec target _ current (train_rank_bound current))
    as (rest & Hrun & Hnil & Hinc).
  destruct (lt current target) eqn:Hlt; simpl negb; cbv iota.
  - exists rest. split; [|split; [|exact Hinc]].
    + intros fuel Hf. apply (Hrun fuel []).
      pose proof (train_rank_bound current). lia.
    + rewrite Hnil. split; discriminate.
  - exists []. split; [|split; [|exact I]]; [reflexivity | tauto].
Qed.

Lemma get_upgrade_path_total (fuel : nat) (current_version target_version : string) :
  planner_fuel <= fuel ->
  get_upgrade_path fuel current_version target_version <> OutOfFuel.
Proof.
  intros Hf.
  destruct (parse current_version) as [current|e|] eqn:Hc.
  - destruct (parse target_version) as [target|e|] eqn:Ht.
    + destruct (get_upgrade_path_spec _ _ _ _ Hc Ht) as (path & Hrun & _).
      now rewrite (Hrun fuel Hf).
    + unfold get_upgrade_path. now rewrite Hc, Ht.
    + now apply parse_not_out_of_fuel in Ht.
  - unfold get_upgrade_path. now rewrite Hc.
  - now apply parse_not_out_of_fuel in Hc.
Qed.

End PlannerFacts.

(** C1, as the specification states it, fails: the planner does not put
    the forced base 12.1.2 before the target 12.1.4. *)
Lemma forced_base_12_1_2_is_skipped :
  get_upgrade_path planner_fuel "11.2.4" "12.1.4" <> Ret ["12.1.2"; "12.1.4"].
Proof. vm_compute. discriminate. Qed.

(** C1, amended.  From 11.2.4 to 12.1.4 the planner returns the single
    hop ["12.1.4"]: the base that the map forces after the 11.2 train,
    12.1.2, lies in the train of the target, and the planner then goes
    straight to the target. *)
Theorem path_11_2_4_to_12_1_4 :
  forall fuel,
    get_upgrade_path (S fuel) "11.2.4" "12.1.4" = Ret ["12.1.4"]
    /\ dict_get "11.2" UPGRADE_PATHS = Some "12.1.2".
Proof. intros fuel. split; reflexivity. Qed.

(** C4. For parsable current and target versions the planner returns a
    list that increases strictly under the order of versions, its first
    element exceeding the current version. *)
Theorem path_strictly_increasing
    (current_version target_version : string) (current target : Version.t) :
  Version.parse current_version = Ret current ->
  Version.parse target_version = Ret target ->
  exists path,
    (forall fuel, planner_fuel <= fuel ->
       get_upgrade_path fuel current_version target_version = Ret path)
    /\ Spec.increasing_from current path.
Proof.
  intros Hc Ht.
  destruct (PlannerFacts.get_upgrade_path_spec _ _ _ _ Hc Ht)
    as (path & Hrun & _ & Hinc).
  now exists path.
Qed.

Lemma path_strictly_increasing_witness :
  exists path,
    (forall fuel, planner_fuel <= fuel ->
       get_upgrade_path fuel "9.1.0" "11.2.4" = Ret path)
    /\ Spec.increasing_from (Version.mk 9 1 0 "9.1.0") path.
Proof.
  exact (path_strictly_increasing "9.1.0" "11.2.4"
           (Version.mk 9 1 0 "9.1.0") (Version.mk 11 2 4 "11.2.4")
           eq_refl eq_refl).
Defined.

(** C5. For parsable current and target versions the planner returns the
    empty list exactly when current >= target on (major, minor, patch). *)
Theorem path_empty_iff
    (current_version target_version : string) (current target : Version.t) :
  Version.parse current_version = Ret current ->
  Version.parse target_version = Ret target ->
  exists path,
    (forall fuel, planner_fuel <= fuel ->
       get_upgrade_path fuel current_version target_version = Ret path)
    /\ (path = [] <-> Version.ge current target = true).
Proof.
  intros Hc Ht.
  destruct (PlannerFacts.get_upgrade_path_spec _ _ _ _ Hc Ht)
    as (path & Hrun & Hnil & _).
  now exists path.
Qed.

Lemma path_empty_iff_witness :
  exists path,
    (forall fuel, planner_fuel <= fuel ->
       get_upgrade_path fuel "11.2.5" "11.2.4" = Ret path)
    /\ (path = [] <->
        Version.ge (Version.mk 11 2 5 "11.2.5") (Version.mk 11 2 4 "11.2.4")
        = true).
Proof.
  exact (path_empty_iff "11.2.5" "11.2.4"
           (Version.mk 11 2 5 "11.2.5") (Version.mk 11 2 4 "11.2.4")
           eq_refl eq_refl).
Defined.

(** ** Facts on computations *)

Module RunFacts.

Lemma total_ret {A} (a : A) : total (ret a).
Proof. intros w. discriminate. Qed.

Lemma total_raise {A} (e : exn) : total (@raise A e).
Proof. intros w. discriminate. Qed.

Lemma total_bind {A B} (m : M A) (k : A -> M B) :
  total m -> (forall a, total (k a)) -> total (bind m k).
Proof.
  intros Hm Hk w. unfold bind. specialize (Hm w).
  destruct (m w) as [[a|e|] w1]; simpl in *;
    [apply Hk | discriminate | now contradiction Hm].
Qed.

Lemma total_try_except {A} (m : M A) (h : exn -> M A) :
  total m -> (forall e, total (h e)) -> total (try_except m h).
Proof.
  intros Hm Hh w. unfold try_except. specialize (Hm w).
  destruct (m w) as [[a|e|] w1]; simpl in *;
    [discriminate | apply Hh | now contradiction Hm].
Qed.

Lemma total_try_finally {A} (m : M A) (f : M unit) :
  total m -> total f -> total (try_finally m f).
Proof.
  intros Hm Hf w. unfold try_finally. specialize (Hm w).
  destruct (m w) as [[a|e|] w1]; simpl in *; try contradiction;
    specialize (Hf w1); destruct (f w1) as [[[]|e'|] w2]; simpl in *;
    try discriminate; contradiction.
Qed.

Lemma total_lift {A} (r : result A) : r <> OutOfFuel -> total (lift r).
Proof. intros H w. exact H. Qed.

Lemma total_emit (e : event) : total (emit e).
Proof. intros w. discriminate. Qed.

Lemma total_emit_all (l : list event) : total (emit_all l).
Proof.
  induction l as [|e l IH]; simpl.
  - apply total_ret.
  - apply total_bind; [apply total_emit | intros _; exact IH].
Qed.

Lemma total_time_time : total time_time.
Proof. intros w. discriminate. Qed.

Lemma total_time_sleep (d : Z) : total (time_sleep d).
Proof. intros w. unfold time_sleep. destruct (d <? 0)%Z; discriminate. Qed.

Lemma total_next_reply : total next_reply.
Proof. intros w. discriminate. Qed.

Lemma total_next_probe : total next_probe.
Proof. intros w. discriminate. Qed.

Lemma total_is_cancelled : total is_cancelled.
Proof. intros w. discriminate. Qed.

Lemma total_gui_call : total gui_call.
Proof. intros w. unfold gui_call. now destruct (gui_faults w) as [|[e|] l]. Qed.

Lemma total_session_opened : total session_opened.
Proof. intros w. discriminate. Qed.

Lemma total_session_closed : total session_closed.
Proof. intros w. discriminate. Qed.

Lemma total_get_client : total get_client.
Proof. intros w. discriminate. Qed.

Lemma total_set_client (c : option PANOSSSHClient) : total (set_client c).
Proof. intros w. discriminate. Qed.

Lemma total_call_progress (cb : callback) (msg : string) :
  total (call_progress cb msg).
Proof. destruct cb; simpl; [apply total_emit_all | apply total_ret]. Qed.

Lemma total_for_each {A} (l : list A) (body : A -> M unit) :
  (forall x, total (body x)) -> total (for_each l body).
Proof.
  intros H. induction l as [|x l IH]; simpl.
  - apply total_ret.
  - apply total_bind; [apply H | intros _; exact IH].
Qed.

(** *** The clock *)

Lemma mono_ret {A} (a : A) : clock_mono (ret a).
Proof. intros w. simpl. lia. Qed.

Lemma mono_raise {A} (e : exn) : clock_mono (@raise A e).
Proof. intros w. simpl. lia. Qed.

Lemma mono_bind {A B} (m : M A) (k : A -> M B) :
  clock_mono m -> (forall a, clock_mono (k a)) -> clock_mono (bind m k).
Proof.
  intros Hm Hk w. unfold bind. specialize (Hm w).
  destruct (m w) as [[a|e|] w1]; simpl in *; try exact Hm.
  specialize (Hk a w1). lia.
Qed.

Lemma mono_try_except {A} (m : M A) (h : exn -> M A) :
  clock_mono m -> (forall e, clock_mono (h e)) -> clock_mono (try_except m h).
Proof.
  intros Hm Hh w. unfold try_except. specialize (Hm w).
  destruct (m w) as [[a|e|] w1]; simpl in *; try exact Hm.
  specialize (Hh e w1). lia.
Qed.

Lemma mono_emit (e : event) : clock_mono (emit e).
Proof. intros w. simpl. lia. Qed.

Lemma mono_emit_all (l : list event) : clock_mono (emit_all l).
Proof.
  induction l as [|e l IH]; simpl.
  - apply mono_ret.
  - apply mono_bind; [apply mono_emit | intros _; exact IH].
Qed.

Lemma mono_time_time : clock_mono time_time.
Proof. intros w. simpl. lia. Qed.

Lemma mono_time_sleep (d : Z) : clock_mono (time_sleep d).
Proof.
  intros w. unfold time_sleep. destruct (d <? 0)%Z eqn:E; simpl; [lia|].
  apply Z.ltb_ge in E. lia.
Qed.

Lemma mono_next_reply : clock_mono next_reply.
Proof. intros w. simpl. lia. Qed.

Lemma mono_next_probe : clock_mono next_probe.
Proof. intros w. simpl. lia. Qed.

Lemma mono_session_opened : clock_mono session_opened.
Proof. intros w. simpl. lia. Qed.

Lemma mono_session_closed : clock_mono session_closed.
Proof. intros w. simpl. lia. Qed.

Lemma mono_gui_call : clock_mono gui_call.
Proof.
  intros w. unfold gui_call. destruct (gui_faults w) as [|[e|] l]; simpl; lia.
Qed.

Lemma mono_get_client : clock_mono get_client.
Proof. intros w. simpl. lia. Qed.

Lemma mono_set_client (c : option PANOSSSHClient) : clock_mono (set_client c).
Proof. intros w. simpl. lia. Qed.

Lemma mono_call_progress (cb : callback) (msg : string) :
  clock_mono (call_progress cb msg).
Proof. destruct cb; simpl; [apply mono_emit_all | apply mono_ret]. Qed.

Lemma mono_lift {A} (r : result A) : clock_mono (lift r).
Proof. intros w. simpl. lia. Qed.

(** *** Elapsed time on return *)

Lemma after_bind {A B} (d1 d2 : Z) (m : M A) (k : A -> M B) :
  returns_after d1 m -> (forall a, returns_after d2 (k a)) ->
  returns_after (d1 + d2) (bind m k).
Proof.
  intros Hm Hk w b w'. unfold bind.
  destruct (m w) as [[a|e|] w1] eqn:E; try discriminate.
  intros H. specialize (Hm _ _ _ E). specialize (Hk _ _ _ _ H). lia.
Qed.

Lemma after_mono {A} (m : M A) : clock_mono m -> returns_after 0 m.
Proof. intros H w a w' E. specialize (H w). rewrite E in H. simpl in H. lia. Qed.

Lemma after_sleep (d : Z) : returns_after d (time_sleep d).
Proof.
  intros w a w'. unfold time_sleep. destruct (d <? 0)%Z; [discriminate|].
  intros [= _ <-]. simpl. lia.
Qed.

Lemma after_sleep_then {B} (d : Z) (k : M B) :
  clock_mono k -> returns_after d (bind (time_sleep d) (fun _ => k)).
Proof.
  intros Hk. replace d with (d + 0)%Z at 1 by lia.
  apply after_bind; [apply after_sleep | intros _; now apply after_mono].
Qed.

(** *** Loops bounded by the clock

    A loop whose every continuing turn takes at least [d > 0] seconds
    returns or raises within [timeout / d] turns and one more test. *)
Lemma while_elapsed_total {St A} (d : Z) (start_time timeout : Z)
    (body : St -> M (flow St A)) (after : M A) :
  (0 < d)%Z ->
  (forall s, total (body s)) ->
  total after ->
  (forall s w s' w', body s w = (Ret (Continue s'), w') ->
                     (now w + d <= now w')%Z) ->
  forall f s w,
    (timeout - (now w - start_time) <= d * Z.of_nat f)%Z ->
    fst (while_elapsed (S f) start_time timeout body after s w) <> OutOfFuel.
Proof.
  intros Hd Hbody Hafter Hstep.
  induction f as [|f IH]; intros s w Hf.
  - simpl. unfold bind, time_time.
    destruct (now w - start_time <? timeout)%Z eqn:E; [|apply Hafter].
    apply Z.ltb_lt in E. lia.
  - change (fst (bind time_time (fun t =>
              if (t - start_time <? timeout)%Z
              then bind (body s) (fun r =>
                     match r with
                     | Continue s' =>
                         while_elapsed (S f) start_time timeout body after s'
                     | Return a => ret a
                     end)
              else after) w) <> OutOfFuel).
    unfold bind at 1, time_time.
    destruct (now w - start_time <? timeout)%Z eqn:E; [|apply Hafter].
    unfold bind. pose proof (Hbody s w) as Hb.
    destruct (body s w) as [[[s'|a]|e|] w1] eqn:Eb; simpl in Hb;
      try discriminate; try contradiction.
    apply IH. specialize (Hstep _ _ _ _ Eb). lia.
Qed.

Lemma while_elapsed_step {St A} (fuel : nat) (start_time timeout : Z)
    (body : St -> M (flow St A)) (after : M A) (s : St) (w : World) :
  while_elapsed (S fuel) start_time timeout body after s w
  = if (now w - start_time <? timeout)%Z then
      match body s w with
      | (Ret (Continue s'), w1) =>
          while_elapsed fuel start_time timeout body after s' w1
      | (Ret (Return a), w1) => (Ret a, w1)
      | (Raise e, w1) => (Raise e, w1)
      | (OutOfFuel, w1) => (OutOfFuel, w1)
      end
    else after w.
Proof.
  simpl. unfold bind, time_time.
  destruct (now w - start_time <? timeout)%Z; [|reflexivity].
  now destruct (body s w) as [[[s'|a]|e|] w1].
Qed.

Lemma while_elapsed_mono {St A} (start_time timeout : Z)
    (body : St -> M (flow St A)) (after : M A) :
  (forall s, clock_mono (body s)) -> clock_mono after ->
  forall fuel s, clock_mono (while_elapsed fuel start_time timeout body after s).
Proof.
  intros Hbody Hafter. induction fuel as [|fuel IH]; intros s.
  - intros w. simpl. lia.
  - simpl. apply mono_bind; [apply mono_time_time|]. intros t.
    destruct (t - start_time <? timeout)%Z; [|exact Hafter].
    apply mono_bind; [apply Hbody|]. intros [s'|a]; [apply IH | apply mono_ret].
Qed.

End RunFacts.

(** ** The session client and the waiter never run out of fuel *)

Create HintDb run discriminated.

#[local] Hint Resolve
  RunFacts.total_ret RunFacts.total_raise RunFacts.total_emit
  RunFacts.total_emit_all RunFacts.total_time_time RunFacts.total_time_sleep
  RunFacts.total_next_reply RunFacts.total_next_probe
  RunFacts.total_is_cancelled RunFacts.total_gui_call
  RunFacts.mono_gui_call RunFacts.total_session_opened
  RunFacts.total_session_closed RunFacts.total_get_client
  RunFacts.total_set_client RunFacts.total_call_progress
  RunFacts.mono_ret RunFacts.mono_raise RunFacts.mono_emit
  RunFacts.mono_emit_all RunFacts.mono_time_time RunFacts.mono_time_sleep
  RunFacts.mono_next_reply RunFacts.mono_next_probe
  RunFacts.mono_session_opened RunFacts.mono_session_closed
  RunFacts.mono_get_client RunFacts.mono_set_client
  RunFacts.mono_call_progress RunFacts.mono_lift : run.

Ltac judge_step :=
  first
    [ assumption
    | progress cbv zeta
    | solve [auto with run]
    | apply RunFacts.total_bind; [|intro]
    | apply RunFacts.total_try_except; [|intro]
    | apply RunFacts.mono_bind; [|intro]
    | apply RunFacts.mono_try_except; [|intro]
    | match goal with
      | |- total (if ?b then _ else _) => destruct b
      | |- clock_mono (if ?b then _ else _) => destruct b
      | |- total (match ?x with _ => _ end) => destruct x
      | |- clock_mono (match ?x with _ => _ end) => destruct x
      end ].

Ltac judge := repeat judge_step.

Module SessionFacts.

Lemma total_connect c : total (SSH.connect c).
Proof. unfold SSH.connect. judge. Qed.

Lemma mono_connect c : clock_mono (SSH.connect c).
Proof. unfold SSH.connect. judge. Qed.

Lemma total_disconnect c : total (SSH.disconnect c).
Proof. unfold SSH.disconnect. judge. Qed.

Lemma mono_disconnect c : clock_mono (SSH.disconnect c).
Proof. unfold SSH.disconnect. judge. Qed.

Lemma total_send_command c cmd : total (SSH.send_command c cmd).
Proof. unfold SSH.send_command. judge. Qed.

Lemma mono_send_command c cmd : clock_mono (SSH.send_command c cmd).
Proof. unfold SSH.send_command. judge. Qed.

Lemma total_send_command_timing c cmd : total (SSH.send_command_timing c cmd).
Proof. unfold SSH.send_command_timing. judge. Qed.

Lemma mono_send_command_timing c cmd :
  clock_mono (SSH.send_command_timing c cmd).
Proof. unfold SSH.send_command_timing. judge. Qed.

#[export] Hint Resolve total_connect mono_connect total_disconnect
  mono_disconnect total_send_command mono_send_command
  total_send_command_timing mono_send_command_timing : run.

Lemma total_get_panos_version c : total (SSH.get_panos_version c).
Proof. unfold SSH.get_panos_version, SSH.get_system_info. judge. Qed.

Lemma mono_get_panos_version c : clock_mono (SSH.get_panos_version c).
Proof. unfold SSH.get_panos_version, SSH.get_system_info. judge. Qed.

Lemma total_connect_ex h prt : total (connect_ex h prt).
Proof. unfold connect_ex. judge. Qed.

Lemma mono_connect_ex h prt : clock_mono (connect_ex h prt).
Proof. unfold connect_ex. judge. Qed.

#[export] Hint Resolve total_get_panos_version mono_get_panos_version
  total_connect_ex mono_connect_ex : run.

Lemma total_port_check h prt poll : total (port_check h prt poll).
Proof. unfold port_check. judge. Qed.

Lemma mono_port_check h prt poll : clock_mono (port_check h prt poll).
Proof. unfold port_check. judge. Qed.

Lemma total_ssh_check h prt u p : total (ssh_check h prt u p).
Proof. unfold ssh_check. judge. Qed.

Lemma mono_ssh_check h prt u p : clock_mono (ssh_check h prt u p).
Proof. unfold ssh_check. judge. Qed.

#[export] Hint Resolve total_port_check mono_port_check
  total_ssh_check mono_ssh_check : run.

Lemma total_turn h prt u p poll cb start attempt :
  total (wait_for_ssh_turn h prt u p poll cb start attempt).
Proof. unfold wait_for_ssh_turn. judge. Qed.

Lemma mono_turn h prt u p poll cb start attempt :
  clock_mono (wait_for_ssh_turn h prt u p poll cb start attempt).
Proof. unfold wait_for_ssh_turn. judge. Qed.

Lemma bind_ret_inv {A B} (m : M A) (k : A -> M B) w b w' :
  bind m k w = (Ret b, w') ->
  exists a w1, m w = (Ret a, w1) /\ k a w1 = (Ret b, w').
Proof.
  unfold bind. destruct (m w) as [[a|e|] w1]; try discriminate.
  intros H. now exists a, w1.
Qed.

Lemma mono_at {A} (m : M A) w r w' :
  clock_mono m -> m w = (r, w') -> (now w <= now w')%Z.
Proof. intros H E. specialize (H w). now rewrite E in H. Qed.

(** An attempt that finds the port closed, or cannot probe it, has
    paused for the poll interval. *)
Lemma port_check_closed h prt poll w w' :
  port_check h prt poll w = (Ret false, w') -> (now w + poll <= now w')%Z.
Proof.
  unfold port_check, try_except.
  destruct (bind (connect_ex h prt) _ w) as [[b|e|] w1] eqn:E.
  - intros [= -> ->]. apply bind_ret_inv in E as (code & w2 & E1 & E2).
    pose proof (mono_at _ _ _ _ (mono_connect_ex h prt) E1).
    destruct (negb (code =? 0)%Z); [|discriminate].
    apply bind_ret_inv in E2 as ([] & w3 & E2 & [= <-]).
    apply RunFacts.after_sleep in E2. lia.
  - intros H. apply bind_ret_inv in H as ([] & w3 & E2 & [= <-]).
    apply RunFacts.after_sleep in E2.
    assert (clock_mono (bind (connect_ex h prt) (fun result =>
              if negb (result =? 0)%Z
              then bind (time_sleep poll) (fun _ => ret false)
              else ret true))) as Hm by judge.
    pose proof (mono_at _ _ _ _ Hm E). lia.
  - discriminate.
Qed.

(** A turn that goes on to the next one has paused for the poll
    interval. *)
Lemma turn_continue h prt u p poll cb start attempt w s' w' :
  wait_for_ssh_turn h prt u p poll cb start attempt w = (Ret (Continue s'), w') ->
  (now w + poll <= now w')%Z.
Proof.
  unfold wait_for_ssh_turn. intros H.
  apply bind_ret_inv in H as (t & w1 & E1 & H). injection E1 as <- <-.
  apply bind_ret_inv in H as ([] & w2 & E2 & H).
  pose proof (mono_at _ _ _ _ (RunFacts.mono_call_progress _ _) E2).
  apply bind_ret_inv in H as (open & w3 & E3 & H).
  destruct open.
  - pose proof (mono_at _ _ _ _ (mono_port_check _ _ _) E3).
    apply bind_ret_inv in H as (ok & w4 & E4 & H).
    pose proof (mono_at _ _ _ _ (mono_ssh_check _ _ _ _) E4).
    destruct ok; [discriminate|].
    apply bind_ret_inv in H as ([] & w5 & E5 & [= _ <-]).
    apply RunFacts.after_sleep in E5. lia.
  - apply port_check_closed in E3. injection H as _ <-. lia.
Qed.

Lemma total_wait_for_ssh (f : nat) h prt u p (timeout poll : Z) cb :
  (0 < poll)%Z -> (timeout <= poll * Z.of_nat f)%Z ->
  total (wait_for_ssh (S f) h prt u p timeout poll cb).
Proof.
  intros Hp Hf w. unfold wait_for_ssh, bind at 1, time_time.
  apply (RunFacts.while_elapsed_total poll); try assumption.
  - intros s. apply total_turn.
  - judge.
  - intros s w0 s' w' E. now apply turn_continue in E.
  - lia.
Qed.

Lemma mono_wait_for_ssh fuel h prt u p (timeout poll : Z) cb :
  clock_mono (wait_for_ssh fuel h prt u p timeout poll cb).
Proof.
  unfold wait_for_ssh. apply RunFacts.mono_bind; [auto with run|]. intros t.
  apply RunFacts.while_elapsed_mono; [intros s; apply mono_turn | judge].
Qed.

End SessionFacts.

(** ** The reachability waiter *)

Module WaiterFacts.
Import Reachability SessionFacts.

Lemma emit_all_run (l : list event) (w : World) :
  emit_all l w = (Ret tt, add_trace (rev l) w).
Proof.
  revert w. induction l as [|e l IH]; intros w.
  - destruct w; reflexivity.
  - simpl emit_all. unfold bind. simpl. rewrite IH. unfold add_trace. simpl.
    now rewrite <- List.app_assoc.
Qed.

Lemma call_progress_run (cb : callback) (msg : string) (w : World) :
  call_progress cb msg w = (Ret tt, add_trace (shown cb msg) w).
Proof.
  destruct cb as [f|]; simpl.
  - apply emit_all_run.
  - destruct w; reflexivity.
Qed.

(** The first layer: the port check answers [tcp_ready] and never
    raises; it leaves the session script untouched. *)
Lemma port_check_run h prt poll w :
  (0 <= poll)%Z ->
  exists w', port_check h prt poll w = (Ret (tcp_ready w), w')
             /\ replies w' = replies w.
Proof.
  intros Hp. apply Z.ltb_ge in Hp.
  unfold port_check, try_except, connect_ex, bind, emit, next_probe, tcp_ready,
    time_sleep.
  destruct w as [gf t rs ps cs n c tr]; simpl.
  destruct ps as [|[d [code|]] ps]; simpl; rewrite ?Hp; simpl;
    try (eexists; split; reflexivity).
  destruct (code =? 0)%Z; simpl; rewrite ?Hp; simpl;
    eexists; split; reflexivity.
Qed.

(** The second layer: the session check answers [session_ready] and
    never raises. *)
Lemma ssh_check_run h prt u p w :
  exists w', ssh_check h prt u p w = (Ret (session_ready w), w').
Proof.
  unfold ssh_check, try_except, SSH.connect, SSH.send_command_timing,
    SSH.disconnect, bind, emit, next_reply, session_ready, session_opened,
    session_closed, raise, ret.
  destruct w as [gf t rs ps cs n c tr]; simpl.
  destruct rs as [|[d1 [o1|m1]] [|[d2 [o2|m2]] rs]]; simpl;
    try (eexists; reflexivity).
  destruct rs as [|[d3 [o3|m3]] rs]; simpl; eexists; reflexivity.
Qed.

(** A turn returns [true] when the attempt succeeds at both layers and
    goes on to the next attempt otherwise: no failure at either layer is
    raised, and a turn never answers [false]. *)
Lemma turn_spec h prt u p poll cb start attempt w :
  (0 <= poll)%Z ->
  exists w',
    wait_for_ssh_turn h prt u p poll cb start attempt w
    = (Ret (if attempt_ok w then Return true
            else Continue (attempt + 1)%Z), w').
Proof.
  intros Hp. unfold wait_for_ssh_turn, attempt_ok.
  unfold bind at 1, time_time. unfold bind at 1.
  rewrite call_progress_run.
  set (w0 := add_trace _ w).
  assert (tcp_ready w0 = tcp_ready w) as Ht by reflexivity.
  assert (session_ready w0 = session_ready w) as Hs by reflexivity.
  rewrite <- Ht, <- Hs. clearbody w0.
  destruct (port_check_run h prt poll w0 Hp) as (w1 & E1 & R1).
  unfold bind at 1. rewrite E1.
  destruct (tcp_ready w0); simpl andb; cbv iota.
  - assert (session_ready w1 = session_ready w0) as Hs1
        by (unfold session_ready; now rewrite R1).
    rewrite <- Hs1.
    destruct (ssh_check_run h prt u p w1) as (w2 & E2).
    unfold bind at 1. rewrite E2.
    destruct (session_ready w1).
    + eexists. reflexivity.
    + unfold bind, time_sleep. apply Z.ltb_ge in Hp. rewrite Hp.
      eexists. reflexivity.
  - eexists. reflexivity.
Qed.

(** More fuel does not change a result reached without exhausting it. *)
Lemma while_elapsed_more {St A} (start_time timeout : Z)
    (body : St -> M (flow St A)) (after : M A) :
  forall fuel s w r w',
    while_elapsed fuel start_time timeout body after s w = (r, w') ->
    r <> OutOfFuel ->
    forall fuel', fuel <= fuel' ->
      while_elapsed fuel' start_time timeout body after s w = (r, w').
Proof.
  induction fuel as [|fuel IH]; intros s w r w' H Hr fuel' Hle.
  - injection H as <- _. contradiction.
  - destruct fuel' as [|fuel']; [lia|].
    simpl in *. unfold bind, time_time in *.
    destruct (now w - start_time <? timeout)%Z; [|exact H].
    destruct (body s w) as [[[s'|a]|e|] w1]; try exact H.
    apply (IH _ _ _ _ H Hr). lia.
Qed.

Lemma waits_of_run h prt u p timeout poll cb start :
  (0 <= poll)%Z ->
  forall fuel n w b w',
    while_elapsed fuel start timeout
      (wait_for_ssh_turn h prt u p poll cb start)
      (bind (emit (LogError ("Timeout waiting for SSH on " ++ h)))
            (fun _ => ret false)) n w = (Ret b, w') ->
    waits start timeout (wait_for_ssh_turn h prt u p poll cb start)
      (add_trace [LogError ("Timeout waiting for SSH on " ++ h)]) n w b w'.
Proof.
  intros Hp. induction fuel as [|fuel IH]; intros n w b w' H; [discriminate|].
  simpl in H. unfold bind at 1, time_time in H.
  destruct (now w - start <? timeout)%Z eqn:E.
  - apply Z.ltb_lt in E. unfold bind at 1 in H.
    destruct (turn_spec h prt u p poll cb start n w Hp) as (w1 & Et).
    rewrite Et in H. destruct (attempt_ok w) eqn:Ok.
    + injection H as <- <-. now apply waits_ready.
    + apply (waits_retry _ _ _ _ _ _ w1); auto.
  - apply Z.ltb_ge in E. injection H as <- <-.
    now apply waits_timeout.
Qed.

Lemma waits_false start timeout turn on_timeout n w w' :
  (forall x, now (on_timeout x) = now x) ->
  waits start timeout turn on_timeout n w false w' ->
  (timeout <= now w' - start)%Z.
Proof.
  intros Hg H. remember false as b eqn:Hb. induction H; try discriminate.
  - rewrite Hg. lia.
  - auto.
Qed.

Lemma waits_true start timeout turn on_timeout n w w' :
  waits start timeout turn on_timeout n w true w' ->
  exists m wl,
    (now wl - start < timeout)%Z
    /\ attempt_ok wl = true
    /\ turn m wl = (Ret (Return true), w').
Proof.
  intros H. remember true as b eqn:Hb. induction H; try discriminate.
  - now exists n, w.
  - auto.
Qed.

End WaiterFacts.

Module WaiterResults.
Import Reachability SessionFacts WaiterFacts.

(** The loop of the waiter never raises: unless it runs out of fuel it
    answers a boolean. *)
Lemma loop_answers h prt u p timeout poll cb start :
  (0 <= poll)%Z ->
  forall fuel n w,
    fst (while_elapsed fuel start timeout
           (wait_for_ssh_turn h prt u p poll cb start)
           (bind (emit (LogError ("Timeout waiting for SSH on " ++ h)))
                 (fun _ => ret false)) n w) <> OutOfFuel ->
    exists b w',
      while_elapsed fuel start timeout
        (wait_for_ssh_turn h prt u p poll cb start)
        (bind (emit (LogError ("Timeout waiting for SSH on " ++ h)))
              (fun _ => ret false)) n w = (Ret b, w').
Proof.
  intros Hp. induction fuel as [|fuel IH]; intros n w H.
  - now contradiction H.
  - rewrite RunFacts.while_elapsed_step in *.
    destruct (now w - start <? timeout)%Z.
    + destruct (turn_spec h prt u p poll cb start n w Hp) as (w1 & Et).
      rewrite Et in *. destruct (attempt_ok w).
      * now exists true, w1.
      * now apply IH.
    + eexists _, _. reflexivity.
Qed.

Lemma enough_turns (timeout poll : Z) :
  (0 < poll)%Z ->
  (timeout <= poll * Z.of_nat (Z.to_nat (timeout / poll + 1)))%Z.
Proof.
  intros Hp. pose proof (Z.mul_succ_div_gt timeout poll Hp) as H.
  destruct (Z.le_gt_cases 0 (timeout / poll + 1)) as [Hq|Hq].
  - rewrite Z2Nat.id by exact Hq. unfold Z.succ in H. lia.
  - replace (Z.to_nat (timeout / poll + 1)) with 0%nat by lia.
    unfold Z.succ in H. nia.
Qed.

End WaiterResults.

(** C7. The reachability waiter, run with a positive poll interval,
    terminates and answers a boolean, whatever the device does: a turn
    of its loop returns [true] when the TCP probe and then the session
    with its liveness command succeed, and goes on to the next attempt in
    every other case, raising nothing.  The waiter therefore answers
    [true] at the first attempt that succeeds at both layers and [false]
    only once the timeout has elapsed with every attempt failed. *)
Theorem wait_for_ssh_spec (h : string) (prt : Z) (u p : string)
    (timeout poll_interval : Z) (cb : callback) (w : World) :
  (0 < poll_interval)%Z ->
  (forall start attempt w0, exists w1,
      wait_for_ssh_turn h prt u p poll_interval cb start attempt w0
      = (Ret (if Reachability.attempt_ok w0 then Return true
              else Continue (attempt + 1)%Z), w1))
  /\ exists b w',
       (exists n, forall fuel, n <= fuel ->
          wait_for_ssh fuel h prt u p timeout poll_interval cb w = (Ret b, w'))
       /\ Reachability.waits (now w) timeout
            (wait_for_ssh_turn h prt u p poll_interval cb (now w))
            (add_trace [LogError ("Timeout waiting for SSH on " ++ h)])
            0%Z w b w'
       /\ (b = false -> (timeout <= now w' - now w)%Z)
       /\ (b = true ->
           exists attempt wl,
             (now wl - now w < timeout)%Z
             /\ Reachability.attempt_ok wl = true
             /\ wait_for_ssh_turn h prt u p poll_interval cb (now w) attempt wl
                = (Ret (Return true), w')).
Proof.
  intros Hp. split.
  - intros start attempt w0. apply WaiterFacts.turn_spec. lia.
  - set (f := Z.to_nat (timeout / poll_interval + 1)).
    pose proof (SessionFacts.total_wait_for_ssh f h prt u p timeout
                  poll_interval cb Hp
                  (WaiterResults.enough_turns _ _ Hp) w) as Ht.
    unfold wait_for_ssh, bind at 1, time_time in Ht.
    assert (0 <= poll_interval)%Z as Hp0 by lia.
    apply WaiterResults.loop_answers in Ht as (b & w' & Hrun); [|exact Hp0].
    exists b, w'. split; [|split; [|split]].
    + exists (S f). intros fuel Hf. unfold wait_for_ssh, bind at 1, time_time.
      apply (WaiterFacts.while_elapsed_more _ _ _ _ _ _ _ _ _ Hrun);
        [discriminate | exact Hf].
    + apply (WaiterFacts.waits_of_run _ _ _ _ _ _ _ _ Hp0 _ _ _ _ _ Hrun).
    + intros ->.
      apply (WaiterFacts.waits_of_run _ _ _ _ _ _ _ _ Hp0) in Hrun.
      apply WaiterFacts.waits_false in Hrun; [exact Hrun | reflexivity].
    + intros ->.
      apply (WaiterFacts.waits_of_run _ _ _ _ _ _ _ _ Hp0) in Hrun.
      now apply WaiterFacts.waits_true in Hrun.
Qed.

(** ** [wait_for_reboot] *)

(** C10. For every timeout, [wait_for_reboot] probes only from the
    world left by its 60-second pause, and what it answers is what the
    reachability waiter answers there when started at that time with the
    budget [timeout - 60]; it never returns before the 60 seconds have
    passed.  With a timeout of 60 seconds or less the waiter's loop is not
    entered: [wait_for_reboot] returns [false], having slept 60 seconds,
    consumed no probe and no session reply, and added to the trace nothing
    but the two progress messages, the pause and the waiter's timeout
    error. *)
Theorem wait_for_reboot_short (self : PANOSUpgrader.t) (timeout : Z)
    (w : World) :
  (exists b w2,
      (exists n, forall fuel, n <= fuel ->
         PANOSUpgrader.wait_for_reboot fuel self timeout w
         = (Ret b,
            add_trace (shown (PANOSUpgrader.progress_callback self)
                         (reboot_verdict b)) w2))
      /\ Reachability.waits (now w + 60) (timeout - 60)
           (wait_for_ssh_turn (PANOSUpgrader.host self) 22
              (PANOSUpgrader.username self) (PANOSUpgrader.password self) 30
              (PANOSUpgrader.progress_callback self) (now w + 60))
           (add_trace [LogError ("Timeout waiting for SSH on "
                                 ++ PANOSUpgrader.host self)])
           0%Z (settled self w) b w2)
  /\ (forall fuel,
        returns_after 60 (PANOSUpgrader.wait_for_reboot fuel self timeout))
  /\ ((timeout <= 60)%Z ->
      forall fuel,
        PANOSUpgrader.wait_for_reboot (S fuel) self timeout w
        = (Ret false,
           mkWorld (gui_faults w) (now w + 60) (replies w) (probes w)
             (cancels w) (live_sessions w) (client w)
             (shown (PANOSUpgrader.progress_callback self)
                "Timeout waiting for firewall to come back online"
              ++ LogError ("Timeout waiting for SSH on "
                           ++ PANOSUpgrader.host self)
              :: Slept 60
              :: shown (PANOSUpgrader.progress_callback self)
                   "Waiting for firewall to reboot..."
              ++ trace w))).
Proof.
  assert (forall fuel,
            PANOSUpgrader.wait_for_reboot fuel self timeout w
            = (success <- wait_for_ssh fuel (PANOSUpgrader.host self) 22
                            (PANOSUpgrader.username self)
                            (PANOSUpgrader.password self) (timeout - 60) 30
                            (PANOSUpgrader.progress_callback self) ;;
               call_progress (PANOSUpgrader.progress_callback self)
                 (reboot_verdict success) ;;
               ret success) (settled self w)) as Hstart.
  { intros fuel.
    unfold PANOSUpgrader.wait_for_reboot, PANOSUpgrader._update_progress.
    unfold bind at 1. rewrite WaiterFacts.call_progress_run.
    unfold bind at 1.
    change (time_sleep 60) with
      (fun w0 => (Ret tt, mkWorld (gui_faults w0) (now w0 + 60) (replies w0)
                            (probes w0) (cancels w0) (live_sessions w0)
                            (client w0) (Slept 60 :: trace w0))).
    cbv beta. unfold add_trace, settled. simpl.
    unfold bind at 1 3. destruct (wait_for_ssh _ _ _ _ _ _ _ _ _) as [[[]| |] ?];
      reflexivity. }
  split; [|split].
  - set (f := Z.to_nat ((timeout - 60) / 30 + 1)).
    assert (0 < 30)%Z as Hp by lia. assert (0 <= 30)%Z as Hp0 by lia.
    pose proof (SessionFacts.total_wait_for_ssh f (PANOSUpgrader.host self) 22
                  (PANOSUpgrader.username self) (PANOSUpgrader.password self)
                  (timeout - 60) 30 (PANOSUpgrader.progress_callback self) Hp
                  (WaiterResults.enough_turns _ _ Hp)
                  (settled self w)) as Ht.
    unfold wait_for_ssh, bind at 1, time_time in Ht.
    apply WaiterResults.loop_answers in Ht as (b & w2 & Hrun); [|exact Hp0].
    exists b, w2. split.
    + exists (S f). intros fuel Hf. rewrite Hstart.
      unfold bind at 1.
      replace (wait_for_ssh fuel (PANOSUpgrader.host self) 22
                 (PANOSUpgrader.username self) (PANOSUpgrader.password self)
                 (timeout - 60) 30 (PANOSUpgrader.progress_callback self)
                 (settled self w)) with (Ret b, w2).
      * unfold bind. now rewrite WaiterFacts.call_progress_run.
      * symmetry. unfold wait_for_ssh, bind at 1, time_time.
        apply (WaiterFacts.while_elapsed_more _ _ _ _ _ _ _ _ _ Hrun);
          [discriminate | exact Hf].
    + apply (WaiterFacts.waits_of_run _ _ _ _ _ _ _ _ Hp0 _ _ _ _ _ Hrun).
  - intros fuel. unfold PANOSUpgrader.wait_for_reboot.
    replace 60%Z with (0 + 60)%Z by lia.
    apply RunFacts.after_bind;
      [apply RunFacts.after_mono, RunFacts.mono_call_progress|].
    intros _. apply RunFacts.after_sleep_then.
    apply RunFacts.mono_bind; [apply SessionFacts.mono_wait_for_ssh|].
    intros b. apply RunFacts.mono_bind; [|intros; apply RunFacts.mono_ret].
    destruct b; apply RunFacts.mono_call_progress.
  - intros Ht fuel. rewrite Hstart.
    unfold bind at 1.
    unfold wait_for_ssh, bind at 1, time_time.
    rewrite RunFacts.while_elapsed_step.
    match goal with |- context [(?a - ?a <? ?b)%Z] =>
      replace (a - a <? b)%Z with false
        by (symmetry; apply Z.ltb_ge; lia) end.
    unfold bind at 1, emit, ret. cbv beta iota. unfold bind at 1.
    rewrite WaiterFacts.call_progress_run. unfold add_trace, settled. simpl.
    reflexivity.
Qed.

(** ** The upgrader never runs out of fuel *)

(** Fuel for the longest loop of an upgrade: the download waiter with its
    1800-second budget and 30-second poll interval. *)
Lemma enough_fuel_bound : planner_fuel <= 61.
Proof. unfold planner_fuel. simpl. lia. Qed.

Module UpgraderFacts.
Import PANOSUpgrader SessionFacts.

Lemma total_update_progress self msg : total (_update_progress self msg).
Proof. apply RunFacts.total_call_progress. Qed.

Lemma mono_update_progress self msg : clock_mono (_update_progress self msg).
Proof. apply RunFacts.mono_call_progress. Qed.

Lemma total_require_client : total require_client.
Proof. unfold require_client. judge. Qed.

Lemma mono_require_client : clock_mono require_client.
Proof. unfold require_client. judge. Qed.

Lemma total_self_client : total self_client.
Proof. unfold self_client. judge. Qed.

Lemma mono_self_client : clock_mono self_client.
Proof. unfold self_client. judge. Qed.

#[export] Hint Resolve total_update_progress mono_update_progress
  total_require_client mono_require_client total_self_client
  mono_self_client : run.

Lemma total_upgrader_connect self : total (connect self).
Proof. unfold connect. judge. Qed.

Lemma total_upgrader_disconnect self : total (disconnect self).
Proof. unfold disconnect. judge. Qed.

Lemma total_get_current_version self : total (get_current_version self).
Proof. unfold get_current_version. judge. Qed.

Lemma total_check_available_versions self :
  total (check_available_versions self).
Proof. unfold check_available_versions. judge. Qed.

#[export] Hint Resolve total_upgrader_connect total_upgrader_disconnect
  total_get_current_version total_check_available_versions : run.

Lemma total_download_turn self version s : total (download_turn self version s).
Proof. unfold download_turn. judge. Qed.

Lemma after_download_turn self version s :
  returns_after 30 (download_turn self version s).
Proof. unfold download_turn. apply RunFacts.after_sleep_then. judge. Qed.

Lemma total_install_status self version : total (install_status self version).
Proof. unfold install_status. judge. Qed.

Lemma mono_install_status self version :
  clock_mono (install_status self version).
Proof. unfold install_status. judge. Qed.

#[export] Hint Resolve total_install_status mono_install_status : run.

Lemma total_install_turn self version s : total (install_turn self version s).
Proof. unfold install_turn. judge. Qed.

Lemma after_install_turn self version s :
  returns_after 30 (install_turn self version s).
Proof. unfold install_turn. apply RunFacts.after_sleep_then. judge. Qed.

Lemma total_wait_download f self version timeout :
  (timeout <= 30 * Z.of_nat f)%Z ->
  total (_wait_for_software_download (S f) self version timeout).
Proof.
  intros Hf. unfold _wait_for_software_download.
  apply RunFacts.total_bind; [auto with run|]. intros _ w.
  unfold bind at 1, time_time.
  apply (RunFacts.while_elapsed_total 30); try lia.
  - intros s. apply total_download_turn.
  - auto with run.
  - intros s w0 s' w' E. now apply after_download_turn in E.
Qed.

Lemma total_wait_install f self version timeout :
  (timeout <= 30 * Z.of_nat f)%Z ->
  total (_wait_for_software_install (S f) self version timeout).
Proof.
  intros Hf. unfold _wait_for_software_install.
  apply RunFacts.total_bind; [auto with run|]. intros _ w.
  unfold bind at 1, time_time.
  apply (RunFacts.while_elapsed_total 30); try lia.
  - intros s. apply total_install_turn.
  - auto with run.
  - intros s w0 s' w' E. now apply after_install_turn in E.
Qed.

Lemma total_download_version f self version timeout :
  (timeout <= 30 * Z.of_nat f)%Z ->
  total (_download_version (S f) self version timeout).
Proof.
  intros Hf. pose proof (total_wait_download f self version timeout Hf).
  unfold _download_version. judge.
Qed.

Lemma total_download_software f self version timeout :
  (timeout <= 30 * Z.of_nat f)%Z ->
  total (download_software (S f) self version timeout).
Proof.
  intros Hf.
  assert (timeout / 2 <= 30 * Z.of_nat f)%Z as Hhalf.
  { destruct (Z.le_gt_cases 0 timeout) as [Hpos|Hneg].
    - pose proof (Z.div_le_upper_bound timeout 2 timeout ltac:(lia) ltac:(lia)).
      lia.
    - pose proof (Z.div_lt_upper_bound timeout 2 0 ltac:(lia) ltac:(lia)). lia. }
  unfold download_software.
  apply RunFacts.total_bind; [auto with run|]. intros _.
  apply RunFacts.total_bind; [auto with run|]. intros _.
  apply RunFacts.total_bind;
    [apply RunFacts.total_lift, VersionFacts.parse_not_out_of_fuel|].
  intros ver.
  apply RunFacts.total_bind; [|intros _; now apply total_download_version].
  destruct (negb _); [now apply total_download_version | auto with run].
Qed.

Lemma total_install_software f self version timeout :
  (timeout <= 30 * Z.of_nat f)%Z ->
  total (install_software (S f) self version timeout).
Proof.
  intros Hf. pose proof (total_wait_install f self version timeout Hf).
  unfold install_software. judge.
Qed.

Lemma total_reboot self : total (reboot self).
Proof. unfold reboot. judge. Qed.

Lemma total_wait_for_reboot f self timeout :
  (timeout - 60 <= 30 * Z.of_nat f)%Z ->
  total (wait_for_reboot (S f) self timeout).
Proof.
  intros Hf.
  pose proof (total_wait_for_ssh f (host self) 22 (username self)
                (password self) (timeout - 60) 30 (progress_callback self)
                ltac:(lia) Hf).
  unfold wait_for_reboot. judge.
Qed.

Lemma total_upgrade_step fuel self version :
  61 <= fuel -> total (upgrade_step fuel self version).
Proof.
  intros Hf. destruct fuel as [|f]; [lia|].
  pose proof (total_download_software f self version 1800 ltac:(lia)).
  pose proof (total_install_software f self version 1200 ltac:(lia)).
  pose proof (total_reboot self).
  pose proof (total_wait_for_reboot f self 600 ltac:(lia)).
  unfold upgrade_step. judge.
Qed.

Lemma total_upgrade_body fuel self target_version :
  61 <= fuel -> total (upgrade_body fuel self target_version).
Proof.
  intros Hf. unfold upgrade_body.
  apply RunFacts.total_bind; [auto with run|]. intros _.
  apply RunFacts.total_bind; [auto with run|]. intros current.
  apply RunFacts.total_bind.
  { apply RunFacts.total_lift, PlannerFacts.get_upgrade_path_total.
    pose proof enough_fuel_bound. lia. }
  intros path.
  assert (total (for_each path (upgrade_step fuel self))) as Hloop.
  { apply RunFacts.total_for_each. intros x. now apply total_upgrade_step. }
  destruct path; judge.
Qed.

(** *** What the upgrade returns *)

Lemma upgrade_body_true fuel self target_version w b w' :
  upgrade_body fuel self target_version w = (Ret b, w') -> b = true.
Proof.
  unfold upgrade_body. intros H.
  apply bind_ret_inv in H as ([] & w1 & _ & H).
  apply bind_ret_inv in H as (current & w2 & _ & H).
  apply bind_ret_inv in H as (path & w3 & _ & H).
  destruct path.
  - apply bind_ret_inv in H as ([] & w4 & _ & H). now injection H.
  - apply bind_ret_inv in H as ([] & w4 & _ & H).
    apply bind_ret_inv in H as ([] & w5 & _ & H).
    apply bind_ret_inv in H as ([] & w6 & _ & H). now injection H.
Qed.

(** [disconnect] returns, drops the handle, and leaves the trace a
    suffix of the new one. *)
Lemma disconnect_run self w :
  exists w' l,
    disconnect self w = (Ret tt, w')
    /\ client w' = None
    /\ trace w' = (l ++ trace w)%list.
Proof.
  unfold disconnect, SSH.disconnect, bind, get_client, set_client, emit,
    next_reply, session_closed, ret.
  destruct w as [gf t rs ps cs n c tr]; simpl.
  destruct c as [c|]; simpl.
  - destruct (connection c); simpl.
    + destruct (outcome match rs with [] => lost | r :: _ => r end); simpl;
        eexists _, [_]; repeat split.
    + exists (mkWorld gf t rs ps cs n None tr), []. repeat split.
  - exists (mkWorld gf t rs ps cs n None tr), []. repeat split.
Qed.

End UpgraderFacts.

Module OrchestratorFacts.
Import FirewallSetupOrchestrator SessionFacts UpgraderFacts.

Lemma total_progress msg : total (FirewallSetupOrchestrator._update_progress msg).
Proof. unfold FirewallSetupOrchestrator._update_progress. judge. Qed.

Lemma total_beep_error : total beep_error.
Proof. unfold beep_error. judge. Qed.

Lemma total_show_error title message : total (show_error title message).
Proof. unfold show_error. judge. Qed.

#[export] Hint Resolve total_progress total_beep_error total_show_error : run.

Lemma total_phase4_failed e : total (phase4_failed e).
Proof. unfold phase4_failed. judge. Qed.

Lemma total_run_failed e : total (run_failed e).
Proof. unfold run_failed. judge. Qed.

Lemma total_phase4_hops fuel upgrader path :
  61 <= fuel -> total (phase4_hops fuel upgrader path).
Proof.
  intros Hf. destruct fuel as [|f]; [lia|].
  induction path as [|version path IH]; simpl; [auto with run|].
  pose proof (total_download_software f upgrader version 1800 ltac:(lia)).
  pose proof (total_install_software f upgrader version 1200 ltac:(lia)).
  pose proof (total_reboot upgrader).
  pose proof (total_wait_for_reboot f upgrader 600 ltac:(lia)).
  unfold _check_cancelled. judge.
Qed.

Lemma total_phase4_body fuel config :
  61 <= fuel -> total (phase4_body fuel config).
Proof.
  intros Hf. unfold phase4_body. cbv zeta.
  apply RunFacts.total_bind; [auto with run|]. intros _.
  apply RunFacts.total_bind; [auto with run|]. intros current.
  apply RunFacts.total_bind.
  { apply RunFacts.total_lift, PlannerFacts.get_upgrade_path_total.
    pose proof enough_fuel_bound. lia. }
  intros path.
  pose proof (total_phase4_hops fuel (upgrader_of config) path Hf).
  destruct path; judge.
Qed.

Lemma total_phase4 fuel config :
  61 <= fuel -> total (_phase4_upgrade fuel config).
Proof.
  intros Hf. pose proof (total_phase4_body fuel config Hf).
  unfold _phase4_upgrade. judge.
Qed.

(** A [try] whose handler reports and returns [False] yields a boolean:
    the value of the block when it returns, [false] when it raises. *)
Lemma guarded_answers (m : M bool) (h : exn -> M bool) (w : World) :
  total m ->
  (forall e w1, exists w2, h e w1 = (Ret false, w2)) ->
  exists b w',
    try_except m h w = (Ret b, w')
    /\ (forall e w1, m w = (Raise e, w1) -> b = false /\ h e w1 = (Ret false, w')).
Proof.
  intros Hm Hh. unfold try_except. specialize (Hm w).
  destruct (m w) as [[b|e|] w1]; simpl in Hm.
  - exists b, w1. split; [reflexivity | discriminate].
  - destruct (Hh e w1) as (w2 & E). exists false, w2. rewrite E.
    split; [reflexivity|]. intros e' w1' [= <- <-]. now split.
  - now contradiction Hm.
Qed.

End OrchestratorFacts.

(** ** The top-level boundary *)

(** C6, as the specification states it, fails for [run]: with a device
    that does not answer and a sound device that fails, the first phase
    raises out of its [except] clause, and [run] raises out of its own: the
    failure is neither shown nor turned into [False]. *)
Lemma run_raises_when_reporting_fails :
  exists w',
    SetupPhases.run_all 61 Scenario.config ReportScenario.net
      ReportScenario.unreachable_and_mute
    = (Raise ReportScenario.no_beep, w')
    /\ forall title message, ~ In (ShownError title message) (trace w').
Proof.
  eexists. split; [vm_compute; reflexivity|].
  intros title message. simpl. intuition discriminate.
Qed.

Module BoundaryFacts.
Import FirewallSetupOrchestrator.

(** The [except] clause of [run] on the two calls it makes. *)
Lemma run_failed_run e0 w1 :
  (calls_pass 2 w1 ->
   exists w',
     run_failed e0 w1 = (Ret false, w')
     /\ trace w'
        = ShownError "Setup Failed"
            ("An error occurred: " ++ exn_message e0 ++ nl ++ nl
             ++ "Suggestion: " ++ get_error_suggestion e0)
          :: Beep :: LogError "Setup failed" :: trace w1)
  /\ (forall r w',
        run_failed e0 w1 = (r, w') ->
        r = Ret false \/ exists e, r = Raise e /\ call_raises 2 w1 e).
Proof.
  unfold run_failed, beep_error, show_error, calls_pass, call_raises, bind,
    emit, gui_call, ret.
  destruct (gui_faults w1) as [|[x|] [|[y|] l]] eqn:E; simpl; rewrite ?E; simpl;
    (split;
     [ intros H; repeat match goal with
                        | H : Forall _ (_ :: _) |- _ => inversion H; clear H; subst
                        end; try discriminate; eexists; split; reflexivity
     | intros r w' [= <- <-]; first [now left | right; eexists; split;
                                                [reflexivity | simpl; auto]] ]).
Qed.

End BoundaryFacts.

(** C6, amended.  With fuel for its longest loop, [upgrade_to_version]
    always returns a boolean and raises nothing; the upgrader holds no
    session handle when it returns; the result is [false] exactly when the
    body of the [try] raised, and that exception is then logged as an
    error.  [run], for any behaviour of the first three phases, returns the
    boolean of its [try] block when the block returns.  When the block
    raises and the two calls of the [except] clause ([beep_error] and
    [gui.show_error]) go through, [run] returns [false] after the log line,
    the beep and the titled error with its suggestion.  [run] raises only
    what one of these two calls raised. *)
Theorem upgrade_returns_boolean (fuel : nat) (self : PANOSUpgrader.t)
    (target_version : string) (w : World) :
  61 <= fuel ->
  (exists b w',
      PANOSUpgrader.upgrade_to_version fuel self target_version w = (Ret b, w')
      /\ client w' = None
      /\ (b = false <->
          exists e w1,
            PANOSUpgrader.upgrade_body fuel self target_version w = (Raise e, w1))
      /\ (forall e w1,
            PANOSUpgrader.upgrade_body fuel self target_version w = (Raise e, w1) ->
            exists l,
              trace w' = (l ++ LogError ("Upgrade failed: " ++ exn_message e)
                            :: trace w1)%list))
  /\ (forall phase1 phase2 phase3 config,
        total phase1 -> total phase2 -> total phase3 ->
        (forall b w1,
            FirewallSetupOrchestrator.run_body phase1 phase2 phase3 fuel config w
            = (Ret b, w1) ->
            FirewallSetupOrchestrator.run phase1 phase2 phase3 fuel config w
            = (Ret b, w1))
        /\ (forall e0 w1,
              FirewallSetupOrchestrator.run_body phase1 phase2 phase3 fuel
                config w = (Raise e0, w1) ->
              calls_pass 2 w1 ->
              exists w',
                FirewallSetupOrchestrator.run phase1 phase2 phase3 fuel config w
                = (Ret false, w')
                /\ trace w'
                   = ShownError "Setup Failed"
                       ("An error occurred: " ++ exn_message e0
                        ++ FirewallSetupOrchestrator.nl
                        ++ FirewallSetupOrchestrator.nl ++ "Suggestion: "
                        ++ FirewallSetupOrchestrator.get_error_suggestion e0)
                     :: Beep :: LogError "Setup failed" :: trace w1)
        /\ (forall r w',
              FirewallSetupOrchestrator.run phase1 phase2 phase3 fuel config w
              = (r, w') ->
              (exists b, r = Ret b)
              \/ (exists e e0 w1,
                     r = Raise e
                     /\ FirewallSetupOrchestrator.run_body phase1 phase2 phase3
                          fuel config w = (Raise e0, w1)
                     /\ call_raises 2 w1 e))).
Proof.
  intros Hf. split.
  - pose proof (UpgraderFacts.total_upgrade_body fuel self target_version Hf w)
      as Ht.
    unfold PANOSUpgrader.upgrade_to_version, try_finally, try_except.
    destruct (PANOSUpgrader.upgrade_body fuel self target_version w)
      as [[b0|e|] w1] eqn:E; simpl in Ht; [| |now contradiction Ht].
    + destruct (UpgraderFacts.disconnect_run self w1) as (w2 & l & Ed & Hc & _).
      rewrite Ed. exists b0, w2. split; [reflexivity|]. split; [exact Hc|].
      apply UpgraderFacts.upgrade_body_true in E as ->.
      split; [split; [discriminate | intros (e & w3 & H); discriminate]|].
      intros e w3 H. discriminate.
    + unfold bind, emit, ret.
      match goal with |- context [PANOSUpgrader.disconnect self ?x] =>
        destruct (UpgraderFacts.disconnect_run self x) as (w2 & l & Ed & Hc & Htr)
      end.
      rewrite Ed. exists false, w2. split; [reflexivity|]. split; [exact Hc|].
      split; [split; [intros _; now exists e, w1 | reflexivity]|].
      intros e' w1' [= <- <-]. exists l. exact Htr.
  - intros phase1 phase2 phase3 config H1 H2 H3.
    assert (total (FirewallSetupOrchestrator.run_body phase1 phase2 phase3
                     fuel config)) as Ht.
    { pose proof (OrchestratorFacts.total_phase4 fuel config Hf).
      pose proof OrchestratorFacts.total_progress.
      unfold FirewallSetupOrchestrator.run_body,
        FirewallSetupOrchestrator._check_cancelled.
      judge. }
    specialize (Ht w).
    unfold FirewallSetupOrchestrator.run, try_except.
    destruct (FirewallSetupOrchestrator.run_body phase1 phase2 phase3 fuel
                config w) as [[b|e0|] w1] eqn:E; simpl in Ht;
      [| |now contradiction Ht].
    + split; [intros b' w1' [= <- <-]; reflexivity|].
      split; [discriminate|].
      intros r w' [= <- <-]. left. now exists b.
    + destruct (BoundaryFacts.run_failed_run e0 w1) as [Hok Hany].
      split; [discriminate|].
      split; [intros e' w1' [= <- <-]; exact Hok|].
      intros r w' Hr. destruct (Hany r w' Hr) as [->|(e & -> & He)].
      * left. now exists false.
      * right. now exists e, e0, w1.
Qed.

(** ** Witnesses of the boundary and waiter theorems *)

Lemma upgrade_returns_boolean_witness :
  (exists b w',
      PANOSUpgrader.upgrade_to_version 61 Scenario.upgrader "10.2.4"
        Scenario.check_faults = (Ret b, w')
      /\ client w' = None
      /\ (b = false <->
          exists e w1,
            PANOSUpgrader.upgrade_body 61 Scenario.upgrader "10.2.4"
              Scenario.check_faults = (Raise e, w1))
      /\ (forall e w1,
            PANOSUpgrader.upgrade_body 61 Scenario.upgrader "10.2.4"
              Scenario.check_faults = (Raise e, w1) ->
            exists l,
              trace w' = (l ++ LogError ("Upgrade failed: " ++ exn_message e)
                            :: trace w1)%list))
  /\ (forall phase1 phase2 phase3 config,
        total phase1 -> total phase2 -> total phase3 ->
        (forall b w1,
            FirewallSetupOrchestrator.run_body phase1 phase2 phase3 61 config
              Scenario.check_faults = (Ret b, w1) ->
            FirewallSetupOrchestrator.run phase1 phase2 phase3 61 config
              Scenario.check_faults = (Ret b, w1))
        /\ (forall e0 w1,
              FirewallSetupOrchestrator.run_body phase1 phase2 phase3 61
                config Scenario.check_faults = (Raise e0, w1) ->
              calls_pass 2 w1 ->
              exists w',
                FirewallSetupOrchestrator.run phase1 phase2 phase3 61 config
                  Scenario.check_faults = (Ret false, w')
                /\ trace w'
                   = ShownError "Setup Failed"
                       ("An error occurred: " ++ exn_message e0
                        ++ FirewallSetupOrchestrator.nl
                        ++ FirewallSetupOrchestrator.nl ++ "Suggestion: "
                        ++ FirewallSetupOrchestrator.get_error_suggestion e0)
                     :: Beep :: LogError "Setup failed" :: trace w1)
        /\ (forall r w',
              FirewallSetupOrchestrator.run phase1 phase2 phase3 61 config
                Scenario.check_faults = (r, w') ->
              (exists b, r = Ret b)
              \/ (exists e e0 w1,
                     r = Raise e
                     /\ FirewallSetupOrchestrator.run_body phase1 phase2 phase3
                          61 config Scenario.check_faults = (Raise e0, w1)
                     /\ call_raises 2 w1 e))).
Proof.
  apply (upgrade_returns_boolean 61 Scenario.upgrader "10.2.4"
           Scenario.check_faults).
  apply le_n.
Defined.

Lemma wait_for_ssh_spec_witness :
  (forall start attempt w0, exists w1,
      wait_for_ssh_turn "10.0.0.1" 22 "admin" "secret" 30 None start attempt w0
      = (Ret (if Reachability.attempt_ok w0 then Return true
              else Continue (attempt + 1)%Z), w1))
  /\ exists b w',
       (exists n, forall fuel, n <= fuel ->
          wait_for_ssh fuel "10.0.0.1" 22 "admin" "secret" 90 30 None
            Scenario.back_at_second_attempt = (Ret b, w'))
       /\ Reachability.waits (now Scenario.back_at_second_attempt) 90
            (wait_for_ssh_turn "10.0.0.1" 22 "admin" "secret" 30 None
               (now Scenario.back_at_second_attempt))
            (add_trace [LogError ("Timeout waiting for SSH on " ++ "10.0.0.1")])
            0%Z Scenario.back_at_second_attempt b w'
       /\ (b = false ->
           (90 <= now w' - now Scenario.back_at_second_attempt)%Z)
       /\ (b = true ->
           exists attempt wl,
             (now wl - now Scenario.back_at_second_attempt < 90)%Z
             /\ Reachability.attempt_ok wl = true
             /\ wait_for_ssh_turn "10.0.0.1" 22 "admin" "secret" 30 None
                  (now Scenario.back_at_second_attempt) attempt wl
                = (Ret (Return true), w')).
Proof.
  apply (wait_for_ssh_spec "10.0.0.1" 22 "admin" "secret" 90 30 None
           Scenario.back_at_second_attempt).
  reflexivity.
Defined.

Lemma wait_for_reboot_short_witness :
  PANOSUpgrader.wait_for_reboot 61 Scenario.upgrader 45 Scenario.no_session
  = (Ret false,
     mkWorld [] 60 [] [] [] 0 None
       [LogError "Timeout waiting for SSH on 10.0.0.1"; Slept 60]).
Proof.
  destruct (wait_for_reboot_short Scenario.upgrader 45 Scenario.no_session)
    as (_ & _ & H).
  apply (H ltac:(discriminate) 60).
Defined.

Example wait_for_ssh_second_attempt :
  fst (wait_for_ssh 4 "10.0.0.1" 22 "admin" "secret" 90 30 None
         Scenario.back_at_second_attempt) = Ret true.
Proof. reflexivity. Qed.

(** ** The download rule *)

Example download_11_2_4_commands :
  PANOSUpgrader.download_software 61 Scenario.upgrader "11.2.4" 1800
    Scenario.all_downloaded
  = (Ret tt,
     mkWorld [] 0 [] [] [] 1 (Some Scenario.connected)
       [Sent "request system software download version 11.2.4";
        Sent "request system software download version 11.2.0"]).
Proof. reflexivity. Qed.

Example download_11_2_0_commands :
  PANOSUpgrader.download_software 61 Scenario.upgrader "11.2.0" 1800
    Scenario.all_downloaded
  = (Ret tt,
     mkWorld [] 0 [Scenario.says "already downloaded"] [] [] 1
       (Some Scenario.connected)
       [Sent "request system software download version 11.2.0"]).
Proof. reflexivity. Qed.

(** ** The install waiter *)

Module InstallFacts.
Import PANOSUpgrader SessionFacts UpgraderFacts.

Lemma install_status_answers self version w :
  exists b w', install_status self version w = (Ret b, w').
Proof.
  unfold install_status.
  match goal with |- context [try_except ?m ?h w] =>
    destruct (OrchestratorFacts.guarded_answers m h w) as (b & w' & E & _)
  end.
  - judge.
  - intros e w1. eexists. reflexivity.
  - now exists b, w'.
Qed.

(** A turn of the install waiter never raises. *)
Lemma install_turn_answers self version s w :
  exists r w', install_turn self version s w = (Ret r, w').
Proof.
  unfold install_turn, bind at 1, time_sleep. simpl.
  unfold bind at 1.
  match goal with |- context [install_status self version ?x] =>
    destruct (install_status_answers self version x) as (b & w' & ->)
  end.
  destruct b; eexists _, _; reflexivity.
Qed.

Lemma install_loop_raises self version timeout start :
  forall fuel w e w',
    while_elapsed fuel start timeout (install_turn self version)
      (raise (RuntimeError ("Installation of " ++ version ++ " timed out")))
      tt w = (Raise e, w') ->
    e = RuntimeError ("Installation of " ++ version ++ " timed out").
Proof.
  induction fuel as [|fuel IH]; intros w e w' H; [discriminate|].
  rewrite RunFacts.while_elapsed_step in H.
  destruct (now w - start <? timeout)%Z.
  - destruct (install_turn_answers self version tt w) as (r & w1 & E).
    rewrite E in H. destruct r as [[]|[]]; [|discriminate].
    now apply IH in H.
  - now injection H.
Qed.

End InstallFacts.

(** C2, on the code.  The install waiter never raises a job-failed
    error: whatever the device reports, it raises only "Not connected" or
    the timeout error.  On a device that reports a failed install job it
    polls again after the failed status and ends with the timeout error;
    the download waiter, on a failed download job, raises at once. *)
Theorem install_failure_is_swallowed :
  (forall fuel self version timeout w e w',
      PANOSUpgrader._wait_for_software_install fuel self version timeout w
      = (Raise e, w') ->
      e = RuntimeError "Not connected"
      \/ e = RuntimeError ("Installation of " ++ version ++ " timed out"))
  /\ PANOSUpgrader._wait_for_software_install 3 Scenario.upgrader "11.2.4" 60
       Scenario.install_fails
     = (Raise (RuntimeError "Installation of 11.2.4 timed out"),
        mkWorld [] 60 [] [] [] 1 (Some Scenario.connected)
          [LogWarning
             "Error checking install status: Installation of 11.2.4 failed";
           Sent "show jobs all";
           Slept 30;
           LogWarning
             "Error checking install status: Installation of 11.2.4 failed";
           Sent "show jobs all";
           Slept 30])
  /\ PANOSUpgrader._wait_for_software_download 3 Scenario.upgrader "11.2.4" 60
       Scenario.download_fails
     = (Raise (RuntimeError "Download of 11.2.4 failed"),
        mkWorld [] 30 [Scenario.says "download failed"] [] [] 1
          (Some Scenario.connected)
          [Sent "request system software info"; Slept 30]).
Proof.
  split; [|split; reflexivity].
  intros fuel self version timeout w e w'.
  unfold PANOSUpgrader._wait_for_software_install.
  unfold bind at 1, PANOSUpgrader.require_client.
  unfold bind at 1, get_client.
  destruct (client w) as [c|].
  - unfold ret at 1. unfold bind at 1, time_time. intros H.
    right. now apply InstallFacts.install_loop_raises in H.
  - unfold raise. intros [= <- _]. now left.
Qed.

(** ** The session of the upgrade phase *)

(** C3, on the code.  When the device accepts the session and the
    transport then fails during the availability check, [_phase4_upgrade]
    returns [false] with its session still open: the upgrader keeps a
    connected client and nothing was closed.  On the same device
    [upgrade_to_version], whose [try] has a [finally], releases it. *)
Theorem phase4_leaves_session_open :
  (exists w',
      FirewallSetupOrchestrator._phase4_upgrade 61 Scenario.config
        Scenario.check_faults = (Ret false, w')
      /\ live_sessions w' = 1
      /\ option_map connection (client w') = Some true
      /\ ~ In (Closed "10.0.0.1") (trace w'))
  /\ (exists w',
        PANOSUpgrader.upgrade_to_version 61 Scenario.upgrader "10.2.4"
          Scenario.check_faults = (Ret false, w')
        /\ live_sessions w' = 0
        /\ client w' = None
        /\ In (Closed "10.0.0.1") (trace w')).
Proof.
  split.
  - eexists. split; [vm_compute; reflexivity|]. split; [reflexivity|].
    split; [reflexivity|]. simpl. intuition discriminate.
  - eexists. split; [vm_compute; reflexivity|]. split; [reflexivity|].
    split; [reflexivity|]. simpl. auto.
Qed.

(** ** The repository's own test cases, replayed on the embedding *)

Example parse_10_2_4 :
  Version.parse "10.2.4" = Ret (Version.mk 10 2 4 "10.2.4").
Proof. reflexivity. Qed.

Example parse_hotfix :
  Version.parse "11.2.10-h2" = Ret (Version.mk 11 2 10 "11.2.10-h2").
Proof. reflexivity. Qed.

Example parse_spaces :
  Version.parse "  10.1.0  " = Ret (Version.mk 10 1 0 "10.1.0").
Proof. reflexivity. Qed.

Example parse_short : Version.parse "10.2" = Raise (Version.invalid_format "10.2").
Proof. reflexivity. Qed.

Example parse_empty : Version.parse "" = Raise (Version.invalid_format "").
Proof. reflexivity. Qed.

Example str_drops_hotfix :
  rbind (Version.parse "11.2.10-h2") (fun v => Ret (Version.str v))
  = Ret "11.2.10".
Proof. reflexivity. Qed.

Example path_no_upgrade :
  get_upgrade_path planner_fuel "11.2.5" "11.2.4" = Ret [].
Proof. reflexivity. Qed.

Example path_same_train :
  get_upgrade_path planner_fuel "10.2.0" "10.2.4" = Ret ["10.2.4"].
Proof. reflexivity. Qed.

Example path_unknown_train :
  get_upgrade_path planner_fuel "8.1.0" "8.1.5" = Ret ["8.1.5"].
Proof. reflexivity. Qed.

Example path_long :
  get_upgrade_path planner_fuel "9.1.0" "11.2.4"
  = Ret ["10.0.0"; "10.1.0"; "10.2.0"; "11.0.0"; "11.1.0"; "11.2.4"].
Proof. reflexivity. Qed.

Example install_success :
  fst (PANOSUpgrader._wait_for_software_install 3 Scenario.upgrader "11.2.4" 60
         (mkWorld [] 0 [Scenario.says "installed 11.2.4"] [] [] 1
                  (Some Scenario.connected) []))
  = Ret tt.
Proof. reflexivity. Qed.

(** * Further properties *)

(** ** Versions: printing, suffixes and the order *)

Module MoreVersionFacts.
Import Text TextFacts Version VersionFacts.

Lemma lstrip_plain (s : string) :
  forall_chars (fun c => negb (is_space c)) s = true -> lstrip s = s.
Proof.
  destruct s as [|x s]; simpl; [reflexivity|].
  intros H. apply andb_true_iff in H as [Hx _].
  apply negb_true_iff in Hx. now rewrite Hx.
Qed.

Lemma rstrip_plain (s : string) :
  forall_chars (fun c => negb (is_space c)) s = true -> rstrip s = s.
Proof.
  induction s as [|x s IH]; simpl; [reflexivity|].
  intros H. apply andb_true_iff in H as [Hx Hs].
  apply negb_true_iff in Hx. now rewrite (IH Hs), Hx, andb_false_r.
Qed.

Lemma digit_plain (c : ascii) : is_digit c = true -> negb (is_space c) = true.
Proof. destruct c as [[] [] [] [] [] [] [] []]; try discriminate; reflexivity. Qed.

Lemma version_char_nospace (c : ascii) :
  version_char c = true -> negb (is_space c) = true.
Proof.
  intros H. destruct (version_char_plain c H) as [-> _]. reflexivity.
Qed.

Lemma sub_hotfix_suffix (a d : string) :
  forall_chars version_char a = true -> digits d = true ->
  sub_hotfix (a ++ "-h" ++ d) = a.
Proof.
  intros Ha Hd. induction a as [|x a IH].
  - change ("" ++ "-h" ++ d) with (String "-" (String "h" d)).
    rewrite sub_hotfix_cons.
    change (String "-" (String "h" d)) with ("-h" ++ d).
    now rewrite (hotfix_here_digits _ Hd).
  - simpl in Ha. apply andb_true_iff in Ha as [Hx Ha].
    destruct (version_char_plain _ Hx) as [_ Hdash].
    change (String x a ++ "-h" ++ d) with (String x (a ++ "-h" ++ d)).
    now rewrite sub_hotfix_cons, (hotfix_here_dash _ _ Hdash), (IH Ha).
Qed.

(** The strict order in numbers. *)
Lemma lt_iff (a b : t) :
  lt a b = true <->
  (major a < major b
   \/ (major a = major b
       /\ (minor a < minor b \/ (minor a = minor b /\ patch a < patch b))))%N.
Proof.
  unfold lt, compare.
  destruct (N.compare_spec (major a) (major b));
    destruct (N.compare_spec (minor a) (minor b));
    destruct (N.compare_spec (patch a) (patch b));
    split; intros; try discriminate; try reflexivity; lia.
Qed.

Lemma eq_iff (a b : t) :
  eq a b = true <->
  major a = major b /\ minor a = minor b /\ patch a = patch b.
Proof.
  unfold eq, compare.
  destruct (N.compare_spec (major a) (major b));
    destruct (N.compare_spec (minor a) (minor b));
    destruct (N.compare_spec (patch a) (patch b));
    split; intros; try discriminate; try reflexivity; try lia; auto.
Qed.

Lemma le_lt_eq (a b : t) : le a b = lt a b || eq a b.
Proof. unfold le, lt, eq. now destruct (compare a b). Qed.

End MoreVersionFacts.

(** X1. Printing a version and parsing the text gives the version back:
    the same triple, with the printed text as original. *)
Theorem parse_after_str (v : Version.t) :
  Version.parse (Version.str v)
  = Ret (Version.mk (Version.major v) (Version.minor v) (Version.patch v)
                    (Version.str v))
  /\ Version.eq v (Version.mk (Version.major v) (Version.minor v)
                              (Version.patch v) (Version.str v)) = true.
Proof.
  split; [apply VersionFacts.parse_str|].
  apply MoreVersionFacts.eq_iff. simpl. auto.
Qed.

(** X2. A hotfix suffix does not change what a version parses to: the
    printed version followed by [-h<digits>] parses to the same triple,
    and keeps the suffix in its original text only. *)
Theorem parse_ignores_hotfix (v : Version.t) (d : string) :
  Text.digits d = true ->
  Version.parse (Version.str v ++ "-h" ++ d)
  = Ret (Version.mk (Version.major v) (Version.minor v) (Version.patch v)
                    (Version.str v ++ "-h" ++ d)).
Proof.
  intros Hd.
  assert (Text.forall_chars (fun c => negb (Text.is_space c))
            (Version.str v ++ "-h" ++ d) = true) as Hplain.
  { rewrite TextFacts.forall_chars_app.
    rewrite (TextFacts.forall_chars_impl _ _ _
               MoreVersionFacts.version_char_nospace
               (VersionFacts.str_version_chars v)).
    simpl. apply TextFacts.digits_split in Hd as [_ Hd].
    rewrite TextFacts.all_digits_forall in Hd.
    apply (TextFacts.forall_chars_impl _ _ _ MoreVersionFacts.digit_plain Hd). }
  assert (Text.strip (Version.str v ++ "-h" ++ d) = Version.str v ++ "-h" ++ d)
    as Hs.
  { unfold Text.strip.
    now rewrite (MoreVersionFacts.lstrip_plain _ Hplain),
      (MoreVersionFacts.rstrip_plain _ Hplain). }
  unfold Version.parse, Version.clean_version. rewrite Hs.
  rewrite (MoreVersionFacts.sub_hotfix_suffix _ _
             (VersionFacts.str_version_chars v) Hd).
  pose proof (VersionFacts.parse_str v) as Hp.
  unfold Version.parse in Hp. rewrite VersionFacts.clean_version_str in Hp.
  destruct (Version.match_version (Version.str v)) as [[[g1 g2] g3]|];
    [|discriminate].
  injection Hp as -> -> -> _. reflexivity.
Qed.

Lemma parse_ignores_hotfix_witness :
  Version.parse (Version.str (Version.mk 11 2 10 "") ++ "-h" ++ "2")
  = Ret (Version.mk 11 2 10 "11.2.10-h2").
Proof.
  exact (parse_ignores_hotfix (Version.mk 11 2 10 "") "2" eq_refl).
Defined.

(** X3. The four comparison operators follow one strict total order on
    (major, minor, patch): [>=] is the negation of [<], [<=] is [<] or
    [==], [==] holds exactly for equal triples, and [<] is irreflexive,
    transitive and total up to [==]. *)
Theorem version_order :
  (forall a b, Version.ge a b = negb (Version.lt a b))
  /\ (forall a b, Version.le a b = Version.lt a b || Version.eq a b)
  /\ (forall a b,
        Version.eq a b = true <->
        (Version.major a, Version.minor a, Version.patch a)
        = (Version.major b, Version.minor b, Version.patch b))
  /\ (forall a, Version.lt a a = false)
  /\ (forall a b c,
        Version.lt a b = true -> Version.lt b c = true -> Version.lt a c = true)
  /\ (forall a b,
        Version.lt a b = true \/ Version.eq a b = true \/ Version.lt b a = true).
Proof.
  split; [exact VersionFacts.ge_lt|].
  split; [exact MoreVersionFacts.le_lt_eq|].
  split; [|split; [|split]].
  - intros a b. rewrite MoreVersionFacts.eq_iff. split.
    + intros (-> & -> & ->). reflexivity.
    + intros [= -> -> ->]. auto.
  - intros a. destruct (Version.lt a a) eqn:E; [|reflexivity].
    apply MoreVersionFacts.lt_iff in E. lia.
  - intros a b c Hab Hbc. apply MoreVersionFacts.lt_iff.
    apply MoreVersionFacts.lt_iff in Hab, Hbc. lia.
  - intros a b. rewrite !MoreVersionFacts.lt_iff, MoreVersionFacts.eq_iff. lia.
Qed.

(** X4. The base version of a version is the zero-patch version of its
    train: it parses to (major, minor, 0), is in the same train, and does
    not exceed the version. *)
Theorem base_version_is_zero_patch (v : Version.t) :
  exists b,
    Version.parse (Version.base_version v) = Ret b
    /\ (Version.major b, Version.minor b, Version.patch b)
       = (Version.major v, Version.minor v, 0%N)
    /\ Version.major_minor b = Version.major_minor v
    /\ Version.le b v = true.
Proof.
  pose proof (VersionFacts.parse_str
                (Version.mk (Version.major v) (Version.minor v) 0 "")) as Hp.
  change (Version.str (Version.mk (Version.major v) (Version.minor v) 0 ""))
    with (Version.base_version v) in Hp.
  eexists. split; [exact Hp|]. split; [reflexivity|]. split; [reflexivity|].
  rewrite MoreVersionFacts.le_lt_eq. apply orb_true_iff.
  rewrite MoreVersionFacts.lt_iff, MoreVersionFacts.eq_iff. simpl. lia.
Qed.

(** ** The planner: shape of the path *)

Module MorePlannerFacts.
Import Version VersionFacts PlannerFacts.

(** Every entry of the map leads to a strictly later train. *)
Lemma lookup_later (w : t) (next_base : string) :
  dict_get (major_minor w) UPGRADE_PATHS = Some next_base ->
  exists next_version,
    parse next_base = Ret next_version
    /\ (major w < major next_version
        \/ (major w = major next_version /\ minor w < minor next_version))%N
    /\ Spec.train_rank next_version < Spec.train_rank w.
Proof.
  intros H. apply dict_get_in in H. unfold UPGRADE_PATHS in H.
  simpl In in H.
  destruct H as [H|[H|[H|[H|[H|[H|[H|[H|[]]]]]]]]];
    injection H as Hk <-.
  - train w Hk 9%N 0%N. eexists. split; [reflexivity|].
    split; [vm_compute; first [now left | now right]|].
    unfold Spec.train_rank; simpl; lia.
  - train w Hk 9%N 1%N. eexists. split; [reflexivity|].
    split; [vm_compute; first [now left | now right]|].
    unfold Spec.train_rank; simpl; lia.
  - train w Hk 10%N 0%N. eexists. split; [reflexivity|].
    split; [vm_compute; first [now left | now right]|].
    unfold Spec.train_rank; simpl; lia.
  - train w Hk 10%N 1%N. eexists. split; [reflexivity|].
    split; [vm_compute; first [now left | now right]|].
    unfold Spec.train_rank; simpl; lia.
  - train w Hk 10%N 2%N. eexists. split; [reflexivity|].
    split; [vm_compute; first [now left | now right]|].
    unfold Spec.train_rank; simpl; lia.
  - train w Hk 11%N 0%N. eexists. split; [reflexivity|].
    split; [vm_compute; first [now left | now right]|].
    unfold Spec.train_rank; simpl; lia.
  - train w Hk 11%N 1%N. eexists. split; [reflexivity|].
    split; [vm_compute; first [now left | now right]|].
    unfold Spec.train_rank; simpl; lia.
  - train w Hk 11%N 2%N. eexists. split; [reflexivity|].
    split; [vm_compute; first [now left | now right]|].
    unfold Spec.train_rank; simpl; lia.
Qed.

Lemma same_train_eqb (a b : t) :
  major a = major b -> minor a = minor b ->
  String.eqb (major_minor a) (major_minor b) = true.
Proof.
  intros H1 H2. unfold major_minor. rewrite H1, H2. apply String.eqb_refl.
Qed.

Lemma other_train_eqb (a b : t) :
  String.eqb (major_minor a) (major_minor b) = false ->
  ~ (major a = major b /\ minor a = minor b).
Proof.
  intros H [H1 H2]. now rewrite (same_train_eqb a b H1 H2) in H.
Qed.

(** Entered with a working version below the target, the loop appends
    forced bases that lie below the target, and then the target. *)
Lemma upgrade_loop_shape (target : t) :
  forall n w, Spec.train_rank w < n -> lt w target = true ->
  exists bases,
    (forall fuel path, Spec.train_rank w < fuel ->
       upgrade_loop fuel w target path
       = Ret (path ++ bases ++ [str target])%list)
    /\ Forall (fun b => exists k, In (k, b) UPGRADE_PATHS) bases
    /\ Forall (fun b => exists v, parse b = Ret v /\ lt v target = true) bases
    /\ List.length bases <= Spec.train_rank w.
Proof.
  induction n as [|n IH]; intros w Hn Hlt; [lia|].
  assert (Hdirect :
    (forall fuel path,
        upgrade_loop (S fuel) w target path = Ret (path ++ [str target])%list) ->
    exists bases,
      (forall fuel path, Spec.train_rank w < fuel ->
         upgrade_loop fuel w target path
         = Ret (path ++ bases ++ [str target])%list)
      /\ Forall (fun b => exists k, In (k, b) UPGRADE_PATHS) bases
      /\ Forall (fun b => exists v, parse b = Ret v /\ lt v target = true) bases
      /\ List.length bases <= Spec.train_rank w).
  { intros Hrun. exists []. split; [|split; [|split]]; try constructor.
    - intros [|fuel] path Hf; [lia|]. apply Hrun.
    - simpl. lia. }
  destruct (dict_get (major_minor w) UPGRADE_PATHS) as [next_base|] eqn:Hd.
  2:{ apply Hdirect. intros fuel path.
      now rewrite upgrade_loop_step, Hlt, Hd. }
  destruct (lookup_later _ _ Hd) as (nv & Hp & Hlater & Hrank).
  destruct (String.eqb (major_minor nv) (major_minor target)) eqn:He.
  { apply Hdirect. intros fuel path.
    rewrite upgrade_loop_step, Hlt, Hd, Hp. simpl rbind. now rewrite He. }
  destruct (le nv target) eqn:Hle.
  2:{ apply Hdirect. intros fuel path.
      rewrite upgrade_loop_step, Hlt, Hd, Hp. simpl rbind.
      now rewrite He, Hle. }
  assert (lt nv target = true) as Hnv.
  { rewrite MoreVersionFacts.le_lt_eq in Hle. apply orb_true_iff in Hle as [H|H];
      [exact H|].
    apply MoreVersionFacts.eq_iff in H as (H1 & H2 & _).
    now destruct (other_train_eqb _ _ He). }
  destruct (IH nv ltac:(lia) Hnv) as (bases & Hrun & Hin & Hlow & Hlen).
  exists (next_base :: bases). split; [|split; [|split]].
  - intros [|fuel] path Hf; [lia|].
    rewrite upgrade_loop_step, Hlt, Hd, Hp. simpl rbind.
    rewrite He, Hle, Hrun by lia. now rewrite <- List.app_assoc.
  - constructor; [|exact Hin]. exists (major_minor w). now apply dict_get_in.
  - constructor; [|exact Hlow]. now exists nv.
  - simpl. lia.
Qed.

(** The original text of the target plays no part in the loop. *)
Lemma upgrade_loop_target (a b c : N) (o o' : string) :
  forall fuel w path,
    upgrade_loop fuel w (mk a b c o) path = upgrade_loop fuel w (mk a b c o') path.
Proof.
  induction fuel as [|fuel IH]; intros w path; [reflexivity|].
  rewrite !upgrade_loop_step.
  change (lt w (mk a b c o')) with (lt w (mk a b c o)).
  destruct (lt w (mk a b c o)); [|reflexivity].
  destruct (dict_get (major_minor w) UPGRADE_PATHS) as [nb|]; [|reflexivity].
  destruct (parse nb) as [nv|e|]; try reflexivity. simpl rbind.
  change (major_minor (mk a b c o')) with (major_minor (mk a b c o)).
  destruct (String.eqb (major_minor nv) (major_minor (mk a b c o)));
    [reflexivity|].
  change (le nv (mk a b c o')) with (le nv (mk a b c o)).
  destruct (le nv (mk a b c o)); [apply IH | reflexivity].
Qed.

(** Nor does the original text of the working version. *)
Lemma upgrade_loop_working (a b c : N) (o o' : string) (fuel : nat)
    (target : t) (path : list string) :
  upgrade_loop fuel (mk a b c o) target path
  = upgrade_loop fuel (mk a b c o') target path.
Proof. destruct fuel; reflexivity. Qed.

End MorePlannerFacts.

(** X5. When the current version is below the target, the path consists
    of forced bases taken from the upgrade map, each below the target,
    followed by the target itself (printed without hotfix suffix) as its
    last element; it has at most one hop per entry of the map, plus the
    target. *)
Theorem path_ends_at_target
    (current_version target_version : string) (current target : Version.t) :
  Version.parse current_version = Ret current ->
  Version.parse target_version = Ret target ->
  Version.lt current target = true ->
  exists bases,
    (forall fuel, planner_fuel <= fuel ->
       get_upgrade_path fuel current_version target_version
       = Ret (bases ++ [Version.str target])%list)
    /\ Forall (fun b => exists k, In (k, b) UPGRADE_PATHS) bases
    /\ Forall (fun b => exists v, Version.parse b = Ret v
                                  /\ Version.lt v target = true) bases
    /\ List.length bases <= List.length UPGRADE_PATHS.
Proof.
  intros Hc Ht Hlt.
  destruct (MorePlannerFacts.upgrade_loop_shape target _ current
              (PlannerFacts.train_rank_bound current) Hlt)
    as (bases & Hrun & Hin & Hlow & Hlen).
  exists bases. split; [|split; [|split]]; try assumption.
  - intros fuel Hf. unfold get_upgrade_path. rewrite Hc, Ht. simpl rbind.
    rewrite VersionFacts.ge_lt, Hlt. simpl negb. cbv iota.
    apply (Hrun fuel []). pose proof (PlannerFacts.train_rank_bound current). lia.
  - pose proof (PlannerFacts.train_rank_bound current) as Hb.
    unfold planner_fuel in Hb. lia.
Qed.

Lemma path_ends_at_target_witness :
  exists bases,
    (forall fuel, planner_fuel <= fuel ->
       get_upgrade_path fuel "10.1.0" "11.2.4-h1"
       = Ret (bases ++ [Version.str (Version.mk 11 2 4 "11.2.4-h1")])%list)
    /\ Forall (fun b => exists k, In (k, b) UPGRADE_PATHS) bases
    /\ Forall (fun b => exists v, Version.parse b = Ret v
                                  /\ Version.lt v (Version.mk 11 2 4 "11.2.4-h1")
                                     = true) bases
    /\ List.length bases <= List.length UPGRADE_PATHS.
Proof.
  exact (path_ends_at_target "10.1.0" "11.2.4-h1"
           (Version.mk 10 1 0 "10.1.0") (Version.mk 11 2 4 "11.2.4-h1")
           eq_refl eq_refl eq_refl).
Defined.

(** X6. An upgrade within one train is a single hop: when current and
    target share major and minor and current is below target, the path is
    the target alone, whether or not the train has an entry in the map. *)
Theorem path_within_train
    (current_version target_version : string) (current target : Version.t)
    (fuel : nat) :
  Version.parse current_version = Ret current ->
  Version.parse target_version = Ret target ->
  Version.major current = Version.major target ->
  Version.minor current = Version.minor target ->
  Version.lt current target = true ->
  get_upgrade_path (S fuel) current_version target_version
  = Ret [Version.str target].
Proof.
  intros Hc Ht Hma Hmi Hlt. unfold get_upgrade_path. rewrite Hc, Ht.
  cbv beta delta [rbind] match.
  rewrite VersionFacts.ge_lt, Hlt. simpl negb. cbv match.
  rewrite PlannerFacts.upgrade_loop_step, Hlt.
  destruct (dict_get (Version.major_minor current) UPGRADE_PATHS)
    as [nb|] eqn:Hd; [|reflexivity].
  destruct (MorePlannerFacts.lookup_later _ _ Hd) as (nv & Hp & Hlater & _).
  rewrite Hp. simpl rbind.
  destruct (String.eqb (Version.major_minor nv) (Version.major_minor target))
    eqn:He.
  - reflexivity.
  - destruct (Version.le nv target) eqn:Hle; [|reflexivity].
    rewrite MoreVersionFacts.le_lt_eq in Hle.
    apply orb_true_iff in Hle as [H|H].
    + apply MoreVersionFacts.lt_iff in H. lia.
    + apply MoreVersionFacts.eq_iff in H. lia.
Qed.

Lemma path_within_train_witness :
  get_upgrade_path 1 "11.2.3" "11.2.10"
  = Ret [Version.str (Version.mk 11 2 10 "11.2.10")].
Proof.
  exact (path_within_train "11.2.3" "11.2.10"
           (Version.mk 11 2 3 "11.2.3") (Version.mk 11 2 10 "11.2.10") 0
           eq_refl eq_refl eq_refl eq_refl eq_refl).
Defined.

(** X7. The plan depends on the numbers only: two current versions that
    compare equal and two targets that compare equal (they may differ in
    hotfix suffix, leading zeros or surrounding blanks) get the same
    path. *)
Theorem path_depends_on_triples
    (c c' t t' : string) (vc vc' vt vt' : Version.t) (fuel : nat) :
  Version.parse c = Ret vc -> Version.parse c' = Ret vc' ->
  Version.parse t = Ret vt -> Version.parse t' = Ret vt' ->
  Version.eq vc vc' = true -> Version.eq vt vt' = true ->
  get_upgrade_path fuel c t = get_upgrade_path fuel c' t'.
Proof.
  intros Hc Hc' Ht Ht' Ec Et. unfold get_upgrade_path.
  rewrite Hc, Hc', Ht, Ht'. simpl rbind.
  apply MoreVersionFacts.eq_iff in Ec as (E1 & E2 & E3).
  apply MoreVersionFacts.eq_iff in Et as (E4 & E5 & E6).
  destruct vc as [a1 b1 c1 o1], vc' as [a2 b2 c2 o2],
           vt as [a3 b3 c3 o3], vt' as [a4 b4 c4 o4].
  simpl in E1, E2, E3, E4, E5, E6. subst.
  change (Version.ge (Version.mk a2 b2 c2 o2) (Version.mk a4 b4 c4 o4))
    with (Version.ge (Version.mk a2 b2 c2 o1) (Version.mk a4 b4 c4 o3)).
  destruct (Version.ge (Version.mk a2 b2 c2 o1) (Version.mk a4 b4 c4 o3));
    [reflexivity|].
  rewrite (MorePlannerFacts.upgrade_loop_target a4 b4 c4 o3 o4).
  apply MorePlannerFacts.upgrade_loop_working.
Qed.

Lemma path_depends_on_triples_witness :
  get_upgrade_path planner_fuel "10.2.4-h3" "11.1.0"
  = get_upgrade_path planner_fuel " 010.2.4" "11.1.0-h2".
Proof.
  exact (path_depends_on_triples "10.2.4-h3" " 010.2.4" "11.1.0" "11.1.0-h2"
           (Version.mk 10 2 4 "10.2.4-h3") (Version.mk 10 2 4 "010.2.4")
           (Version.mk 11 1 0 "11.1.0") (Version.mk 11 1 0 "11.1.0-h2")
           planner_fuel eq_refl eq_refl eq_refl eq_refl eq_refl eq_refl).
Defined.

(** ** Relations kept by computations *)

Module KeepFacts.

Section Kept.

Variable R : World -> World -> Prop.
Hypothesis R_refl : forall w, R w w.
Hypothesis R_trans : forall a b c, R a b -> R b c -> R a c.

Lemma keep_ret {A} (a : A) : preserves R (ret a).
Proof. intros w. apply R_refl. Qed.

Lemma keep_raise {A} (e : exn) : preserves R (@raise A e).
Proof. intros w. apply R_refl. Qed.

Lemma keep_out_of_fuel {A} : preserves R (@out_of_fuel A).
Proof. intros w. apply R_refl. Qed.

Lemma keep_lift {A} (r : result A) : preserves R (lift r).
Proof. intros w. apply R_refl. Qed.

Lemma keep_time_time : preserves R time_time.
Proof. intros w. apply R_refl. Qed.

Lemma keep_get_client : preserves R get_client.
Proof. intros w. apply R_refl. Qed.

Lemma keep_bind {A B} (m : M A) (k : A -> M B) :
  preserves R m -> (forall a, preserves R (k a)) -> preserves R (bind m k).
Proof.
  intros Hm Hk w. unfold bind. specialize (Hm w).
  destruct (m w) as [[a|e|] w1]; simpl in *; try exact Hm.
  exact (R_trans _ _ _ Hm (Hk a w1)).
Qed.

Lemma keep_try_except {A} (m : M A) (h : exn -> M A) :
  preserves R m -> (forall e, preserves R (h e)) -> preserves R (try_except m h).
Proof.
  intros Hm Hh w. unfold try_except. specialize (Hm w).
  destruct (m w) as [[a|e|] w1]; simpl in *; try exact Hm.
  exact (R_trans _ _ _ Hm (Hh e w1)).
Qed.

Lemma keep_try_finally {A} (m : M A) (f : M unit) :
  preserves R m -> preserves R f -> preserves R (try_finally m f).
Proof.
  intros Hm Hf w. unfold try_finally. specialize (Hm w).
  destruct (m w) as [[a|e|] w1]; simpl in *; try exact Hm;
    specialize (Hf w1); destruct (f w1) as [[[]|e'|] w2]; simpl in *;
    exact (R_trans _ _ _ Hm Hf).
Qed.

Lemma keep_for_each {A} (l : list A) (body : A -> M unit) :
  (forall x, preserves R (body x)) -> preserves R (for_each l body).
Proof.
  intros H. induction l as [|x l IH]; simpl.
  - apply keep_ret.
  - apply keep_bind; [apply H | intros _; exact IH].
Qed.

Lemma keep_while {St A} (start_time timeout : Z)
    (body : St -> M (flow St A)) (after : M A) :
  (forall s, preserves R (body s)) -> preserves R after ->
  forall fuel s, preserves R (while_elapsed fuel start_time timeout body after s).
Proof.
  intros Hbody Hafter. induction fuel as [|fuel IH]; intros s.
  - apply keep_out_of_fuel.
  - simpl. apply keep_bind; [apply keep_time_time|]. intros t.
    destruct (t - start_time <? timeout)%Z; [|exact Hafter].
    apply keep_bind; [apply Hbody|]. intros [s'|a]; [apply IH | apply keep_ret].
Qed.

End Kept.

(** *** The three relations *)

Lemma sessions_refl w : same_sessions w w.
Proof. reflexivity. Qed.

Lemma sessions_trans a b c :
  same_sessions a b -> same_sessions b c -> same_sessions a c.
Proof. unfold same_sessions. congruence. Qed.

Lemma grows_refl w : trace_grows w w.
Proof. now exists []. Qed.

Lemma grows_trans a b c : trace_grows a b -> trace_grows b c -> trace_grows a c.
Proof.
  intros [l1 H1] [l2 H2]. exists (l2 ++ l1)%list.
  now rewrite H2, H1, List.app_assoc.
Qed.

Lemma client_refl w : same_client w w.
Proof. reflexivity. Qed.

Lemma client_trans a b c : same_client a b -> same_client b c -> same_client a c.
Proof. unfold same_client. congruence. Qed.

(** *** What the primitives keep *)

Lemma sessions_emit e : preserves same_sessions (emit e).
Proof. intros w. reflexivity. Qed.

Lemma grows_emit e : preserves trace_grows (emit e).
Proof. intros w. now exists [e]. Qed.

Lemma client_emit e : preserves same_client (emit e).
Proof. intros w. reflexivity. Qed.

Lemma sessions_emit_all l : preserves same_sessions (emit_all l).
Proof.
  induction l as [|e l IH]; simpl.
  - apply keep_ret, sessions_refl.
  - apply keep_bind; [exact sessions_trans | apply sessions_emit | intros _; exact IH].
Qed.

Lemma grows_emit_all l : preserves trace_grows (emit_all l).
Proof.
  induction l as [|e l IH]; simpl.
  - apply keep_ret, grows_refl.
  - apply keep_bind; [exact grows_trans | apply grows_emit | intros _; exact IH].
Qed.

Lemma client_emit_all l : preserves same_client (emit_all l).
Proof.
  induction l as [|e l IH]; simpl.
  - apply keep_ret, client_refl.
  - apply keep_bind; [exact client_trans | apply client_emit | intros _; exact IH].
Qed.

Lemma sessions_progress cb msg : preserves same_sessions (call_progress cb msg).
Proof.
  destruct cb; simpl; [apply sessions_emit_all | apply keep_ret, sessions_refl].
Qed.

Lemma grows_progress cb msg : preserves trace_grows (call_progress cb msg).
Proof.
  destruct cb; simpl; [apply grows_emit_all | apply keep_ret, grows_refl].
Qed.

Lemma client_progress cb msg : preserves same_client (call_progress cb msg).
Proof.
  destruct cb; simpl; [apply client_emit_all | apply keep_ret, client_refl].
Qed.

Lemma sessions_sleep d : preserves same_sessions (time_sleep d).
Proof. intros w. unfold time_sleep. now destruct (d <? 0)%Z. Qed.

Lemma grows_sleep d : preserves trace_grows (time_sleep d).
Proof.
  intros w. unfold time_sleep. destruct (d <? 0)%Z; simpl.
  - now exists [].
  - now exists [Slept d].
Qed.

Lemma client_sleep d : preserves same_client (time_sleep d).
Proof. intros w. unfold time_sleep. now destruct (d <? 0)%Z. Qed.

Lemma sessions_next_reply : preserves same_sessions next_reply.
Proof. intros w. reflexivity. Qed.

Lemma grows_next_reply : preserves trace_grows next_reply.
Proof. intros w. now exists []. Qed.

Lemma client_next_reply : preserves same_client next_reply.
Proof. intros w. reflexivity. Qed.

Lemma sessions_is_cancelled : preserves same_sessions is_cancelled.
Proof. intros w. reflexivity. Qed.

Lemma grows_is_cancelled : preserves trace_grows is_cancelled.
Proof. intros w. now exists []. Qed.

Lemma grows_session_opened : preserves trace_grows session_opened.
Proof. intros w. now exists []. Qed.

Lemma grows_session_closed : preserves trace_grows session_closed.
Proof. intros w. now exists []. Qed.

Lemma client_session_opened : preserves same_client session_opened.
Proof. intros w. reflexivity. Qed.

Lemma client_session_closed : preserves same_client session_closed.
Proof. intros w. reflexivity. Qed.

Lemma grows_set_client c : preserves trace_grows (set_client c).
Proof. intros w. now exists []. Qed.

Lemma sessions_set_client c : preserves same_sessions (set_client c).
Proof. intros w. reflexivity. Qed.

Lemma sessions_gui_call : preserves same_sessions gui_call.
Proof. intros w. unfold gui_call. now destruct (gui_faults w) as [|[e|] l]. Qed.

Lemma grows_gui_call : preserves trace_grows gui_call.
Proof.
  intros w. unfold gui_call.
  destruct (gui_faults w) as [|[e|] l]; now exists [].
Qed.

Lemma client_gui_call : preserves same_client gui_call.
Proof. intros w. unfold gui_call. now destruct (gui_faults w) as [|[e|] l]. Qed.

End KeepFacts.

Create HintDb keep discriminated.

#[local] Hint Resolve
  KeepFacts.sessions_refl KeepFacts.grows_refl KeepFacts.client_refl
  KeepFacts.sessions_emit KeepFacts.grows_emit KeepFacts.client_emit
  KeepFacts.sessions_emit_all KeepFacts.grows_emit_all KeepFacts.client_emit_all
  KeepFacts.sessions_progress KeepFacts.grows_progress KeepFacts.client_progress
  KeepFacts.sessions_sleep KeepFacts.grows_sleep KeepFacts.client_sleep
  KeepFacts.sessions_next_reply KeepFacts.grows_next_reply
  KeepFacts.client_next_reply KeepFacts.sessions_is_cancelled
  KeepFacts.grows_is_cancelled KeepFacts.grows_session_opened
  KeepFacts.grows_session_closed KeepFacts.client_session_opened
  KeepFacts.client_session_closed KeepFacts.grows_set_client
  KeepFacts.sessions_set_client KeepFacts.sessions_gui_call
  KeepFacts.grows_gui_call KeepFacts.client_gui_call : keep.

(** [keep refl trans] splits a goal [preserves R m] along the structure
    of [m]; [refl] and [trans] are the proofs that [R] is a preorder. *)
Ltac keep_step refl trans :=
  first
    [ assumption
    | progress cbv zeta
    | solve [auto with keep]
    | apply (KeepFacts.keep_ret _ refl)
    | apply (KeepFacts.keep_raise _ refl)
    | apply (KeepFacts.keep_lift _ refl)
    | apply (KeepFacts.keep_time_time _ refl)
    | apply (KeepFacts.keep_get_client _ refl)
    | apply (KeepFacts.keep_bind _ trans); [|intro]
    | apply (KeepFacts.keep_try_except _ trans); [|intro]
    | apply (KeepFacts.keep_try_finally _ trans)
    | apply (KeepFacts.keep_for_each _ refl trans); intro
    | match goal with
      | |- preserves _ (if ?b then _ else _) => destruct b
      | |- preserves _ (match ?x with _ => _ end) => destruct x
      end ].

Ltac keep refl trans := repeat keep_step refl trans.

Ltac keep_sessions := keep KeepFacts.sessions_refl KeepFacts.sessions_trans.
Ltac keep_trace := keep KeepFacts.grows_refl KeepFacts.grows_trans.
Ltac keep_client := keep KeepFacts.client_refl KeepFacts.client_trans.

Module ClientKeeps.

Lemma sessions_send_command c cmd : preserves same_sessions (SSH.send_command c cmd).
Proof. unfold SSH.send_command. keep_sessions. Qed.

Lemma grows_send_command c cmd : preserves trace_grows (SSH.send_command c cmd).
Proof. unfold SSH.send_command. keep_trace. Qed.

Lemma client_send_command c cmd : preserves same_client (SSH.send_command c cmd).
Proof. unfold SSH.send_command. keep_client. Qed.

Lemma sessions_send_timing c cmd :
  preserves same_sessions (SSH.send_command_timing c cmd).
Proof. unfold SSH.send_command_timing. keep_sessions. Qed.

Lemma grows_send_timing c cmd :
  preserves trace_grows (SSH.send_command_timing c cmd).
Proof. unfold SSH.send_command_timing. keep_trace. Qed.

Lemma client_send_timing c cmd :
  preserves same_client (SSH.send_command_timing c cmd).
Proof. unfold SSH.send_command_timing. keep_client. Qed.

Lemma grows_connect c : preserves trace_grows (SSH.connect c).
Proof. unfold SSH.connect. keep_trace. Qed.

Lemma grows_disconnect c : preserves trace_grows (SSH.disconnect c).
Proof. unfold SSH.disconnect. keep_trace. Qed.

Lemma client_connect c : preserves same_client (SSH.connect c).
Proof. unfold SSH.connect. keep_client. Qed.

Lemma client_disconnect c : preserves same_client (SSH.disconnect c).
Proof. unfold SSH.disconnect. keep_client. Qed.

End ClientKeeps.

#[local] Hint Resolve
  ClientKeeps.sessions_send_command ClientKeeps.grows_send_command
  ClientKeeps.client_send_command ClientKeeps.sessions_send_timing
  ClientKeeps.grows_send_timing ClientKeeps.client_send_timing
  ClientKeeps.grows_connect ClientKeeps.grows_disconnect
  ClientKeeps.client_connect ClientKeeps.client_disconnect : keep.

(** ** The session client *)

(** X8. In the dictionary that [get_system_info] builds, a later line
    replaces an earlier one with the same key: after one more line, a key
    maps to the trimmed value of that line when the line has a colon and
    its trimmed, lower-cased key is the one looked up, and to what it
    mapped to before otherwise. *)
Theorem system_info_last_line_wins (lines : list string) (line : string)
    (info : list (string * string)) (key : string) :
  dict_get key (SSH.system_info (lines ++ [line]) info)
  = if Text.contains ":" line
       && String.eqb key
            (Text.lower (Text.strip (fst (Text.partition_colon line))))
    then Some (Text.strip (snd (Text.partition_colon line)))
    else dict_get key (SSH.system_info lines info).
Proof.
  revert info. induction lines as [|l lines IH]; intros info.
  - simpl. destruct (Text.contains ":" line); [|reflexivity].
    destruct (Text.partition_colon line) as [k v]. simpl.
    now destruct (String.eqb key (Text.lower (Text.strip k))).
  - simpl. destruct (Text.contains ":" l).
    + destruct (Text.partition_colon l) as [k v]. apply IH.
    + apply IH.
Qed.

(** X9. [disconnect] never raises and is idempotent: it returns a client
    without connection, a second [disconnect] on that client changes
    nothing, and the number of open sessions goes down by one exactly when
    the client held a connection. *)
Theorem disconnect_is_idempotent (c : PANOSSSHClient) (w : World) :
  exists c' w',
    SSH.disconnect c w = (Ret c', w')
    /\ connection c' = false
    /\ SSH.disconnect c' w' = (Ret c', w')
    /\ live_sessions w'
       = if connection c then pred (live_sessions w) else live_sessions w.
Proof.
  unfold SSH.disconnect. destruct (connection c) eqn:Hc.
  - unfold bind, next_reply, emit, session_closed, ret.
    destruct (outcome match replies w with [] => lost | r :: _ => r end);
      simpl; eexists _, _; repeat split.
  - exists c, w. rewrite Hc. repeat split.
Qed.

(** X10. The second layer of a reachability attempt never raises, and it
    leaves its session open exactly when the device accepts the session
    and then fails the liveness command: [disconnect] is not reached on
    that path.  A successful attempt leaves no session behind. *)
Theorem probe_session_can_stay_open (h : string) (prt : Z) (u p : string)
    (w : World) :
  exists b w',
    ssh_check h prt u p w = (Ret b, w')
    /\ live_sessions w'
       = (if session_orphaned w then S (live_sessions w) else live_sessions w)
    /\ (b = true -> session_orphaned w = false).
Proof.
  unfold ssh_check, try_except, SSH.connect, SSH.send_command_timing,
    SSH.disconnect, bind, emit, next_reply, session_orphaned, session_opened,
    session_closed, raise, ret.
  destruct w as [gf t rs ps cs n c tr]; simpl.
  destruct rs as [|[d1 [o1|m1]] [|[d2 [o2|m2]] rs]]; simpl;
    try (eexists _, _; repeat split; discriminate).
  destruct rs as [|[d3 [o3|m3]] rs]; simpl; eexists _, _; repeat split.
Qed.

(** ** What computations can raise *)

Module RaiseFacts.

Section Raised.

Variable P : exn -> Prop.

Lemma ro_ret {A} (a : A) : raises_only P (ret a).
Proof. intros w e w' H. discriminate. Qed.

Lemma ro_raise {A} (e : exn) : P e -> raises_only P (@raise A e).
Proof. intros He w e' w' [= <- _]. exact He. Qed.

Lemma ro_bind {A B} (m : M A) (k : A -> M B) :
  raises_only P m -> (forall a, raises_only P (k a)) -> raises_only P (bind m k).
Proof.
  intros Hm Hk w e w'. unfold bind.
  destruct (m w) as [[a|e0|] w1] eqn:E.
  - apply Hk.
  - intros [= <- _]. exact (Hm _ _ _ E).
  - discriminate.
Qed.

Lemma ro_try_except {A} (m : M A) (h : exn -> M A) :
  (forall e, raises_only P (h e)) -> raises_only P (try_except m h).
Proof.
  intros Hh w e w'. unfold try_except.
  destruct (m w) as [[a|e0|] w1]; try discriminate. apply Hh.
Qed.

Lemma ro_try_finally {A} (m : M A) (f : M unit) :
  raises_only P m -> raises_only P f -> raises_only P (try_finally m f).
Proof.
  intros Hm Hf w e w'. unfold try_finally.
  destruct (m w) as [[a|e0|] w1] eqn:E; try discriminate;
    destruct (f w1) as [[[]|e1|] w2] eqn:F; try discriminate.
  - intros [= <- _]. exact (Hf _ _ _ F).
  - intros [= <- _]. exact (Hm _ _ _ E).
  - intros [= <- _]. exact (Hf _ _ _ F).
Qed.

Lemma ro_lift {A} (r : result A) :
  (forall e, r = Raise e -> P e) -> raises_only P (lift r).
Proof. intros H w e w' [= E _]. now apply H. Qed.

Lemma ro_quiet {A} (m : M A) :
  (forall w, exists a w', m w = (Ret a, w')) -> raises_only P m.
Proof. intros H w e w' E. destruct (H w) as (a & w1 & E1). congruence. Qed.

Lemma ro_emit e : raises_only P (emit e).
Proof. intros w e' w' H. discriminate. Qed.

Lemma ro_emit_all l : raises_only P (emit_all l).
Proof.
  induction l as [|e l IH]; simpl.
  - apply ro_ret.
  - apply ro_bind; [apply ro_emit | intros _; exact IH].
Qed.

Lemma ro_progress cb msg : raises_only P (call_progress cb msg).
Proof. destruct cb; simpl; [apply ro_emit_all | apply ro_ret]. Qed.

Lemma ro_time_time : raises_only P time_time.
Proof. intros w e w' H. discriminate. Qed.

Lemma ro_sleep d : (0 <= d)%Z -> raises_only P (time_sleep d).
Proof.
  intros Hd w e w'. unfold time_sleep. apply Z.ltb_ge in Hd. rewrite Hd.
  discriminate.
Qed.

Lemma ro_next_reply : raises_only P next_reply.
Proof. intros w e w' H. discriminate. Qed.

Lemma ro_next_probe : raises_only P next_probe.
Proof. intros w e w' H. discriminate. Qed.

Lemma ro_is_cancelled : raises_only P is_cancelled.
Proof. intros w e w' H. discriminate. Qed.

Lemma ro_session_opened : raises_only P session_opened.
Proof. intros w e w' H. discriminate. Qed.

Lemma ro_session_closed : raises_only P session_closed.
Proof. intros w e w' H. discriminate. Qed.

Lemma ro_get_client : raises_only P get_client.
Proof. intros w e w' H. discriminate. Qed.

Lemma ro_set_client c : raises_only P (set_client c).
Proof. intros w e w' H. discriminate. Qed.

Lemma ro_for_each {A} (l : list A) (body : A -> M unit) :
  (forall x, raises_only P (body x)) -> raises_only P (for_each l body).
Proof.
  intros H. induction l as [|x l IH]; simpl.
  - apply ro_ret.
  - apply ro_bind; [apply H | intros _; exact IH].
Qed.

Lemma ro_while {St A} (start_time timeout : Z)
    (body : St -> M (flow St A)) (after : M A) :
  (forall s, raises_only P (body s)) -> raises_only P after ->
  forall fuel s,
    raises_only P (while_elapsed fuel start_time timeout body after s).
Proof.
  intros Hbody Hafter. induction fuel as [|fuel IH]; intros s.
  - intros w e w' H. discriminate.
  - simpl. apply ro_bind; [apply ro_time_time|]. intros t.
    destruct (t - start_time <? timeout)%Z; [|exact Hafter].
    apply ro_bind; [apply Hbody|]. intros [s'|a]; [apply IH | apply ro_ret].
Qed.

(** The session operations raise transport errors, and the commands
    also the error of a missing connection. *)
Hypothesis transport : forall msg, P (TransportError msg).

Lemma ro_connect c : raises_only P (SSH.connect c).
Proof.
  unfold SSH.connect. apply ro_bind; [apply ro_next_reply|]. intros [o|msg].
  - apply ro_bind; [apply ro_session_opened|]. intros _.
    apply ro_bind; [apply ro_emit | intros _; apply ro_ret].
  - apply ro_bind; [apply ro_emit | intros _; apply ro_raise, transport].
Qed.

Hypothesis not_connected : P (RuntimeError "Not connected to firewall").

Lemma ro_send_command c cmd : raises_only P (SSH.send_command c cmd).
Proof.
  unfold SSH.send_command. destruct (connection c); [|now apply ro_raise].
  apply ro_bind; [apply ro_emit|]. intros _.
  apply ro_bind; [apply ro_next_reply|]. intros [o|msg]; [apply ro_ret|].
  apply ro_bind; [apply ro_emit | intros _; apply ro_raise, transport].
Qed.

Lemma ro_send_timing c cmd : raises_only P (SSH.send_command_timing c cmd).
Proof.
  unfold SSH.send_command_timing. destruct (connection c); [|now apply ro_raise].
  apply ro_bind; [apply ro_emit|]. intros _.
  apply ro_bind; [apply ro_next_reply|]. intros [o|msg]; [apply ro_ret|].
  apply ro_bind; [apply ro_emit | intros _; apply ro_raise, transport].
Qed.

End Raised.

Lemma ro_disconnect P c : raises_only P (SSH.disconnect c).
Proof.
  unfold SSH.disconnect. destruct (connection c); [|apply ro_ret].
  apply ro_bind; [apply ro_next_reply|]. intros a.
  apply ro_bind; [destruct a; apply ro_emit|]. intros _.
  apply ro_bind; [apply ro_session_closed | intros _; apply ro_ret].
Qed.

Lemma ro_weaken (P Q : exn -> Prop) {A} (m : M A) :
  (forall e, P e -> Q e) -> raises_only P m -> raises_only Q m.
Proof. intros H Hm w e w' E. apply H. exact (Hm _ _ _ E). Qed.

Lemma string_app_inv_head (a x y : string) : a ++ x = a ++ y -> x = y.
Proof.
  induction a as [|c a IH]; simpl; [auto|]. intros [= H]. now apply IH.
Qed.

End RaiseFacts.

(** [raising] splits a goal [raises_only P m] along the structure of
    [m]; the goals [P e] of the [raise] statements are left over. *)
Ltac raising_step :=
  first
    [ assumption
    | progress cbv zeta
    | apply RaiseFacts.ro_ret
    | apply RaiseFacts.ro_emit
    | apply RaiseFacts.ro_emit_all
    | apply RaiseFacts.ro_progress
    | apply RaiseFacts.ro_time_time
    | apply RaiseFacts.ro_next_reply
    | apply RaiseFacts.ro_next_probe
    | apply RaiseFacts.ro_is_cancelled
    | apply RaiseFacts.ro_get_client
    | apply RaiseFacts.ro_set_client
    | apply RaiseFacts.ro_disconnect
    | apply RaiseFacts.ro_sleep; lia
    | apply RaiseFacts.ro_bind; [|intro]
    | apply RaiseFacts.ro_try_except; intro
    | apply RaiseFacts.ro_try_finally
    | apply RaiseFacts.ro_for_each; intro
    | apply RaiseFacts.ro_raise
    | match goal with
      | |- raises_only _ (if ?b then _ else _) => destruct b
      | |- raises_only _ (match ?x with _ => _ end) => destruct x
      end ].

Ltac raising := repeat raising_step.

(** ** The job waiters and the clock *)

Module WaiterTiming.
Import SessionFacts UpgraderFacts.

(** A loop whose turns each take [d] seconds, and whose exit on the
    timeout does not return, returns no sooner than [d] seconds after it
    was entered. *)
Lemma while_returns_after {St A} (d start_time timeout : Z)
    (body : St -> M (flow St A)) (after : M A) :
  (forall s, returns_after d (body s)) ->
  (forall s, clock_mono (body s)) ->
  (forall w a w', after w <> (Ret a, w')) ->
  forall fuel s,
    returns_after d (while_elapsed fuel start_time timeout body after s).
Proof.
  intros Hd Hmono Hafter. induction fuel as [|fuel IH]; intros s w a w' H.
  - discriminate.
  - rewrite RunFacts.while_elapsed_step in H.
    destruct (now w - start_time <? timeout)%Z; [|now apply Hafter in H].
    destruct (body s w) as [[[s'|a']|e|] w1] eqn:E; try discriminate.
    + apply IH in H. pose proof (mono_at _ _ _ _ (Hmono s) E). lia.
    + injection H as <- <-. exact (Hd _ _ _ _ E).
Qed.

(** A loop raises the error of its timeout, which its turns never
    raise, only once the timeout has elapsed. *)
Lemma while_timeout_late {St A} (e : exn) (start_time timeout : Z)
    (body : St -> M (flow St A)) :
  (forall s, clock_mono (body s)) ->
  (forall s, raises_only (fun e' => e' <> e) (body s)) ->
  forall fuel s w w',
    while_elapsed fuel start_time timeout body (@raise A e) s w = (Raise e, w') ->
    (timeout <= now w' - start_time)%Z.
Proof.
  intros Hmono Hbody. induction fuel as [|fuel IH]; intros s w w' H.
  - discriminate.
  - rewrite RunFacts.while_elapsed_step in H.
    destruct (now w - start_time <? timeout)%Z eqn:C.
    + destruct (body s w) as [[[s'|a']|e'|] w1] eqn:E; try discriminate.
      * now apply IH in H.
      * injection H as -> _. now destruct (Hbody _ _ _ _ E).
    + injection H as <-. apply Z.ltb_ge in C. lia.
Qed.

Lemma mono_upgrader_download_turn self version s :
  clock_mono (PANOSUpgrader.download_turn self version s).
Proof. unfold PANOSUpgrader.download_turn. judge. Qed.

Lemma mono_upgrader_install_turn self version s :
  clock_mono (PANOSUpgrader.install_turn self version s).
Proof. unfold PANOSUpgrader.install_turn. judge. Qed.

Lemma mono_content_download_turn self s :
  clock_mono (ContentUpdater.download_turn self s).
Proof.
  unfold ContentUpdater.download_turn, ContentUpdater._update_progress. judge.
Qed.

Lemma mono_content_install_turn self s :
  clock_mono (ContentUpdater.install_turn self s).
Proof.
  unfold ContentUpdater.install_turn, ContentUpdater._update_progress. judge.
Qed.

Lemma after_content_download_turn self s :
  returns_after 10 (ContentUpdater.download_turn self s).
Proof.
  unfold ContentUpdater.download_turn, ContentUpdater._update_progress.
  apply RunFacts.after_sleep_then. judge.
Qed.

Lemma after_content_install_turn self s :
  returns_after 10 (ContentUpdater.install_turn self s).
Proof.
  unfold ContentUpdater.install_turn, ContentUpdater._update_progress.
  apply RunFacts.after_sleep_then. judge.
Qed.

Lemma raise_never_returns {A} (e : exn) (w : World) (a : A) (w' : World) :
  @raise A e w <> (Ret a, w').
Proof. discriminate. Qed.

End WaiterTiming.

Module WaiterErrors.
Import SessionFacts.

Lemma bind_raise_inv {A B} (m : M A) (k : A -> M B) w e w' :
  bind m k w = (Raise e, w') ->
  m w = (Raise e, w')
  \/ exists a w1, m w = (Ret a, w1) /\ k a w1 = (Raise e, w').
Proof.
  unfold bind. destruct (m w) as [[a|e0|] w1]; try discriminate.
  - intros H. right. now exists a, w1.
  - intros [= -> ->]. now left.
Qed.

Lemma require_client_run w r w' :
  PANOSUpgrader.require_client w = (r, w') ->
  w' = w /\ (r = Ret tt \/ r = Raise (RuntimeError "Not connected")).
Proof.
  unfold PANOSUpgrader.require_client, bind, get_client.
  destruct (client w); intros [= <- <-]; auto.
Qed.

Lemma download_turn_raises self version s :
  raises_only
    (fun e => e <> RuntimeError ("Download of " ++ version ++ " timed out"))
    (PANOSUpgrader.download_turn self version s).
Proof.
  unfold PANOSUpgrader.download_turn, PANOSUpgrader.self_client,
    PANOSUpgrader._update_progress.
  raising; try discriminate;
    try (apply RaiseFacts.ro_send_command; discriminate).
  intros [= H]. apply RaiseFacts.string_app_inv_head in H. discriminate.
Qed.

Lemma install_turn_raises self version s :
  raises_only
    (fun e => e <> RuntimeError ("Installation of " ++ version ++ " timed out"))
    (PANOSUpgrader.install_turn self version s).
Proof.
  unfold PANOSUpgrader.install_turn, PANOSUpgrader.install_status.
  raising.
Qed.

Lemma content_download_turn_raises self s :
  raises_only (fun e => e <> RuntimeError "Content download timed out")
    (ContentUpdater.download_turn self s).
Proof.
  unfold ContentUpdater.download_turn, ContentUpdater._update_progress.
  raising; try discriminate;
    try (apply RaiseFacts.ro_send_command; discriminate).
Qed.

Lemma content_install_turn_raises self s :
  raises_only (fun e => e <> RuntimeError "Content installation timed out")
    (ContentUpdater.install_turn self s).
Proof.
  unfold ContentUpdater.install_turn, ContentUpdater._update_progress.
  raising; try discriminate;
    try (apply RaiseFacts.ro_send_command; discriminate).
Qed.

End WaiterErrors.

(** X12. A job waiter raises its timeout error only once its budget has
    run out: when one of the four waiters ends with the "timed out"
    error, at least [timeout] seconds have passed since it was called. *)
Theorem waiters_time_out_late :
  (forall fuel self version timeout w w',
      PANOSUpgrader._wait_for_software_download fuel self version timeout w
      = (Raise (RuntimeError ("Download of " ++ version ++ " timed out")), w') ->
      (timeout <= now w' - now w)%Z)
  /\ (forall fuel self version timeout w w',
        PANOSUpgrader._wait_for_software_install fuel self version timeout w
        = (Raise (RuntimeError ("Installation of " ++ version ++ " timed out")),
           w') ->
        (timeout <= now w' - now w)%Z)
  /\ (forall fuel self timeout w w',
        ContentUpdater._wait_for_download_completion fuel self timeout w
        = (Raise (RuntimeError "Content download timed out"), w') ->
        (timeout <= now w' - now w)%Z)
  /\ (forall fuel self timeout w w',
        ContentUpdater._wait_for_install_completion fuel self timeout w
        = (Raise (RuntimeError "Content installation timed out"), w') ->
        (timeout <= now w' - now w)%Z).
Proof.
  split; [|split; [|split]].
  - intros fuel self version timeout w w' H.
    unfold PANOSUpgrader._wait_for_software_download in H.
    apply WaiterErrors.bind_raise_inv in H as [H|([] & w1 & E1 & H)].
    + apply WaiterErrors.require_client_run in H as [_ [H|H]]; discriminate.
    + apply WaiterErrors.require_client_run in E1 as [-> _].
      unfold bind at 1, time_time in H.
      apply WaiterTiming.while_timeout_late in H; [exact H| |].
      * intros s. apply WaiterTiming.mono_upgrader_download_turn.
      * intros s. apply WaiterErrors.download_turn_raises.
  - intros fuel self version timeout w w' H.
    unfold PANOSUpgrader._wait_for_software_install in H.
    apply WaiterErrors.bind_raise_inv in H as [H|([] & w1 & E1 & H)].
    + apply WaiterErrors.require_client_run in H as [_ [H|H]]; discriminate.
    + apply WaiterErrors.require_client_run in E1 as [-> _].
      unfold bind at 1, time_time in H.
      apply WaiterTiming.while_timeout_late in H; [exact H| |].
      * intros s. apply WaiterTiming.mono_upgrader_install_turn.
      * intros s. apply WaiterErrors.install_turn_raises.
  - intros fuel self timeout w w' H.
    unfold ContentUpdater._wait_for_download_completion, bind at 1, time_time in H.
    apply WaiterTiming.while_timeout_late in H; [exact H| |].
    + intros s. apply WaiterTiming.mono_content_download_turn.
    + intros s. apply WaiterErrors.content_download_turn_raises.
  - intros fuel self timeout w w' H.
    unfold ContentUpdater._wait_for_install_completion, bind at 1, time_time in H.
    apply WaiterTiming.while_timeout_late in H; [exact H| |].
    + intros s. apply WaiterTiming.mono_content_install_turn.
    + intros s. apply WaiterErrors.content_install_turn_raises.
Qed.

(** ** Steps of the upgrader on a known world *)

Module StepFacts.
Lemma bind_run {A B} (m : M A) (k : A -> M B) w a w1 :
  m w = (Ret a, w1) -> bind m k w = k a w1.
Proof. intros E. unfold bind. now rewrite E. Qed.

Lemma bind_raise {A B} (m : M A) (k : A -> M B) w e w1 :
  m w = (Raise e, w1) -> bind m k w = (Raise e, w1).
Proof. intros E. unfold bind. now rewrite E. Qed.

Lemma require_client_ok w c :
  client w = Some c -> PANOSUpgrader.require_client w = (Ret tt, w).
Proof. intros H. unfold PANOSUpgrader.require_client, bind, get_client. now rewrite H. Qed.

Lemma self_client_ok w c :
  client w = Some c -> PANOSUpgrader.self_client w = (Ret c, w).
Proof. intros H. unfold PANOSUpgrader.self_client, bind, get_client. now rewrite H. Qed.

Lemma send_command_text c cmd w d o rs :
  connection c = true -> replies w = mkReply d (Text o) :: rs ->
  SSH.send_command c cmd w
  = (Ret o, mkWorld (gui_faults w) (now w + Z.of_N d) rs (probes w) (cancels w)
              (live_sessions w) (client w) (Sent cmd :: trace w)).
Proof.
  intros Hc Hr. unfold SSH.send_command, bind, emit, next_reply. rewrite Hc.
  simpl. now rewrite Hr.
Qed.

Lemma send_timing_text c cmd w d o rs :
  connection c = true -> replies w = mkReply d (Text o) :: rs ->
  SSH.send_command_timing c cmd w
  = (Ret o, mkWorld (gui_faults w) (now w + Z.of_N d) rs (probes w) (cancels w)
              (live_sessions w) (client w) (SentTiming cmd :: trace w)).
Proof.
  intros Hc Hr. unfold SSH.send_command_timing, bind, emit, next_reply.
  rewrite Hc. simpl. now rewrite Hr.
Qed.

Lemma connect_text c w d o rs :
  replies w = mkReply d (Text o) :: rs ->
  SSH.connect c w
  = (Ret (SSH.with_connection c true),
     mkWorld (gui_faults w) (now w + Z.of_N d) rs (probes w) (cancels w)
       (S (live_sessions w)) (client w) (Opened (host c) :: trace w)).
Proof.
  intros Hr. unfold SSH.connect, bind, emit, next_reply, session_opened.
  simpl. now rewrite Hr.
Qed.

(** The closing of a connected client: what it leaves in the trace
    depends on the device, the rest does not. *)
Lemma disconnect_connected c w :
  connection c = true ->
  exists closing,
    SSH.disconnect c w
    = (Ret (SSH.with_connection c false),
       mkWorld (gui_faults w) (now w + Z.of_N (took match replies w with
                                      | [] => lost
                                      | r :: _ => r
                                      end))
         (tl (replies w)) (probes w) (cancels w) (pred (live_sessions w))
         (client w) (closing :: trace w)).
Proof.
  intros Hc. unfold SSH.disconnect, bind, emit, next_reply, session_closed.
  rewrite Hc. simpl.
  destruct (outcome match replies w with [] => lost | r :: _ => r end);
    eexists; reflexivity.
Qed.

Lemma upgrader_disconnect_run (self : PANOSUpgrader.t) w c :
  client w = Some c ->
  exists w',
    PANOSUpgrader.disconnect self w = (Ret tt, w')
    /\ client w' = None
    /\ live_sessions w'
       = (if connection c then pred (live_sessions w) else live_sessions w).
Proof.
  intros H. unfold PANOSUpgrader.disconnect, bind at 1, get_client. rewrite H.
  unfold SSH.disconnect. destruct (connection c).
  - unfold bind, next_reply, emit, session_closed, set_client, ret.
    destruct (outcome match replies w with [] => lost | r :: _ => r end);
      simpl; eexists; repeat split.
  - unfold bind, ret, set_client. simpl. eexists. repeat split.
Qed.

End StepFacts.

(** ** [reboot] *)

Module RebootFacts.
Import SessionFacts UpgraderFacts.

Lemma block_returns w :
  exists w1,
    reboot_block w = (Ret tt, w1)
    /\ client w1 = client w /\ live_sessions w1 = live_sessions w.
Proof.
  assert (preserves same_client reboot_block) as Kc
    by (unfold reboot_block, PANOSUpgrader.self_client; keep_client).
  assert (preserves same_sessions reboot_block) as Ks
    by (unfold reboot_block, PANOSUpgrader.self_client; keep_sessions).
  assert (total reboot_block) as Kt
    by (unfold reboot_block, PANOSUpgrader.self_client; judge).
  assert (raises_only (fun _ => False) reboot_block) as Kr
    by (unfold reboot_block; raising).
  specialize (Kc w). specialize (Ks w). specialize (Kt w).
  destruct (reboot_block w) as [[[]|e|] w1] eqn:E; simpl in Kc, Ks, Kt.
  - exists w1. auto.
  - now destruct (Kr _ _ _ E).
  - now contradiction Kt.
Qed.

End RebootFacts.

(** X13. On an upgrader that holds a client, [reboot] never raises,
    whatever the device answers to the restart command and its
    confirmation: it returns with the client dropped and, when the client
    was connected, its session closed. *)
Theorem reboot_always_disconnects (self : PANOSUpgrader.t)
    (c : PANOSSSHClient) (w : World) :
  client w = Some c ->
  exists w',
    PANOSUpgrader.reboot self w = (Ret tt, w')
    /\ client w' = None
    /\ live_sessions w'
       = (if connection c then pred (live_sessions w) else live_sessions w).
Proof.
  intros Hc. unfold PANOSUpgrader.reboot.
  rewrite (StepFacts.bind_run _ _ _ _ _ (StepFacts.require_client_ok w c Hc)).
  unfold PANOSUpgrader._update_progress.
  rewrite (StepFacts.bind_run _ _ _ _ _ (WaiterFacts.call_progress_run _ _ w)).
  set (w0 := add_trace _ w).
  destruct (RebootFacts.block_returns w0) as (w1 & E & Kc & Ks).
  fold reboot_block.
  rewrite (StepFacts.bind_run _ _ _ _ _ E).
  destruct (StepFacts.upgrader_disconnect_run self w1 c)
    as (w' & Ed & Hn & Hs); [now rewrite Kc|].
  exists w'. rewrite Ed, Hn, Hs, Ks. auto.
Qed.

Lemma reboot_always_disconnects_witness :
  exists w',
    PANOSUpgrader.reboot Scenario.upgrader Scenario.install_fails = (Ret tt, w')
    /\ client w' = None
    /\ live_sessions w' = 0.
Proof.
  exact (reboot_always_disconnects Scenario.upgrader Scenario.connected
           Scenario.install_fails eq_refl).
Defined.

(** ** A device that needs no upgrade *)

Module CurrentDevice.

Lemma planner_nothing_to_do fuel current target vc vt :
  Version.parse current = Ret vc ->
  Version.parse target = Ret vt ->
  Version.ge vc vt = true ->
  get_upgrade_path fuel current target = Ret [].
Proof.
  intros Hc Ht Hge. unfold get_upgrade_path. rewrite Hc, Ht. simpl.
  now rewrite Hge.
Qed.

Lemma upgrader_connect_run (self : PANOSUpgrader.t) w d o rs :
  replies w = mkReply d (Text o) :: rs ->
  PANOSUpgrader.connect self w
  = (Ret tt,
     mkWorld (gui_faults w) (now w + Z.of_N d) rs (probes w) (cancels w)
       (S (live_sessions w))
       (Some (mkClient (PANOSUpgrader.host self) (PANOSUpgrader.username self)
                (PANOSUpgrader.password self) 22 60 true))
       (Opened (PANOSUpgrader.host self)
        :: shown (PANOSUpgrader.progress_callback self)
             ("Connecting to " ++ PANOSUpgrader.host self ++ "...")
        ++ trace w)%list).
Proof.
  intros Hr. unfold PANOSUpgrader.connect, PANOSUpgrader._update_progress.
  rewrite (StepFacts.bind_run _ _ _ _ _ (WaiterFacts.call_progress_run _ _ w)).
  cbv zeta.
  unfold bind at 1. unfold set_client at 1.
  erewrite StepFacts.bind_run
    by (apply StepFacts.connect_text with (d := d) (o := o) (rs := rs);
        exact Hr).
  reflexivity.
Qed.

Lemma get_panos_version_run c w d info rs :
  connection c = true ->
  replies w = mkReply d (Text info) :: rs ->
  SSH.get_panos_version c w
  = (Ret (sw_version info),
     mkWorld (gui_faults w) (now w + Z.of_N d) rs (probes w) (cancels w) (live_sessions w)
       (client w) (Sent "show system info" :: trace w)).
Proof.
  intros Hconn Hr. unfold SSH.get_panos_version, SSH.get_system_info, bind.
  now rewrite (StepFacts.send_command_text c _ w d info rs Hconn Hr).
Qed.

Lemma get_current_version_run (self : PANOSUpgrader.t) w c d info rs :
  client w = Some c -> connection c = true ->
  replies w = mkReply d (Text info) :: rs ->
  PANOSUpgrader.get_current_version self w
  = (Ret (sw_version info),
     mkWorld (gui_faults w) (now w + Z.of_N d) rs (probes w) (cancels w) (live_sessions w)
       (client w)
       (shown (PANOSUpgrader.progress_callback self)
          ("Current PAN-OS version: " ++ sw_version info)
        ++ Sent "show system info" :: trace w)%list).
Proof.
  intros Hc Hconn Hr. unfold PANOSUpgrader.get_current_version.
  rewrite (StepFacts.bind_run _ _ _ _ _ (StepFacts.require_client_ok w c Hc)).
  rewrite (StepFacts.bind_run _ _ _ _ _ (StepFacts.self_client_ok w c Hc)).
  rewrite (StepFacts.bind_run _ _ _ _ _
             (get_panos_version_run c w d info rs Hconn Hr)).
  unfold PANOSUpgrader._update_progress.
  rewrite (StepFacts.bind_run _ _ _ _ _ (WaiterFacts.call_progress_run _ _ _)).
  reflexivity.
Qed.

End CurrentDevice.

(** X14. When the version the device reports is already at or past the
    target, [upgrade_to_version] returns [True] for any fuel after exactly
    three exchanges with the device: opening the session, one
    [show system info], closing the session.  No software command is sent,
    no client is kept and no session stays open. *)
Theorem upgrade_leaves_current_device_alone (fuel : nat)
    (self : PANOSUpgrader.t) (target_version : string) (w : World)
    (d1 d2 : N) (o1 info : string) (rest : list reply)
    (current target : Version.t) :
  replies w = mkReply d1 (Text o1) :: mkReply d2 (Text info) :: rest ->
  Version.parse (sw_version info) = Ret current ->
  Version.parse target_version = Ret target ->
  Version.ge current target = true ->
  exists w' closing,
    PANOSUpgrader.upgrade_to_version fuel self target_version w = (Ret true, w')
    /\ replies w' = tl rest
    /\ client w' = None
    /\ live_sessions w' = live_sessions w
    /\ trace w'
       = (closing
          :: shown (PANOSUpgrader.progress_callback self)
               ("Already at version " ++ sw_version info
                ++ ", no upgrade needed")
          ++ shown (PANOSUpgrader.progress_callback self)
               ("Current PAN-OS version: " ++ sw_version info)
          ++ Sent "show system info"
          :: Opened (PANOSUpgrader.host self)
          :: shown (PANOSUpgrader.progress_callback self)
               ("Connecting to " ++ PANOSUpgrader.host self ++ "...")
          ++ trace w)%list.
Proof.
  intros Hr Hc Ht Hge.
  set (cb := PANOSUpgrader.progress_callback self).
  assert (exists w3,
    PANOSUpgrader.upgrade_body fuel self target_version w = (Ret true, w3)
    /\ replies w3 = rest
    /\ client w3
       = Some (mkClient (PANOSUpgrader.host self) (PANOSUpgrader.username self)
                 (PANOSUpgrader.password self) 22 60 true)
    /\ live_sessions w3 = S (live_sessions w)
    /\ trace w3
       = (shown cb ("Already at version " ++ sw_version info
                    ++ ", no upgrade needed")
          ++ shown cb ("Current PAN-OS version: "
                       ++ sw_version info)
          ++ Sent "show system info"
          :: Opened (PANOSUpgrader.host self)
          :: shown cb ("Connecting to " ++ PANOSUpgrader.host self ++ "...")
          ++ trace w)%list) as (w3 & Eb & Hr3 & Hc3 & Hs3 & Ht3).
  { unfold PANOSUpgrader.upgrade_body.
    rewrite (StepFacts.bind_run _ _ _ _ _
               (CurrentDevice.upgrader_connect_run self w d1 o1 _ Hr)).
    erewrite StepFacts.bind_run
      by (eapply CurrentDevice.get_current_version_run; reflexivity).
    unfold bind at 1, lift at 1.
    rewrite (CurrentDevice.planner_nothing_to_do fuel _ _ _ _ Hc Ht Hge).
    unfold PANOSUpgrader._update_progress.
    rewrite (StepFacts.bind_run _ _ _ _ _
               (WaiterFacts.call_progress_run _ _ _)).
    eexists. split; [reflexivity|]. repeat split. }
  unfold PANOSUpgrader.upgrade_to_version, try_finally, try_except.
  rewrite Eb.
  unfold PANOSUpgrader.disconnect, bind at 1, get_client. rewrite Hc3.
  destruct (StepFacts.disconnect_connected
              (mkClient (PANOSUpgrader.host self) (PANOSUpgrader.username self)
                 (PANOSUpgrader.password self) 22 60 true) w3 eq_refl)
    as (closing & Ed).
  rewrite (StepFacts.bind_run _ _ _ _ _ Ed). unfold set_client.
  eexists _, closing. split; [reflexivity|]. simpl.
  rewrite Hr3, Hs3, Ht3. repeat split.
Qed.

Lemma upgrade_leaves_current_device_alone_witness :
  exists w' closing,
    PANOSUpgrader.upgrade_to_version 0 Scenario.upgrader "11.1.4-h2"
      MoreScenarios.at_11_1_4 = (Ret true, w')
    /\ replies w' = []
    /\ client w' = None
    /\ live_sessions w' = 0
    /\ trace w'
       = [closing; Sent "show system info"; Opened "10.0.0.1"].
Proof.
  exact (upgrade_leaves_current_device_alone 0 Scenario.upgrader "11.1.4-h2"
           MoreScenarios.at_11_1_4 0 0 "" "sw-version: 11.1.4"
           [Scenario.says ""]
           (Version.mk 11 1 4 "11.1.4") (Version.mk 11 1 4 "11.1.4-h2")
           eq_refl eq_refl eq_refl eq_refl).
Defined.

(** ** The configurator *)

Ltac judge_more :=
  repeat first
    [ judge_step
    | apply RunFacts.total_try_finally
    | apply RunFacts.total_for_each; intro ].

Module ConfiguratorFacts.
Import SessionFacts.

Lemma commands_app l1 l2 :
  commands (l1 ++ l2) = (commands l1 ++ commands l2)%list.
Proof. unfold commands. apply flat_map_app. Qed.

Lemma commands_timing c l : commands (SentTiming c :: l) = c :: commands l.
Proof. reflexivity. Qed.

Lemma commands_sent c l : commands (Sent c :: l) = c :: commands l.
Proof. reflexivity. Qed.

Lemma commands_display l : forallb is_display l = true -> commands l = [].
Proof.
  induction l as [|e l IH]; simpl; [reflexivity|].
  intros H. apply andb_true_iff in H as [He Hl].
  destruct e; try discriminate; simpl; auto.
Qed.

Lemma commands_shown cb msg : display_only cb -> commands (shown cb msg) = [].
Proof. intros H. apply commands_display, H. Qed.

(** A command on a connected client is recorded, whatever comes back. *)
Lemma send_timing_commands c cmd w r w' :
  connection c = true ->
  SSH.send_command_timing c cmd w = (r, w') ->
  commands (trace w') = cmd :: commands (trace w).
Proof.
  intros Hc. unfold SSH.send_command_timing, bind, emit, next_reply, ret, raise.
  rewrite Hc. simpl.
  destruct (outcome match replies w with [] => lost | r0 :: _ => r0 end);
    intros [= <- <-]; reflexivity.
Qed.

Lemma bracket cb c msg (body : M unit) :
  connection c = true ->
  display_only cb ->
  total body ->
  preserves trace_grows body ->
  leaves_configure_mode
    (call_progress cb msg ;;
     _ <- SSHConfig.enter_configure_mode c ;;
     try_finally body (_ <- SSHConfig.exit_configure_mode c ;; ret tt)).
Proof.
  intros Hc Hcb Ht Hg w d o rest r w' Hr.
  rewrite (StepFacts.bind_run _ _ _ _ _ (WaiterFacts.call_progress_run _ _ w)).
  unfold SSHConfig.enter_configure_mode.
  erewrite StepFacts.bind_run
    by (apply StepFacts.send_timing_text with (d := d) (o := o) (rs := rest);
        [exact Hc | exact Hr]).
  match goal with |- try_finally _ _ ?x = _ -> _ => set (w1 := x) end.
  unfold try_finally. specialize (Ht w1). specialize (Hg w1).
  destruct (body w1) as [[[]|e|] w2]; simpl in Ht, Hg;
    try (now contradiction Ht);
    destruct Hg as (l & Hl);
    unfold SSHConfig.exit_configure_mode, bind at 1;
    destruct (SSH.send_command_timing c "exit" w2) as [[x|e'|] w3] eqn:E;
    apply (send_timing_commands _ _ _ _ _ Hc) in E;
    unfold ret; intros [= <- <-]; exists (commands l);
    rewrite E, Hl, commands_app; subst w1; simpl trace;
    rewrite commands_timing, commands_app, (commands_shown _ _ Hcb);
    reflexivity.
Qed.

End ConfiguratorFacts.

#[local] Hint Resolve
  SessionFacts.total_connect SessionFacts.total_disconnect
  SessionFacts.total_send_command SessionFacts.total_send_command_timing
  SessionFacts.mono_connect SessionFacts.mono_disconnect
  SessionFacts.mono_send_command SessionFacts.mono_send_command_timing : run.

(** X15. On a connected client, each of the three setters of
    [FirewallConfigurator] leaves configuration mode once the device has
    taken [configure]: whether the setting is accepted, rejected, or the
    transport breaks, the last command sent is [exit]. *)
Theorem setters_leave_configure_mode (self : FirewallConfigurator.t)
    (ip_address subnet_mask gateway primary_dns new_password : string)
    (secondary_dns : option string) :
  connection (FirewallConfigurator.client self) = true ->
  display_only (FirewallConfigurator.progress_callback self) ->
  leaves_configure_mode
    (FirewallConfigurator.set_management_ip self ip_address subnet_mask gateway)
  /\ leaves_configure_mode
       (FirewallConfigurator.set_dns_servers self primary_dns secondary_dns)
  /\ leaves_configure_mode
       (FirewallConfigurator.change_admin_password self new_password).
Proof.
  intros Hc Hcb.
  repeat split;
    apply ConfiguratorFacts.bracket; try assumption;
    unfold FirewallConfigurator._update_progress;
    first [ solve [judge_more] | solve [keep_trace] ].
Qed.

Lemma setters_leave_configure_mode_witness :
  leaves_configure_mode
    (FirewallConfigurator.set_management_ip ConfigScenario.configurator
       "10.0.0.1" "255.255.255.0" "10.0.0.254")
  /\ leaves_configure_mode
       (FirewallConfigurator.set_dns_servers ConfigScenario.configurator
          "8.8.8.8" None)
  /\ leaves_configure_mode
       (FirewallConfigurator.change_admin_password ConfigScenario.configurator
          "secret").
Proof.
  exact (setters_leave_configure_mode ConfigScenario.configurator
           "10.0.0.1" "255.255.255.0" "10.0.0.254" "8.8.8.8" "secret" None
           eq_refl (fun _ => eq_refl)).
Defined.

Module RejectedFacts.

Lemma send_timing_fault c cmd w d msg rs :
  connection c = true -> replies w = mkReply d (Fault msg) :: rs ->
  SSH.send_command_timing c cmd w
  = (Raise (TransportError msg),
     mkWorld (gui_faults w) (now w + Z.of_N d) rs (probes w) (cancels w)
       (live_sessions w) (client w)
       (LogError ("Command failed: " ++ msg) :: SentTiming cmd :: trace w)).
Proof.
  intros Hc Hr. unfold SSH.send_command_timing, bind, emit, next_reply.
  rewrite Hc. simpl. now rewrite Hr.
Qed.

Lemma set_management_ip_rejected (self : FirewallConfigurator.t)
    ip_address subnet_mask gateway w d0 o0 d1 o1 on_exit rest :
  connection (FirewallConfigurator.client self) = true ->
  display_only (FirewallConfigurator.progress_callback self) ->
  replies w = mkReply d0 (Text o0) :: mkReply d1 (Text o1) :: on_exit :: rest ->
  FirewallConfigurator.rejected o1 = true ->
  exists w',
    FirewallConfigurator.set_management_ip self ip_address subnet_mask gateway w
    = (Raise (rejection_reported ip_address o1 on_exit), w')
    /\ replies w' = rest
    /\ commands (trace w')
       = (["exit"; ("set deviceconfig system ip-address " ++ ip_address)%string;
           "configure"] ++ commands (trace w))%list.
Proof.
  intros Hc Hcb Hr Hrej.
  unfold FirewallConfigurator.set_management_ip,
    FirewallConfigurator._update_progress.
  rewrite (StepFacts.bind_run _ _ _ _ _ (WaiterFacts.call_progress_run _ _ w)).
  unfold SSHConfig.enter_configure_mode.
  erewrite StepFacts.bind_run
    by (eapply StepFacts.send_timing_text; [exact Hc | exact Hr]).
  cbv zeta. unfold try_finally. simpl for_each.
  erewrite StepFacts.bind_raise; cycle 1.
  { erewrite StepFacts.bind_raise; [reflexivity|].
    erewrite StepFacts.bind_run
      by (eapply StepFacts.send_timing_text; [exact Hc | reflexivity]).
    rewrite Hrej. reflexivity. }
  unfold SSHConfig.exit_configure_mode, rejection_reported.
  destruct on_exit as [dx [ox|mx]]; simpl outcome.
  - erewrite StepFacts.bind_run
      by (eapply StepFacts.send_timing_text; [exact Hc | reflexivity]).
    eexists. split; [reflexivity|]. split; [reflexivity|].
    simpl. now rewrite ConfiguratorFacts.commands_app,
      (ConfiguratorFacts.commands_shown _ _ Hcb).
  - erewrite StepFacts.bind_raise
      by (eapply send_timing_fault; [exact Hc | reflexivity]).
    eexists. split; [reflexivity|]. split; [reflexivity|].
    simpl. now rewrite ConfiguratorFacts.commands_app,
      (ConfiguratorFacts.commands_shown _ _ Hcb).
Qed.

End RejectedFacts.

(** X16. When the device takes [configure] and rejects the new address,
    [perform_initial_setup] raises after three commands: [configure], the
    address and [exit].  No later setting is sent and nothing is committed;
    what is raised is the rejection, or the transport error of [exit] when
    that fails too. *)
Theorem rejected_address_stops_setup (self : FirewallConfigurator.t)
    (new_ip subnet_mask gateway new_password : string)
    (dns_servers : list string) (w : World) (d0 d1 : N) (o0 o1 : string)
    (on_exit : reply) (rest : list reply) :
  connection (FirewallConfigurator.client self) = true ->
  display_only (FirewallConfigurator.progress_callback self) ->
  replies w = mkReply d0 (Text o0) :: mkReply d1 (Text o1) :: on_exit :: rest ->
  FirewallConfigurator.rejected o1 = true ->
  exists w',
    FirewallConfigurator.perform_initial_setup self new_ip subnet_mask gateway
      dns_servers new_password w
    = (Raise (rejection_reported new_ip o1 on_exit), w')
    /\ replies w' = rest
    /\ commands (trace w')
       = (["exit"; ("set deviceconfig system ip-address " ++ new_ip)%string;
           "configure"] ++ commands (trace w))%list.
Proof.
  intros Hc Hcb Hr Hrej.
  unfold FirewallConfigurator.perform_initial_setup,
    FirewallConfigurator._update_progress.
  rewrite (StepFacts.bind_run _ _ _ _ _ (WaiterFacts.call_progress_run _ _ w)).
  destruct (RejectedFacts.set_management_ip_rejected self new_ip subnet_mask
              gateway (add_trace
                         (shown (FirewallConfigurator.progress_callback self)
                            "Starting initial configuration...") w)
              d0 o0 d1 o1 on_exit rest Hc Hcb Hr Hrej)
    as (w' & E & Hrest & Hcmd).
  exists w'. rewrite (StepFacts.bind_raise _ _ _ _ _ E).
  split; [reflexivity|]. split; [exact Hrest|].
  rewrite Hcmd. simpl trace.
  now rewrite ConfiguratorFacts.commands_app,
    (ConfiguratorFacts.commands_shown _ _ Hcb).
Qed.

Lemma rejected_address_stops_setup_witness :
  exists w',
    FirewallConfigurator.perform_initial_setup ConfigScenario.configurator
      "10.0.0.1" "255.255.255.0" "10.0.0.254" ["8.8.8.8"] "secret"
      ConfigScenario.address_rejected
    = (Raise (RuntimeError
                ("Command failed: set deviceconfig system ip-address 10.0.0.1"
                 ++ FirewallConfigurator.nl ++ "Output: Invalid syntax.")),
       w')
    /\ replies w' = [Scenario.says "never read"]
    /\ commands (trace w')
       = ["exit"; "set deviceconfig system ip-address 10.0.0.1"; "configure"].
Proof.
  exact (rejected_address_stops_setup ConfigScenario.configurator
           "10.0.0.1" "255.255.255.0" "10.0.0.254" "secret" ["8.8.8.8"]
           ConfigScenario.address_rejected 0 0 "" "Invalid syntax."
           (Scenario.says "") [Scenario.says "never read"]
           eq_refl (fun _ => eq_refl) eq_refl eq_refl).
Defined.

(** ** Sessions scoped by [finally] *)

Module ScopeFacts.

Lemma total_scope {A} c (body : PANOSSSHClient -> M A) handler :
  (forall c', total (body c')) -> (forall e, total (handler e)) ->
  total (session_scope c body handler).
Proof.
  intros Hb Hh w. unfold session_scope.
  pose proof (SessionFacts.total_connect c w) as Hc.
  destruct (SSH.connect c w) as [[c'|e|] w1]; simpl in Hc.
  - apply RunFacts.total_try_finally; judge.
  - apply RunFacts.total_try_finally; judge.
  - now contradiction Hc.
Qed.

Lemma ro_scope {A} (P : exn -> Prop) c (body : PANOSSSHClient -> M A) handler :
  (forall e, raises_only P (handler e)) ->
  raises_only P (session_scope c body handler).
Proof.
  intros Hh w e w'. unfold session_scope.
  destruct (SSH.connect c w) as [[c'|e0|] w1]; [| |discriminate];
    apply RaiseFacts.ro_try_finally; raising; apply Hh.
Qed.

(** What [connect] does to the count of sessions and to the handle. *)
Lemma connect_sessions c w :
  match SSH.connect c w with
  | (Ret c', w1) =>
      connection c' = true /\ live_sessions w1 = S (live_sessions w)
  | (_, w1) => live_sessions w1 = live_sessions w
  end.
Proof.
  unfold SSH.connect, bind, next_reply, session_opened, emit, ret, raise.
  destruct (outcome match replies w with [] => lost | r :: _ => r end);
    simpl; auto.
Qed.

Lemma disconnect_sessions c w :
  fst (SSH.disconnect c w) <> OutOfFuel
  /\ (forall e, fst (SSH.disconnect c w) <> Raise e)
  /\ live_sessions (snd (SSH.disconnect c w))
     = (if connection c then pred (live_sessions w) else live_sessions w).
Proof.
  unfold SSH.disconnect, bind, next_reply, session_closed, emit, ret.
  destruct (connection c); simpl.
  - destruct (outcome match replies w with [] => lost | r :: _ => r end);
      simpl; repeat split; discriminate.
  - repeat split; discriminate.
Qed.

(** A scoped session is closed on every way out of the scope. *)
Lemma scope_releases {A} c (body : PANOSSSHClient -> M A) handler :
  connection c = false ->
  (forall c', preserves same_sessions (body c')) ->
  (forall e, preserves same_sessions (handler e)) ->
  releases_sessions (session_scope c body handler).
Proof.
  intros Hc Hb Hh w r w'. unfold session_scope.
  pose proof (connect_sessions c w) as Hcs.
  destruct (SSH.connect c w) as [[c'|e|] w1]; [| |now intros [= <- _]].
  - destruct Hcs as [Hc' Hs1]. unfold try_finally.
    assert (preserves same_sessions (try_except (body c') handler)) as Hk
      by (apply KeepFacts.keep_try_except;
          [exact KeepFacts.sessions_trans | apply Hb | apply Hh]).
    specialize (Hk w1).
    destruct (try_except (body c') handler w1) as [[a|e|] w2]; simpl in Hk;
      [| |now intros [= <- _]];
      unfold bind, ret;
      destruct (disconnect_sessions c' w2) as (Hf & Hr & Hs);
      rewrite Hc' in Hs;
      destruct (SSH.disconnect c' w2) as [[x|e'|] w3]; simpl in Hf, Hr, Hs;
      try (now contradiction Hf); try (now contradiction (Hr e'));
      intros [= <- <-] _; unfold same_sessions in Hk; lia.
  - unfold try_finally. pose proof (Hh e w1) as Hk.
    destruct (handler e w1) as [[a|e1|] w2]; simpl in Hk;
      [| |now intros [= <- _]];
      unfold bind, ret;
      destruct (disconnect_sessions c w2) as (Hf & Hr & Hs);
      rewrite Hc in Hs;
      destruct (SSH.disconnect c w2) as [[x|e'|] w3]; simpl in Hf, Hr, Hs;
      try (now contradiction Hf); try (now contradiction (Hr e'));
      intros [= <- <-] _; unfold same_sessions in Hk; lia.
Qed.

Lemma releases_after {A B} (m : M A) (k : A -> M B) :
  preserves same_sessions m ->
  (forall a, releases_sessions (k a)) ->
  releases_sessions (bind m k).
Proof.
  intros Hm Hk w r w'. unfold bind. specialize (Hm w).
  destruct (m w) as [[a|e|] w1]; simpl in Hm; unfold same_sessions in Hm.
  - intros E Hr. rewrite (Hk a _ _ _ E Hr). exact Hm.
  - now intros [= <- <-] _.
  - now intros [= <- _].
Qed.

(** *** What the bodies of the scopes keep *)

Lemma sessions_commit c : preserves same_sessions (SSHConfig.commit c).
Proof. unfold SSHConfig.commit. keep_sessions. Qed.

Lemma sessions_fetch_licenses self :
  preserves same_sessions (LicenseManager.fetch_licenses self).
Proof.
  unfold LicenseManager.fetch_licenses, LicenseManager._update_progress.
  keep_sessions.
Qed.

Lemma sessions_license_attempt lm cb attempt max_retries retry_delay :
  preserves same_sessions (license_attempt lm cb attempt max_retries retry_delay).
Proof.
  pose proof (sessions_fetch_licenses lm).
  unfold license_attempt, LicenseManager.verify_licenses_active,
    LicenseManager.get_license_info, LicenseManager._update_progress.
  keep_sessions.
Qed.

Lemma sessions_license_attempts remaining lm cb :
  forall attempt max_retries retry_delay last_error,
    preserves same_sessions
      (license_attempts remaining lm cb attempt max_retries retry_delay
         last_error).
Proof.
  induction remaining as [|n IH]; intros; simpl.
  - keep_sessions.
  - apply KeepFacts.keep_bind;
      [exact KeepFacts.sessions_trans | apply sessions_license_attempt|].
    intros [e|b]; [apply IH | keep_sessions].
Qed.

Lemma sessions_content_download fuel self timeout :
  preserves same_sessions (ContentUpdater.download_latest_content fuel self timeout).
Proof.
  assert (preserves same_sessions
            (ContentUpdater._wait_for_download_completion fuel self timeout)).
  { unfold ContentUpdater._wait_for_download_completion.
    apply KeepFacts.keep_bind;
      [exact KeepFacts.sessions_trans | keep_sessions|].
    intros t. apply KeepFacts.keep_while;
      [exact KeepFacts.sessions_refl | exact KeepFacts.sessions_trans | |
       keep_sessions].
    intros []. unfold ContentUpdater.download_turn,
      ContentUpdater._update_progress. keep_sessions. }
  unfold ContentUpdater.download_latest_content,
    ContentUpdater._update_progress. keep_sessions.
Qed.

Lemma sessions_content_install fuel self timeout :
  preserves same_sessions (ContentUpdater.install_latest_content fuel self timeout).
Proof.
  assert (preserves same_sessions
            (ContentUpdater._wait_for_install_completion fuel self timeout)).
  { unfold ContentUpdater._wait_for_install_completion.
    apply KeepFacts.keep_bind;
      [exact KeepFacts.sessions_trans | keep_sessions|].
    intros t. apply KeepFacts.keep_while;
      [exact KeepFacts.sessions_refl | exact KeepFacts.sessions_trans | |
       keep_sessions].
    intros []. unfold ContentUpdater.install_turn,
      ContentUpdater._update_progress. keep_sessions. }
  unfold ContentUpdater.install_latest_content,
    ContentUpdater._update_progress. keep_sessions.
Qed.

Lemma sessions_phase_failed number title what e :
  preserves same_sessions (SetupPhases.phase_failed number title what e).
Proof. unfold SetupPhases.phase_failed. keep_sessions. Qed.

Lemma sessions_status msg :
  preserves same_sessions (FirewallSetupOrchestrator._update_progress msg).
Proof. unfold FirewallSetupOrchestrator._update_progress. keep_sessions. Qed.

Lemma sessions_setters (self : FirewallConfigurator.t) :
  (forall ip mask gw,
     preserves same_sessions
       (FirewallConfigurator.set_management_ip self ip mask gw))
  /\ (forall p s,
        preserves same_sessions (FirewallConfigurator.set_dns_servers self p s))
  /\ (forall pw,
        preserves same_sessions
          (FirewallConfigurator.change_admin_password self pw))
  /\ preserves same_sessions (FirewallConfigurator.commit_configuration self).
Proof.
  pose proof (sessions_commit (FirewallConfigurator.client self)).
  repeat split; intros;
    unfold FirewallConfigurator.set_management_ip,
      FirewallConfigurator.set_dns_servers,
      FirewallConfigurator.change_admin_password,
      FirewallConfigurator.commit_configuration,
      FirewallConfigurator._update_progress,
      SSHConfig.enter_configure_mode, SSHConfig.exit_configure_mode;
    keep_sessions.
Qed.

End ScopeFacts.

(** X17. The first and the third phase of the orchestrator and the three
    high-level helpers [configure_firewall], [fetch_and_verify_licenses]
    and [update_firewall_content] close the session they open: whenever one
    of them ends, by returning or by raising, as many sessions are open as
    when it started. *)
Theorem scoped_sessions_are_released :
  (forall config net,
     releases_sessions (SetupPhases._phase1_initial_config config net))
  /\ (forall fuel config,
        releases_sessions (SetupPhases._phase3_content_update fuel config))
  /\ (forall h new_ip subnet_mask gateway dns_servers new_password u p cb,
        releases_sessions
          (configure_firewall h new_ip subnet_mask gateway dns_servers
             new_password u p cb))
  /\ (forall h u p cb max_retries retry_delay,
        releases_sessions
          (fetch_and_verify_licenses h u p cb max_retries retry_delay))
  /\ (forall fuel h u p cb,
        releases_sessions (update_firewall_content fuel h u p cb)).
Proof.
  repeat split; intros.
  - unfold SetupPhases._phase1_initial_config.
    apply ScopeFacts.releases_after; [apply ScopeFacts.sessions_status|].
    intros _.
    apply ScopeFacts.releases_after; [apply ScopeFacts.sessions_status|].
    intros _.
    apply ScopeFacts.scope_releases; [reflexivity | |].
    + intros c'.
      destruct (ScopeFacts.sessions_setters
                  (FirewallConfigurator.mk c' SetupPhases.to_status))
        as (H1 & H2 & H3 & H4).
      pose proof ScopeFacts.sessions_status.
      cbv zeta. keep_sessions.
    + intros e. apply ScopeFacts.sessions_phase_failed.
  - unfold SetupPhases._phase3_content_update.
    apply ScopeFacts.releases_after; [apply ScopeFacts.sessions_status|].
    intros _.
    apply ScopeFacts.releases_after; [apply ScopeFacts.sessions_status|].
    intros _.
    apply ScopeFacts.scope_releases; [reflexivity | |].
    + intros c'.
      pose proof ScopeFacts.sessions_status.
      pose proof ScopeFacts.sessions_content_download.
      pose proof ScopeFacts.sessions_content_install.
      cbv zeta. keep_sessions.
    + intros e. apply ScopeFacts.sessions_phase_failed.
  - unfold configure_firewall.
    apply ScopeFacts.releases_after; [keep_sessions|]. intros _.
    apply ScopeFacts.scope_releases; [reflexivity | |].
    + intros c'.
      destruct (ScopeFacts.sessions_setters
                  (FirewallConfigurator.mk c' cb)) as (H1 & H2 & H3 & H4).
      unfold FirewallConfigurator.perform_initial_setup,
        FirewallConfigurator._update_progress.
      keep_sessions.
    + intros e. keep_sessions.
  - unfold fetch_and_verify_licenses.
    apply ScopeFacts.releases_after; [keep_sessions|]. intros _.
    apply ScopeFacts.scope_releases; [reflexivity | |].
    + intros c'. apply ScopeFacts.sessions_license_attempts.
    + intros e. keep_sessions.
  - unfold update_firewall_content.
    apply ScopeFacts.releases_after; [keep_sessions|]. intros _.
    apply ScopeFacts.scope_releases; [reflexivity | |].
    + intros c'.
      pose proof ScopeFacts.sessions_content_download.
      pose proof ScopeFacts.sessions_content_install.
      unfold ContentUpdater.update_content, ContentUpdater._update_progress.
      keep_sessions.
    + intros e. keep_sessions.
Qed.

(** ** The window, the sound device and the phases *)

Module GuiFacts.

Lemma faults_refl w : faults_shrink w w.
Proof. now exists []. Qed.

Lemma faults_trans a b c :
  faults_shrink a b -> faults_shrink b c -> faults_shrink a c.
Proof.
  intros [l1 H1] [l2 H2]. exists (l1 ++ l2)%list.
  now rewrite H1, H2, List.app_assoc.
Qed.

Lemma faults_same w w' : gui_faults w' = gui_faults w -> faults_shrink w w'.
Proof. intros H. exists []. now rewrite H. Qed.

Lemma faults_emit e : preserves faults_shrink (emit e).
Proof. intros w. now apply faults_same. Qed.

Lemma faults_emit_all l : preserves faults_shrink (emit_all l).
Proof.
  induction l as [|e l IH]; simpl.
  - apply KeepFacts.keep_ret, faults_refl.
  - apply KeepFacts.keep_bind;
      [exact faults_trans | apply faults_emit | intros _; exact IH].
Qed.

Lemma faults_progress cb msg : preserves faults_shrink (call_progress cb msg).
Proof.
  destruct cb; simpl;
    [apply faults_emit_all | apply KeepFacts.keep_ret, faults_refl].
Qed.

Lemma faults_sleep d : preserves faults_shrink (time_sleep d).
Proof.
  intros w. unfold time_sleep. destruct (d <? 0)%Z; now apply faults_same.
Qed.

Lemma faults_next_reply : preserves faults_shrink next_reply.
Proof. intros w. now apply faults_same. Qed.

Lemma faults_next_probe : preserves faults_shrink next_probe.
Proof. intros w. now apply faults_same. Qed.

Lemma faults_is_cancelled : preserves faults_shrink is_cancelled.
Proof. intros w. now apply faults_same. Qed.

Lemma faults_session_opened : preserves faults_shrink session_opened.
Proof. intros w. now apply faults_same. Qed.

Lemma faults_session_closed : preserves faults_shrink session_closed.
Proof. intros w. now apply faults_same. Qed.

Lemma faults_set_client c : preserves faults_shrink (set_client c).
Proof. intros w. now apply faults_same. Qed.

Lemma faults_gui_call : preserves faults_shrink gui_call.
Proof.
  intros w. unfold gui_call, faults_shrink. cbv zeta.
  destruct (gui_faults w) as [|[e|] l]; simpl.
  - now exists [].
  - now exists [Some e].
  - now exists [None].
Qed.

Lemma shrink_in w w' e :
  faults_shrink w w' -> In (Some e) (gui_faults w') -> In (Some e) (gui_faults w).
Proof. intros [l ->] H. apply in_or_app. now right. Qed.

Lemma shrink_works w w' : faults_shrink w w' -> gui_works w -> gui_works w'.
Proof.
  unfold gui_works. intros [l ->] H. apply Forall_app in H. apply H.
Qed.

(** *** Raising what the script holds *)

Lemma rs_quiet {A} (m : M A) :
  raises_only (fun _ => False) m -> raises_scripted m.
Proof. intros H w e w' E. destruct (H _ _ _ E). Qed.

Lemma rs_gui_call : raises_scripted gui_call.
Proof.
  intros w e w'. unfold gui_call.
  destruct (gui_faults w) as [|[x|] l]; try discriminate.
  intros [= <- _]. now left.
Qed.

Lemma rs_bind {A B} (m : M A) (k : A -> M B) :
  raises_scripted m -> preserves faults_shrink m ->
  (forall a, raises_scripted (k a)) ->
  raises_scripted (bind m k).
Proof.
  intros Hm Hs Hk w e w'. unfold bind. specialize (Hs w).
  destruct (m w) as [[a|e0|] w1] eqn:E; simpl in Hs.
  - intros H. exact (shrink_in _ _ _ Hs (Hk _ _ _ _ H)).
  - intros [= <- _]. exact (Hm _ _ _ E).
  - discriminate.
Qed.

Lemma rs_try_except {A} (m : M A) (h : exn -> M A) :
  preserves faults_shrink m -> (forall e, raises_scripted (h e)) ->
  raises_scripted (try_except m h).
Proof.
  intros Hs Hh w e w'. unfold try_except. specialize (Hs w).
  destruct (m w) as [[a|e0|] w1]; simpl in Hs; try discriminate.
  intros H. exact (shrink_in _ _ _ Hs (Hh _ _ _ _ H)).
Qed.

Lemma rs_try_finally {A} (m : M A) (f : M unit) :
  raises_scripted m -> preserves faults_shrink m -> raises_scripted f ->
  raises_scripted (try_finally m f).
Proof.
  intros Hm Hs Hf w e w'. unfold try_finally. specialize (Hs w).
  destruct (m w) as [[a|e0|] w1] eqn:E; simpl in Hs; try discriminate;
    destruct (f w1) as [[[]|e1|] w2] eqn:F; try discriminate.
  - intros [= <- _]. exact (shrink_in _ _ _ Hs (Hf _ _ _ F)).
  - intros [= <- _]. exact (Hm _ _ _ E).
  - intros [= <- _]. exact (shrink_in _ _ _ Hs (Hf _ _ _ F)).
Qed.

Lemma answers_of {A} (m : M A) :
  total m -> raises_scripted m -> answers m.
Proof.
  intros Ht Hr w Hw. specialize (Ht w).
  destruct (m w) as [[a|e|] w'] eqn:E; simpl in Ht.
  - now exists a, w'.
  - exfalso. pose proof (Hr _ _ _ E) as Hin.
    unfold gui_works in Hw. rewrite Forall_forall in Hw.
    now specialize (Hw _ Hin).
  - now contradiction Ht.
Qed.

End GuiFacts.

#[local] Hint Resolve
  GuiFacts.faults_refl GuiFacts.faults_emit GuiFacts.faults_emit_all
  GuiFacts.faults_progress GuiFacts.faults_sleep GuiFacts.faults_next_reply
  GuiFacts.faults_next_probe GuiFacts.faults_is_cancelled
  GuiFacts.faults_session_opened GuiFacts.faults_session_closed
  GuiFacts.faults_set_client GuiFacts.faults_gui_call : keep.

(** [keep_faults] also goes through the loops on the clock. *)
Ltac keep_faults :=
  repeat first
    [ keep_step GuiFacts.faults_refl GuiFacts.faults_trans
    | apply (KeepFacts.keep_while _ GuiFacts.faults_refl GuiFacts.faults_trans);
      [intro|] ].

Module ProgramFaults.

(** Nothing but the orchestrator calls into the window: the session
    client, the waiters and the collaborators leave the script alone. *)
Lemma faults_connect c : preserves faults_shrink (SSH.connect c).
Proof. unfold SSH.connect. keep_faults. Qed.

Lemma faults_disconnect c : preserves faults_shrink (SSH.disconnect c).
Proof. unfold SSH.disconnect. keep_faults. Qed.

Lemma faults_send_command c cmd : preserves faults_shrink (SSH.send_command c cmd).
Proof. unfold SSH.send_command. keep_faults. Qed.

Lemma faults_send_timing c cmd :
  preserves faults_shrink (SSH.send_command_timing c cmd).
Proof. unfold SSH.send_command_timing. keep_faults. Qed.

#[export] Hint Resolve faults_connect faults_disconnect faults_send_command
  faults_send_timing : keep.

Lemma faults_scope {A} c (body : PANOSSSHClient -> M A) handler :
  (forall c', preserves faults_shrink (body c')) ->
  (forall e, preserves faults_shrink (handler e)) ->
  preserves faults_shrink (session_scope c body handler).
Proof.
  intros Hb Hh w. unfold session_scope.
  pose proof (faults_connect c w) as Hc.
  destruct (SSH.connect c w) as [[c'|e|] w1]; simpl in Hc; [| |exact Hc].
  - eapply GuiFacts.faults_trans; [exact Hc|].
    assert (preserves faults_shrink
              (try_finally (try_except (body c') handler)
                 (_ <- SSH.disconnect c' ;; ret tt))) as H by keep_faults.
    apply H.
  - eapply GuiFacts.faults_trans; [exact Hc|].
    assert (preserves faults_shrink
              (try_finally (handler e) (_ <- SSH.disconnect c ;; ret tt)))
      as H by keep_faults.
    apply H.
Qed.

Lemma faults_wait_for_ssh fuel h prt u p timeout poll cb :
  preserves faults_shrink (wait_for_ssh fuel h prt u p timeout poll cb).
Proof.
  unfold wait_for_ssh, wait_for_ssh_turn, port_check, ssh_check, connect_ex.
  keep_faults.
Qed.

Lemma faults_status msg :
  preserves faults_shrink (FirewallSetupOrchestrator._update_progress msg).
Proof. unfold FirewallSetupOrchestrator._update_progress. keep_faults. Qed.

Lemma faults_beep_error : preserves faults_shrink FirewallSetupOrchestrator.beep_error.
Proof. unfold FirewallSetupOrchestrator.beep_error. keep_faults. Qed.

Lemma faults_show_error title message :
  preserves faults_shrink (FirewallSetupOrchestrator.show_error title message).
Proof. unfold FirewallSetupOrchestrator.show_error. keep_faults. Qed.

#[export] Hint Resolve faults_wait_for_ssh faults_status faults_beep_error
  faults_show_error : keep.

Lemma faults_phase_failed number title what e :
  preserves faults_shrink (SetupPhases.phase_failed number title what e).
Proof. unfold SetupPhases.phase_failed. keep_faults. Qed.

Lemma faults_download_software fuel self version timeout :
  preserves faults_shrink
    (PANOSUpgrader.download_software fuel self version timeout).
Proof.
  unfold PANOSUpgrader.download_software, PANOSUpgrader._download_version,
    PANOSUpgrader._wait_for_software_download, PANOSUpgrader.download_turn,
    PANOSUpgrader.require_client, PANOSUpgrader.self_client,
    PANOSUpgrader._update_progress.
  keep_faults.
Qed.

Lemma faults_install_software fuel self version timeout :
  preserves faults_shrink
    (PANOSUpgrader.install_software fuel self version timeout).
Proof.
  unfold PANOSUpgrader.install_software,
    PANOSUpgrader._wait_for_software_install, PANOSUpgrader.install_turn,
    PANOSUpgrader.install_status,
    PANOSUpgrader.require_client, PANOSUpgrader.self_client,
    PANOSUpgrader._update_progress.
  keep_faults.
Qed.

Lemma faults_upgrader_steps self :
  preserves faults_shrink (PANOSUpgrader.connect self)
  /\ preserves faults_shrink (PANOSUpgrader.disconnect self)
  /\ preserves faults_shrink (PANOSUpgrader.get_current_version self)
  /\ preserves faults_shrink (PANOSUpgrader.check_available_versions self)
  /\ preserves faults_shrink (PANOSUpgrader.reboot self)
  /\ (forall fuel timeout,
        preserves faults_shrink (PANOSUpgrader.wait_for_reboot fuel self timeout)).
Proof.
  repeat split; intros;
    unfold PANOSUpgrader.connect, PANOSUpgrader.disconnect,
      PANOSUpgrader.get_current_version,
      PANOSUpgrader.check_available_versions, PANOSUpgrader.reboot,
      PANOSUpgrader.wait_for_reboot, SSH.get_panos_version,
      SSH.get_system_info, PANOSUpgrader.require_client,
      PANOSUpgrader.self_client, PANOSUpgrader._update_progress;
    keep_faults.
Qed.

Lemma faults_phase4_hops fuel upgrader path :
  preserves faults_shrink
    (FirewallSetupOrchestrator.phase4_hops fuel upgrader path).
Proof.
  destruct (faults_upgrader_steps upgrader) as (H1 & H2 & H3 & H4 & H5 & H6).
  pose proof faults_download_software. pose proof faults_install_software.
  induction path as [|version path IH]; simpl;
    unfold FirewallSetupOrchestrator._check_cancelled; keep_faults.
Qed.

Lemma faults_phase4 fuel config :
  preserves faults_shrink (FirewallSetupOrchestrator._phase4_upgrade fuel config).
Proof.
  destruct (faults_upgrader_steps (FirewallSetupOrchestrator.upgrader_of config))
    as (H1 & H2 & H3 & H4 & H5 & H6).
  pose proof faults_phase4_hops.
  unfold FirewallSetupOrchestrator._phase4_upgrade,
    FirewallSetupOrchestrator.phase4_body,
    FirewallSetupOrchestrator.phase4_failed.
  keep_faults.
Qed.

Lemma faults_phase1_body c config net :
  preserves faults_shrink
    (let configurator := FirewallConfigurator.mk c SetupPhases.to_status in
     FirewallSetupOrchestrator._update_progress "Configuring management IP..." ;;
     FirewallConfigurator.set_management_ip configurator
       (FirewallSetupOrchestrator.new_ip config)
       (SetupPhases.subnet_mask net) (SetupPhases.gateway net) ;;
     FirewallSetupOrchestrator._update_progress "Configuring DNS servers..." ;;
     FirewallConfigurator.set_dns_servers configurator
       (FirewallConfigurator.primary_of (SetupPhases.dns_servers net))
       (FirewallConfigurator.secondary_of (SetupPhases.dns_servers net)) ;;
     FirewallSetupOrchestrator._update_progress "Changing admin password..." ;;
     FirewallConfigurator.change_admin_password configurator
       (FirewallSetupOrchestrator.new_password config) ;;
     FirewallSetupOrchestrator._update_progress "Committing configuration..." ;;
     FirewallConfigurator.commit_configuration configurator ;;
     FirewallSetupOrchestrator._update_progress "Initial configuration complete" ;;
     ret true).
Proof.
  unfold FirewallConfigurator.set_management_ip,
    FirewallConfigurator.set_dns_servers,
    FirewallConfigurator.change_admin_password,
    FirewallConfigurator.commit_configuration,
    FirewallConfigurator._update_progress, SSHConfig.commit,
    SSHConfig.enter_configure_mode, SSHConfig.exit_configure_mode.
  keep_faults.
Qed.

Lemma faults_phase1 config net :
  preserves faults_shrink (SetupPhases._phase1_initial_config config net).
Proof.
  unfold SetupPhases._phase1_initial_config.
  apply KeepFacts.keep_bind; [exact GuiFacts.faults_trans | keep_faults|].
  intros _.
  apply KeepFacts.keep_bind; [exact GuiFacts.faults_trans | keep_faults|].
  intros _.
  apply faults_scope; [|intros e; apply faults_phase_failed].
  intros c'. apply faults_phase1_body.
Qed.

Lemma faults_fetch_licenses self :
  preserves faults_shrink (LicenseManager.fetch_licenses self).
Proof.
  unfold LicenseManager.fetch_licenses, LicenseManager._update_progress.
  keep_faults.
Qed.

Lemma faults_phase2 fuel config :
  preserves faults_shrink (SetupPhases._phase2_licensing fuel config).
Proof.
  unfold SetupPhases._phase2_licensing.
  apply KeepFacts.keep_bind; [exact GuiFacts.faults_trans | keep_faults|].
  intros _.
  apply KeepFacts.keep_bind; [exact GuiFacts.faults_trans | keep_faults|].
  intros _.
  apply KeepFacts.keep_bind; [exact GuiFacts.faults_trans | keep_faults|].
  intros b. destruct (negb b); [keep_faults|].
  apply KeepFacts.keep_bind; [exact GuiFacts.faults_trans | keep_faults|].
  intros _.
  apply faults_scope; [|intros e; apply faults_phase_failed].
  intros c'. pose proof faults_fetch_licenses. keep_faults.
Qed.

Lemma faults_content fuel self :
  (forall timeout,
     preserves faults_shrink
       (ContentUpdater.download_latest_content fuel self timeout))
  /\ (forall timeout,
        preserves faults_shrink
          (ContentUpdater.install_latest_content fuel self timeout)).
Proof.
  split; intros;
    unfold ContentUpdater.download_latest_content,
      ContentUpdater.install_latest_content,
      ContentUpdater._wait_for_download_completion,
      ContentUpdater._wait_for_install_completion,
      ContentUpdater.download_turn, ContentUpdater.install_turn,
      ContentUpdater._update_progress;
    keep_faults.
Qed.

Lemma faults_phase3 fuel config :
  preserves faults_shrink (SetupPhases._phase3_content_update fuel config).
Proof.
  unfold SetupPhases._phase3_content_update.
  apply KeepFacts.keep_bind; [exact GuiFacts.faults_trans | keep_faults|].
  intros _.
  apply KeepFacts.keep_bind; [exact GuiFacts.faults_trans | keep_faults|].
  intros _.
  apply faults_scope; [|intros e; apply faults_phase_failed].
  intros c'. cbv zeta.
  destruct (faults_content fuel (ContentUpdater.mk c' SetupPhases.to_status))
    as [H1 H2].
  keep_faults.
Qed.

(** *** What the reporting calls raise *)

Lemma rs_status msg :
  raises_scripted (FirewallSetupOrchestrator._update_progress msg).
Proof.
  unfold FirewallSetupOrchestrator._update_progress.
  apply GuiFacts.rs_bind; [apply GuiFacts.rs_gui_call | keep_faults|].
  intros _.
  apply GuiFacts.rs_bind;
    [apply GuiFacts.rs_quiet; raising | keep_faults|].
  intros _. apply GuiFacts.rs_gui_call.
Qed.

Lemma rs_beep_error : raises_scripted FirewallSetupOrchestrator.beep_error.
Proof.
  unfold FirewallSetupOrchestrator.beep_error.
  apply GuiFacts.rs_bind; [apply GuiFacts.rs_gui_call | keep_faults|].
  intros _. apply GuiFacts.rs_quiet. raising.
Qed.

Lemma rs_show_error title message :
  raises_scripted (FirewallSetupOrchestrator.show_error title message).
Proof.
  unfold FirewallSetupOrchestrator.show_error.
  apply GuiFacts.rs_bind; [apply GuiFacts.rs_gui_call | keep_faults|].
  intros _. apply GuiFacts.rs_quiet. raising.
Qed.

Lemma rs_phase_failed number title what e :
  raises_scripted (SetupPhases.phase_failed number title what e).
Proof.
  unfold SetupPhases.phase_failed.
  apply GuiFacts.rs_bind;
    [apply GuiFacts.rs_quiet; raising | keep_faults|]. intros _.
  apply GuiFacts.rs_bind; [apply rs_beep_error | keep_faults|]. intros _.
  apply GuiFacts.rs_bind; [apply rs_show_error | keep_faults|]. intros _.
  apply GuiFacts.rs_quiet. raising.
Qed.

Lemma rs_run_failed e : raises_scripted (FirewallSetupOrchestrator.run_failed e).
Proof.
  unfold FirewallSetupOrchestrator.run_failed.
  apply GuiFacts.rs_bind;
    [apply GuiFacts.rs_quiet; raising | keep_faults|]. intros _.
  apply GuiFacts.rs_bind; [apply rs_beep_error | keep_faults|]. intros _.
  apply GuiFacts.rs_bind; [apply rs_show_error | keep_faults|]. intros _.
  apply GuiFacts.rs_quiet. raising.
Qed.

(** A scope raises what its [except] clause raises: the error of the
    session or of the body is caught, and closing the session raises
    nothing. *)
Lemma rs_scope {A} c (body : PANOSSSHClient -> M A) handler :
  (forall c', preserves faults_shrink (body c')) ->
  (forall e, raises_scripted (handler e)) ->
  (forall e, preserves faults_shrink (handler e)) ->
  raises_scripted (session_scope c body handler).
Proof.
  intros Hb Hh Hs w e w'. unfold session_scope.
  pose proof (faults_connect c w) as Hc.
  assert (forall c0, raises_scripted (_ <- SSH.disconnect c0 ;; ret tt)) as Hf
    by (intros c0; apply GuiFacts.rs_quiet; raising).
  destruct (SSH.connect c w) as [[c'|e0|] w1]; simpl in Hc; [| |discriminate];
    intros H; apply (GuiFacts.shrink_in _ _ _ Hc); revert H.
  - apply GuiFacts.rs_try_finally; [| |apply Hf].
    + apply GuiFacts.rs_try_except; [apply Hb | apply Hh].
    + keep_faults.
  - apply GuiFacts.rs_try_finally; [apply Hh | apply Hs | apply Hf].
Qed.

End ProgramFaults.

Module PhaseFacts.
Import SessionFacts UpgraderFacts OrchestratorFacts.

Lemma total_commit c : total (SSHConfig.commit c).
Proof. unfold SSHConfig.commit. judge. Qed.

Lemma total_setters (self : FirewallConfigurator.t) :
  (forall ip mask gw,
     total (FirewallConfigurator.set_management_ip self ip mask gw))
  /\ (forall p s, total (FirewallConfigurator.set_dns_servers self p s))
  /\ (forall pw, total (FirewallConfigurator.change_admin_password self pw))
  /\ total (FirewallConfigurator.commit_configuration self).
Proof.
  pose proof (total_commit (FirewallConfigurator.client self)).
  repeat split; intros;
    unfold FirewallConfigurator.set_management_ip,
      FirewallConfigurator.set_dns_servers,
      FirewallConfigurator.change_admin_password,
      FirewallConfigurator.commit_configuration,
      FirewallConfigurator._update_progress,
      SSHConfig.enter_configure_mode, SSHConfig.exit_configure_mode;
    judge_more.
Qed.

Lemma total_fetch_licenses self : total (LicenseManager.fetch_licenses self).
Proof.
  unfold LicenseManager.fetch_licenses, LicenseManager._update_progress.
  judge.
Qed.

Lemma total_content_download f self timeout :
  (timeout <= 10 * Z.of_nat f)%Z ->
  total (ContentUpdater.download_latest_content (S f) self timeout).
Proof.
  intros Hf.
  assert (total (ContentUpdater._wait_for_download_completion (S f) self
                   timeout)).
  { intros w. unfold ContentUpdater._wait_for_download_completion,
      bind at 1, time_time.
    apply (RunFacts.while_elapsed_total 10); try lia.
    - intros []. unfold ContentUpdater.download_turn,
        ContentUpdater._update_progress. judge.
    - judge.
    - intros s w0 s' w' E.
      exact (WaiterTiming.after_content_download_turn self s _ _ _ E). }
  unfold ContentUpdater.download_latest_content,
    ContentUpdater._update_progress. judge.
Qed.

Lemma total_content_install f self timeout :
  (timeout <= 10 * Z.of_nat f)%Z ->
  total (ContentUpdater.install_latest_content (S f) self timeout).
Proof.
  intros Hf.
  assert (total (ContentUpdater._wait_for_install_completion (S f) self
                   timeout)).
  { intros w. unfold ContentUpdater._wait_for_install_completion,
      bind at 1, time_time.
    apply (RunFacts.while_elapsed_total 10); try lia.
    - intros []. unfold ContentUpdater.install_turn,
        ContentUpdater._update_progress. judge.
    - judge.
    - intros s w0 s' w' E.
      exact (WaiterTiming.after_content_install_turn self s _ _ _ E). }
  unfold ContentUpdater.install_latest_content,
    ContentUpdater._update_progress. judge.
Qed.

Lemma total_phase_failed number title what e :
  total (SetupPhases.phase_failed number title what e).
Proof. unfold SetupPhases.phase_failed. judge. Qed.

Lemma quiet_wait_for_ssh fuel h prt u p timeout poll cb :
  (0 <= poll)%Z ->
  raises_only (fun _ => False) (wait_for_ssh fuel h prt u p timeout poll cb).
Proof.
  intros Hp. unfold wait_for_ssh.
  apply RaiseFacts.ro_bind; [apply RaiseFacts.ro_time_time|]. intros t.
  apply RaiseFacts.ro_while; [|raising].
  intros s. unfold wait_for_ssh_turn, port_check, ssh_check. raising.
Qed.

Lemma total_phase1 config net :
  total (SetupPhases._phase1_initial_config config net).
Proof.
  unfold SetupPhases._phase1_initial_config.
  apply RunFacts.total_bind; [judge|]. intros _.
  apply RunFacts.total_bind; [judge|]. intros _.
  apply ScopeFacts.total_scope; [|intros e; apply total_phase_failed].
  intros c'.
  destruct (total_setters (FirewallConfigurator.mk c' SetupPhases.to_status))
    as (H1 & H2 & H3 & H4).
  judge.
Qed.

Lemma total_phase2 fuel config :
  61 <= fuel -> total (SetupPhases._phase2_licensing fuel config).
Proof.
  intros Hf. destruct fuel as [|f]; [lia|].
  pose proof (total_wait_for_ssh f (FirewallSetupOrchestrator.new_ip config)
                22 FirewallSetupOrchestrator.DEFAULT_USERNAME
                (FirewallSetupOrchestrator.new_password config) 180 15
                SetupPhases.to_status ltac:(lia) ltac:(lia)) as Hw.
  unfold SetupPhases._phase2_licensing.
  apply RunFacts.total_bind; [judge|]. intros _.
  apply RunFacts.total_bind; [judge|]. intros _.
  apply RunFacts.total_bind; [exact Hw|]. intros b.
  destruct (negb b); [judge|].
  apply RunFacts.total_bind; [judge|]. intros _.
  apply ScopeFacts.total_scope; [|intros e; apply total_phase_failed].
  intros c'.
  pose proof (total_fetch_licenses (LicenseManager.mk c' SetupPhases.to_status)).
  judge.
Qed.

Lemma total_phase3 fuel config :
  61 <= fuel -> total (SetupPhases._phase3_content_update fuel config).
Proof.
  intros Hf. destruct fuel as [|f]; [lia|].
  unfold SetupPhases._phase3_content_update.
  apply RunFacts.total_bind; [judge|]. intros _.
  apply RunFacts.total_bind; [judge|]. intros _.
  apply ScopeFacts.total_scope; [|intros e; apply total_phase_failed].
  intros c'.
  pose proof (fun self => total_content_download f self 600 ltac:(lia)).
  pose proof (fun self => total_content_install f self 300 ltac:(lia)).
  judge.
Qed.

Lemma total_run (p1 p2 p3 : M bool) fuel config :
  61 <= fuel -> total p1 -> total p2 -> total p3 ->
  total (FirewallSetupOrchestrator.run p1 p2 p3 fuel config).
Proof.
  intros Hf H1 H2 H3.
  pose proof (total_phase4 fuel config Hf).
  pose proof total_run_failed.
  unfold FirewallSetupOrchestrator.run, FirewallSetupOrchestrator.run_body,
    FirewallSetupOrchestrator._check_cancelled. judge.
Qed.

(** *** What a phase raises *)

Lemma rs_phase1 config net :
  raises_scripted (SetupPhases._phase1_initial_config config net).
Proof.
  unfold SetupPhases._phase1_initial_config.
  apply GuiFacts.rs_bind;
    [apply ProgramFaults.rs_status | apply ProgramFaults.faults_status|].
  intros _.
  apply GuiFacts.rs_bind;
    [apply ProgramFaults.rs_status | apply ProgramFaults.faults_status|].
  intros _.
  apply ProgramFaults.rs_scope.
  - intros c'. apply ProgramFaults.faults_phase1_body.
  - intros e. apply ProgramFaults.rs_phase_failed.
  - intros e. apply ProgramFaults.faults_phase_failed.
Qed.

Lemma rs_phase2 fuel config :
  raises_scripted (SetupPhases._phase2_licensing fuel config).
Proof.
  unfold SetupPhases._phase2_licensing.
  apply GuiFacts.rs_bind;
    [apply ProgramFaults.rs_status | apply ProgramFaults.faults_status|].
  intros _.
  apply GuiFacts.rs_bind;
    [apply ProgramFaults.rs_status | apply ProgramFaults.faults_status|].
  intros _.
  apply GuiFacts.rs_bind;
    [apply GuiFacts.rs_quiet, quiet_wait_for_ssh; lia
    | apply ProgramFaults.faults_wait_for_ssh|].
  intros b. destruct (negb b).
  - apply GuiFacts.rs_bind;
      [apply ProgramFaults.rs_beep_error | apply ProgramFaults.faults_beep_error|].
    intros _.
    apply GuiFacts.rs_bind;
      [apply ProgramFaults.rs_show_error | apply ProgramFaults.faults_show_error|].
    intros _. apply GuiFacts.rs_quiet. raising.
  - apply GuiFacts.rs_bind;
      [apply ProgramFaults.rs_status | apply ProgramFaults.faults_status|].
    intros _.
    apply ProgramFaults.rs_scope.
    + intros c'. pose proof ProgramFaults.faults_fetch_licenses.
      pose proof ProgramFaults.faults_status. keep_faults.
    + intros e. apply ProgramFaults.rs_phase_failed.
    + intros e. apply ProgramFaults.faults_phase_failed.
Qed.

Lemma rs_phase3 fuel config :
  raises_scripted (SetupPhases._phase3_content_update fuel config).
Proof.
  unfold SetupPhases._phase3_content_update.
  apply GuiFacts.rs_bind;
    [apply ProgramFaults.rs_status | apply ProgramFaults.faults_status|].
  intros _.
  apply GuiFacts.rs_bind;
    [apply ProgramFaults.rs_status | apply ProgramFaults.faults_status|].
  intros _.
  apply ProgramFaults.rs_scope.
  - intros c'. cbv zeta.
    destruct (ProgramFaults.faults_content fuel
                (ContentUpdater.mk c' SetupPhases.to_status)) as [H1 H2].
    pose proof ProgramFaults.faults_status. keep_faults.
  - intros e. apply ProgramFaults.rs_phase_failed.
  - intros e. apply ProgramFaults.faults_phase_failed.
Qed.

Lemma rs_run_all fuel config net :
  raises_scripted (SetupPhases.run_all fuel config net).
Proof.
  unfold SetupPhases.run_all, FirewallSetupOrchestrator.run.
  apply GuiFacts.rs_try_except; [|apply ProgramFaults.rs_run_failed].
  pose proof (ProgramFaults.faults_phase1 config net).
  pose proof (ProgramFaults.faults_phase2 fuel config).
  pose proof (ProgramFaults.faults_phase3 fuel config).
  pose proof (ProgramFaults.faults_phase4 fuel config).
  pose proof ProgramFaults.faults_status.
  unfold FirewallSetupOrchestrator.run_body,
    FirewallSetupOrchestrator._check_cancelled.
  keep_faults.
Qed.

End PhaseFacts.

(** X18. A phase raises only what a call into the window or the sound
    device raised: whatever the device and the network do, no error of
    theirs leaves the first three phases or the whole [run].  Where the
    window and the sound device work, and with fuel for the longest loop,
    each of these phases and [run] hands a boolean back. *)
Theorem setup_always_answers (fuel : nat)
    (config : FirewallSetupOrchestrator.SetupConfig)
    (net : SetupPhases.NetworkConfig) :
  61 <= fuel ->
  (raises_scripted (SetupPhases._phase1_initial_config config net)
   /\ raises_scripted (SetupPhases._phase2_licensing fuel config)
   /\ raises_scripted (SetupPhases._phase3_content_update fuel config)
   /\ raises_scripted (SetupPhases.run_all fuel config net))
  /\ (answers (SetupPhases._phase1_initial_config config net)
      /\ answers (SetupPhases._phase2_licensing fuel config)
      /\ answers (SetupPhases._phase3_content_update fuel config)
      /\ answers (SetupPhases.run_all fuel config net)).
Proof.
  intros Hf.
  pose proof (PhaseFacts.total_phase1 config net) as T1.
  pose proof (PhaseFacts.total_phase2 fuel config Hf) as T2.
  pose proof (PhaseFacts.total_phase3 fuel config Hf) as T3.
  pose proof (PhaseFacts.total_run _ _ _ fuel config Hf T1 T2 T3) as T4.
  pose proof (PhaseFacts.rs_phase1 config net) as R1.
  pose proof (PhaseFacts.rs_phase2 fuel config) as R2.
  pose proof (PhaseFacts.rs_phase3 fuel config) as R3.
  pose proof (PhaseFacts.rs_run_all fuel config net) as R4.
  split; [now repeat split|].
  repeat split; now apply GuiFacts.answers_of.
Qed.

Lemma setup_always_answers_witness :
  (raises_scripted
     (SetupPhases._phase1_initial_config Scenario.config ReportScenario.net)
   /\ raises_scripted (SetupPhases._phase2_licensing 61 Scenario.config)
   /\ raises_scripted (SetupPhases._phase3_content_update 61 Scenario.config)
   /\ raises_scripted
        (SetupPhases.run_all 61 Scenario.config ReportScenario.net))
  /\ (answers
        (SetupPhases._phase1_initial_config Scenario.config ReportScenario.net)
      /\ answers (SetupPhases._phase2_licensing 61 Scenario.config)
      /\ answers (SetupPhases._phase3_content_update 61 Scenario.config)
      /\ answers (SetupPhases.run_all 61 Scenario.config ReportScenario.net)).
Proof.
  apply (setup_always_answers 61 Scenario.config ReportScenario.net).
  lia.
Defined.

(** ** The license retries *)

Module LicenseFacts.
Import SessionFacts.

Lemma ro_reraise {A} (P : exn -> Prop) (m : M A) :
  raises_only P m -> raises_only P (try_except m raise).
Proof.
  intros Hm w e w'. unfold try_except.
  destruct (m w) as [[a|e0|] w1] eqn:E; try discriminate.
  intros [= <- _]. exact (Hm _ _ _ E).
Qed.

(** A scope that lets errors through raises what the opening of the
    session or its body raises. *)
Lemma ro_scope_reraise {A} (P : exn -> Prop) c (body : PANOSSSHClient -> M A) :
  raises_only P (SSH.connect c) ->
  (forall c', raises_only P (body c')) ->
  raises_only P (session_scope c body raise).
Proof.
  intros Hc Hb w e w'. unfold session_scope.
  assert (forall c0, raises_only P (_ <- SSH.disconnect c0 ;; ret tt)) as Hf
    by (intros c0; raising).
  destruct (SSH.connect c w) as [[c'|e0|] w1] eqn:E; [| |discriminate];
    apply RaiseFacts.ro_try_finally; try apply Hf.
  - apply ro_reraise, Hb.
  - apply RaiseFacts.ro_raise. exact (Hc _ _ _ E).
Qed.

(** Such a scope returns what its body returns. *)
Lemma scope_returns {A} (Q : A -> Prop) c (body : PANOSSSHClient -> M A) :
  (forall c' w a w', body c' w = (Ret a, w') -> Q a) ->
  forall w a w', session_scope c body raise w = (Ret a, w') -> Q a.
Proof.
  intros Hb w a w'. unfold session_scope, try_finally, try_except.
  destruct (SSH.connect c w) as [[c'|e0|] w1]; [| |discriminate].
  - destruct (body c' w1) as [[a1|e1|] w2] eqn:E.
    + destruct ((_ <- SSH.disconnect c' ;; ret tt) w2) as [[[]|e2|] w3];
        intros [= <- _]. exact (Hb _ _ _ _ E).
    + unfold raise.
      destruct ((_ <- SSH.disconnect c' ;; ret tt) w2) as [[[]|e2|] w3];
        discriminate.
    + discriminate.
  - unfold raise.
    destruct ((_ <- SSH.disconnect c ;; ret tt) w1) as [[[]|e2|] w3];
      discriminate.
Qed.

Lemma attempt_returns lm cb attempt max_retries retry_delay w b w' :
  license_attempt lm cb attempt max_retries retry_delay w = (Ret (inr b), w') ->
  b = true.
Proof.
  unfold license_attempt, try_except.
  match goal with |- context [match ?m w with _ => _ end] =>
    destruct (m w) as [[a|e|] w1] eqn:E
  end; try discriminate.
  - intros [= -> <-].
    apply bind_ret_inv in E as ([] & w2 & _ & E).
    apply bind_ret_inv in E as (o & w3 & _ & E).
    apply bind_ret_inv in E as (active & w4 & _ & E).
    destruct active;
      apply bind_ret_inv in E as ([] & w5 & _ & E); now injection E.
  - intros H.
    apply bind_ret_inv in H as ([] & w2 & _ & H).
    apply bind_ret_inv in H as ([] & w3 & _ & H). discriminate.
Qed.

Lemma attempts_return remaining lm cb :
  forall attempt max_retries retry_delay last_error w b w',
    license_attempts remaining lm cb attempt max_retries retry_delay
      last_error w = (Ret b, w') ->
    b = true.
Proof.
  induction remaining as [|n IH]; intros *; simpl; [discriminate|].
  intros H. apply bind_ret_inv in H as ([e|b1] & w1 & E & H).
  - exact (IH _ _ _ _ _ _ _ H).
  - injection H as <- _. exact (attempt_returns _ _ _ _ _ _ _ _ E).
Qed.

Lemma attempt_quiet lm cb attempt max_retries retry_delay :
  (0 <= retry_delay)%Z ->
  raises_only (fun _ => False)
    (license_attempt lm cb attempt max_retries retry_delay).
Proof. intros Hd. unfold license_attempt. raising. Qed.

Lemma attempts_raise remaining lm cb max_retries retry_delay :
  (0 <= retry_delay)%Z ->
  forall attempt last_error,
    raises_only (attempts_failed max_retries)
      (license_attempts remaining lm cb attempt max_retries retry_delay
         last_error).
Proof.
  intros Hd. induction remaining as [|n IH]; intros; simpl.
  - apply RaiseFacts.ro_raise. now eexists.
  - apply RaiseFacts.ro_bind.
    + apply (RaiseFacts.ro_weaken (fun _ => False)); [intros e []|].
      now apply attempt_quiet.
    + intros [e|b]; [apply IH | apply RaiseFacts.ro_ret].
Qed.

(** The opening of a session, by the device's answer to it. *)
Lemma connect_refused c w msg :
  first_answer w = Fault msg ->
  exists w1,
    SSH.connect c w = (Raise (TransportError msg), w1)
    /\ trace w1 = LogError ("Connection failed: " ++ msg) :: trace w.
Proof.
  intros H. unfold SSH.connect, bind at 1, next_reply.
  unfold first_answer in H. rewrite H.
  unfold bind, emit, raise. eexists. split; reflexivity.
Qed.

Lemma connect_accepted c w output :
  first_answer w = Text output ->
  exists w1, SSH.connect c w = (Ret (SSH.with_connection c true), w1).
Proof.
  intros H. unfold SSH.connect, bind at 1, next_reply.
  unfold first_answer in H. rewrite H.
  unfold bind, session_opened, emit, ret. eexists. reflexivity.
Qed.

End LicenseFacts.

(** X19.  With a delay that is not negative, [fetch_and_verify_licenses]
    ends in one of three ways.  It returns [True], never [False].  Where
    the device refuses the session, it raises the transport error of that
    refusal, having logged one error line and sent nothing.  Where the device accepts
    the session, the one error it raises is the error that counts the
    attempts: the error of a single attempt, a transport error too, never
    reaches the caller as it is. *)
Theorem license_fetch_outcomes (h u p : string) (cb : callback)
    (max_retries retry_delay : Z) :
  (0 <= retry_delay)%Z ->
  (forall w b w',
     fetch_and_verify_licenses h u p cb max_retries retry_delay w = (Ret b, w')
     -> b = true)
  /\ (forall w msg,
        first_answer w = Fault msg ->
        exists w' line,
          fetch_and_verify_licenses h u p cb max_retries retry_delay w
          = (Raise (TransportError msg), w')
          /\ trace w'
             = (LogError line
                :: shown cb ("Connecting to " ++ h ++ " for licensing...")
                ++ trace w)%list)
  /\ (forall w output e w',
        first_answer w = Text output ->
        fetch_and_verify_licenses h u p cb max_retries retry_delay w
        = (Raise e, w') ->
        attempts_failed max_retries e).
Proof.
  intros Hd. split; [|split].
  - intros w b w' H. unfold fetch_and_verify_licenses in H.
    apply SessionFacts.bind_ret_inv in H as ([] & w1 & _ & H).
    apply (LicenseFacts.scope_returns (fun a => a = true)) in H; [exact H|].
    intros c' w0 a w0'. apply LicenseFacts.attempts_return.
  - intros w msg Hw. unfold fetch_and_verify_licenses.
    rewrite (StepFacts.bind_run _ _ _ _ _ (WaiterFacts.call_progress_run _ _ w)).
    remember (add_trace _ w) as w0 eqn:Ew0.
    assert (first_answer w0 = Fault msg) as Hw0 by (rewrite Ew0; exact Hw).
    destruct (LicenseFacts.connect_refused (SSH.new h u p 22) w0 msg Hw0)
      as (w1 & E1 & T1).
    unfold session_scope. rewrite E1.
    unfold try_finally, raise, SSH.disconnect, SSH.new, bind, ret. simpl.
    eexists. eexists. split; [reflexivity|]. rewrite T1, Ew0. reflexivity.
  - intros w output e w' Hw. unfold fetch_and_verify_licenses.
    rewrite (StepFacts.bind_run _ _ _ _ _ (WaiterFacts.call_progress_run _ _ w)).
    remember (add_trace _ w) as w0 eqn:Ew0.
    assert (first_answer w0 = Text output) as Hw0 by (rewrite Ew0; exact Hw).
    destruct (LicenseFacts.connect_accepted (SSH.new h u p 22) w0 output Hw0)
      as (w1 & E1).
    unfold session_scope. rewrite E1.
    apply RaiseFacts.ro_try_finally.
    + apply LicenseFacts.ro_reraise. now apply LicenseFacts.attempts_raise.
    + raising.
Qed.

Lemma license_fetch_outcomes_witness :
  exists w' line,
    fetch_and_verify_licenses "10.0.0.1" "admin" "secret" None 3 30
      (mkWorld [] 0 [mkReply 5 (Fault "Socket is closed")] [] [] 0 None [])
    = (Raise (TransportError "Socket is closed"), w')
    /\ trace w' = [LogError line].
Proof.
  destruct (license_fetch_outcomes "10.0.0.1" "admin" "secret" None 3 30)
    as (_ & H & _); [lia|].
  exact (H (mkWorld [] 0 [mkReply 5 (Fault "Socket is closed")] [] [] 0 None [])
           "Socket is closed" eq_refl).
Defined.

(** ** The pattern of a downloaded content version *)

Module PatternFacts.
Import Text TextFacts ContentUpdater.

Lemma space_not_digit c : is_space c = true -> is_digit c = false.
Proof.
  unfold is_space, is_digit. generalize (code c) as n. intros n.
  destruct (Nat.leb_spec 48 n), (Nat.leb_spec n 57); simpl; try reflexivity.
  destruct (Nat.leb_spec 9 n), (Nat.leb_spec n 13), (Nat.leb_spec 28 n),
    (Nat.leb_spec n 32), (Nat.eqb_spec n 133), (Nat.eqb_spec n 160);
    simpl; intros; try discriminate; lia.
Qed.

Lemma prefix_split p :
  forall s, prefix p s = true -> exists post, s = p ++ post.
Proof.
  induction p as [|a p IH]; intros s; simpl.
  - now exists s.
  - destruct s as [|b s]; simpl; [discriminate|].
    destruct (ascii_dec a b) as [->|]; [|discriminate].
    intros H. destruct (IH _ H) as [post ->]. now exists post.
Qed.

Lemma spaces_yes_sound s :
  forall seen, spaces_yes seen s = true ->
    exists sp post,
      s = sp ++ "yes" ++ post
      /\ forall_chars is_space sp = true
      /\ (seen = false -> sp <> "").
Proof.
  induction s as [|c s IH]; intros seen; cbn [spaces_yes]; [discriminate|].
  destruct (is_space c) eqn:Hc.
  - intros H. destruct (IH true H) as (sp & post & -> & Hsp & _).
    exists (String c sp), post. simpl. rewrite Hc, Hsp.
    repeat split. discriminate.
  - intros H. apply andb_true_iff in H as [-> H].
    destruct (prefix_split _ _ H) as [post E].
    exists "", post. rewrite E. repeat split. discriminate.
Qed.

Lemma spaces_yes_complete sp post :
  forall seen,
    forall_chars is_space sp = true ->
    (seen = true \/ sp <> "") ->
    spaces_yes seen (sp ++ "yes" ++ post) = true.
Proof.
  induction sp as [|c sp IH]; intros seen Hsp Hseen; simpl.
  - destruct Hseen as [->|H]; [|now contradiction H].
    simpl. destruct post; reflexivity.
  - simpl in Hsp. apply andb_true_iff in Hsp as [Hc Hsp]. rewrite Hc.
    apply IH; [exact Hsp | now left].
Qed.

Lemma here_sound s :
  version_yes_here s = true -> matches_version_yes s.
Proof.
  unfold version_yes_here.
  pose proof (span_digits_eq s) as E1.
  pose proof (span_digits_all s) as A1.
  destruct (span_digits s) as [d1 r1]; simpl in E1, A1.
  destruct d1 as [|c1 d1]; [discriminate|]. cbn [is_empty].
  destruct r1 as [|x r1']; [discriminate|].
  destruct (ascii_dec x "-") as [->|Hx].
  2:{ intros H. exfalso. revert H.
      destruct x as [[] [] [] [] [] [] [] []]; try discriminate.
      now contradiction Hx. }
  pose proof (span_digits_eq r1') as E2.
  pose proof (span_digits_all r1') as A2.
  destruct (span_digits r1') as [d2 r2]; simpl in E2, A2.
  destruct d2 as [|c2 d2]; [discriminate|]. cbn [is_empty].
  intros H. destruct (spaces_yes_sound _ _ H) as (sp & post & -> & Hsp & Hne).
  exists "", (String c1 d1), (String c2 d2), sp, post.
  repeat split; try exact Hsp; try (now apply Hne).
  - rewrite E1. simpl. now rewrite E2.
  - unfold digits. now rewrite A1.
  - unfold digits. now rewrite A2.
Qed.

Lemma here_complete d1 d2 sp post :
  digits d1 = true -> digits d2 = true ->
  sp <> "" -> forall_chars is_space sp = true ->
  version_yes_here (d1 ++ "-" ++ d2 ++ sp ++ "yes" ++ post) = true.
Proof.
  intros H1 H2 Hne Hsp. unfold version_yes_here.
  apply andb_true_iff in H1 as [N1 A1]. apply andb_true_iff in H2 as [N2 A2].
  rewrite (span_digits_exact d1 _ A1) by reflexivity.
  destruct d1 as [|c1 d1]; [discriminate|]. cbn [is_empty].
  change ("-" ++ d2 ++ sp ++ "yes" ++ post)
    with (String "-" (d2 ++ sp ++ "yes" ++ post)).
  cbv beta iota.
  rewrite (span_digits_exact d2 _ A2).
  - destruct d2 as [|c2 d2]; [discriminate|]. cbn [is_empty].
    apply spaces_yes_complete; [exact Hsp | now right].
  - destruct sp as [|c sp]; [now contradiction Hne|].
    simpl in Hsp. apply andb_true_iff in Hsp as [Hc _].
    simpl. now apply space_not_digit.
Qed.

Lemma search_here s : version_yes_here s = true -> search_version_yes s = true.
Proof. intros H. destruct s; cbn [search_version_yes]; now rewrite H. Qed.

Lemma search_skip pre s :
  search_version_yes s = true -> search_version_yes (pre ++ s) = true.
Proof.
  intros H. induction pre as [|c pre IH]; [exact H|].
  change (String c pre ++ s) with (String c (pre ++ s)).
  cbn [search_version_yes]. rewrite IH. apply orb_true_r.
Qed.

End PatternFacts.

(** X20. The search that stands for [re.search(r'(\d+-\d+)\s+yes', s)] in
    [_get_downloadable_version] finds a match exactly when the string
    holds, somewhere, a run of digits, a dash, a run of digits, at least one
    white-space character and then [yes]. *)
Theorem downloadable_version_pattern (s : string) :
  ContentUpdater.search_version_yes s = true <-> matches_version_yes s.
Proof.
  split.
  - induction s as [|c s IH].
    + cbn [ContentUpdater.search_version_yes]. rewrite orb_false_r.
      apply PatternFacts.here_sound.
    + cbn [ContentUpdater.search_version_yes]. intros H.
      apply orb_true_iff in H as [H|H];
        [now apply PatternFacts.here_sound|].
      destruct (IH H) as (pre & d1 & d2 & sp & post & -> & Hrest).
      now exists (String c pre), d1, d2, sp, post.
  - intros (pre & d1 & d2 & sp & post & -> & H1 & H2 & Hne & Hsp).
    apply PatternFacts.search_skip, PatternFacts.search_here.
    now apply PatternFacts.here_complete.
Qed.

(** ** The four phases in sequence *)

(** X21. [run] answers [True] only through all four phases: each phase
    returned [True], in order, no cancellation was seen after any of the
    first three, and the completion message was shown last.  In particular
    the [except] clause never answers [True]. *)
Theorem run_true_needs_every_phase (p1 p2 p3 : M bool) (fuel : nat)
    (config : FirewallSetupOrchestrator.SetupConfig) (w w' : World) :
  FirewallSetupOrchestrator.run p1 p2 p3 fuel config w = (Ret true, w') ->
  all_phases_passed p1 p2 p3
    (FirewallSetupOrchestrator._phase4_upgrade fuel config) w w'.
Proof.
  unfold FirewallSetupOrchestrator.run, try_except.
  destruct (FirewallSetupOrchestrator.run_body p1 p2 p3 fuel config w)
    as [[b|e|] w0] eqn:E; try discriminate.
  2:{ unfold FirewallSetupOrchestrator.run_failed. intros H.
      apply SessionFacts.bind_ret_inv in H as ([] & v1 & _ & H).
      apply SessionFacts.bind_ret_inv in H as ([] & v2 & _ & H).
      apply SessionFacts.bind_ret_inv in H as ([] & v3 & _ & H).
      discriminate. }
  intros [= -> ->]. unfold FirewallSetupOrchestrator.run_body in E.
  apply SessionFacts.bind_ret_inv in E as ([] & w1 & E1 & E);
    [|discriminate].
  apply SessionFacts.bind_ret_inv in E as ([] & w2 & C1 & E);
    [discriminate|].
  apply SessionFacts.bind_ret_inv in E as ([] & w3 & E2 & E);
    [|discriminate].
  apply SessionFacts.bind_ret_inv in E as ([] & w4 & C2 & E);
    [discriminate|].
  apply SessionFacts.bind_ret_inv in E as ([] & w5 & E3 & E);
    [|discriminate].
  apply SessionFacts.bind_ret_inv in E as ([] & w6 & C3 & E);
    [discriminate|].
  apply SessionFacts.bind_ret_inv in E as ([] & w7 & E4 & E);
    [|discriminate].
  apply SessionFacts.bind_ret_inv in E as ([] & w8 & E5 & E).
  injection E as <-.
  now exists w1, w2, w3, w4, w5, w6, w7.
Qed.

Lemma run_true_needs_every_phase_witness :
  all_phases_passed (ret true) (ret true) (ret true)
    (FirewallSetupOrchestrator._phase4_upgrade 0 Scenario.config)
    MoreScenarios.at_11_1_4
    (snd (FirewallSetupOrchestrator.run (ret true) (ret true) (ret true) 0
            Scenario.config MoreScenarios.at_11_1_4)).
Proof.
  apply (run_true_needs_every_phase (ret true) (ret true) (ret true) 0
           Scenario.config MoreScenarios.at_11_1_4).
  vm_compute. reflexivity.
Defined.

(** ** A configuration command without [finally] *)

(** X22. Unlike the setters of the configurator, [send_config_command]
    has no [finally]: when the device takes [configure] and the transport
    fails on the command itself, the error is raised with the command as the
    last one sent.  No [exit] follows, and the next answer of the device is
    left unread. *)
Theorem config_command_skips_exit_on_failure (c : PANOSSSHClient)
    (command : string) (w : World) (d0 d1 : N) (o0 msg : string)
    (rest : list reply) :
  connection c = true ->
  replies w = mkReply d0 (Text o0) :: mkReply d1 (Fault msg) :: rest ->
  exists w',
    send_config_command c command w = (Raise (TransportError msg), w')
    /\ replies w' = rest
    /\ commands (trace w') = command :: "configure" :: commands (trace w).
Proof.
  intros Hc Hr. unfold send_config_command, try_except, transport_timing,
    bind, emit, next_reply, ret, raise.
  rewrite Hc. simpl. rewrite Hr. simpl.
  eexists. repeat split.
Qed.

Lemma config_command_skips_exit_on_failure_witness :
  exists w',
    send_config_command Scenario.connected "set deviceconfig system hostname fw"
      TransportScenario.drops_in_configure_mode
    = (Raise (TransportError "Socket is closed"), w')
    /\ replies w' = [Scenario.says "never read"]
    /\ commands (trace w')
       = ["set deviceconfig system hostname fw"; "configure"].
Proof.
  exact (config_command_skips_exit_on_failure Scenario.connected
           "set deviceconfig system hostname fw"
           TransportScenario.drops_in_configure_mode 0 2 "" "Socket is closed"
           [Scenario.says "never read"] eq_refl eq_refl).
Defined.

(** ** Dotted addresses *)

Module AddressFacts.
Import NetworkDetect.

Section Parsed.

Variable int : string -> option Z.

Lemma differ_at_false a b m i :
  differ_at a b m i = Some false <->
  exists x y k,
    nth_error a i = Some x /\ nth_error b i = Some y
    /\ nth_error m i = Some k /\ Z.land x k = Z.land y k.
Proof.
  unfold differ_at. split.
  - destruct (nth_error a i) as [x|]; [|discriminate].
    destruct (nth_error m i) as [k|]; [|discriminate].
    destruct (nth_error b i) as [y|]; [|discriminate].
    intros [= H]. apply negb_false_iff, Z.eqb_eq in H.
    now exists x, y, k.
  - intros (x & y & k & -> & -> & -> & H).
    apply Z.eqb_eq in H. now rewrite H.
Qed.

Lemma same_on_spec a b m :
  same_on [0; 1; 2; 3] a b m = true <-> agree a b m.
Proof.
  split.
  - intros H i Hi. apply differ_at_false. simpl in H.
    destruct (differ_at a b m 0) as [[]|] eqn:E0; try discriminate.
    destruct (differ_at a b m 1) as [[]|] eqn:E1; try discriminate.
    destruct (differ_at a b m 2) as [[]|] eqn:E2; try discriminate.
    destruct (differ_at a b m 3) as [[]|] eqn:E3; try discriminate.
    destruct i as [|[|[|[|i]]]]; try assumption. lia.
  - intros H. simpl.
    rewrite (proj2 (differ_at_false a b m 0) (H 0 ltac:(lia))).
    rewrite (proj2 (differ_at_false a b m 1) (H 1 ltac:(lia))).
    rewrite (proj2 (differ_at_false a b m 2) (H 2 ltac:(lia))).
    now rewrite (proj2 (differ_at_false a b m 3) (H 3 ltac:(lia))).
Qed.

Lemma is_same_subnet_spec ip1 ip2 mask :
  is_same_subnet int ip1 ip2 mask = true <->
  exists a b m,
    ints int (split_dot ip1) = Some a
    /\ ints int (split_dot ip2) = Some b
    /\ ints int (split_dot mask) = Some m
    /\ agree a b m.
Proof.
  unfold is_same_subnet. split.
  - destruct (ints int (split_dot ip1)) as [a|]; [|discriminate].
    destruct (ints int (split_dot ip2)) as [b|]; [|discriminate].
    destruct (ints int (split_dot mask)) as [m|]; [|discriminate].
    intros H. exists a, b, m. repeat split. now apply same_on_spec.
  - intros (a & b & m & -> & -> & -> & H). now apply same_on_spec.
Qed.

Lemma agree_sym a b m : agree a b m -> agree b a m.
Proof.
  intros H i Hi. destruct (H i Hi) as (x & y & k & Hx & Hy & Hk & E).
  now exists y, x, k.
Qed.

Lemma agree_refl a b m : agree a b m -> agree a a m.
Proof.
  intros H i Hi. destruct (H i Hi) as (x & y & k & Hx & Hy & Hk & E).
  now exists x, x, k.
Qed.

Lemma agree_trans a b c m : agree a b m -> agree b c m -> agree a c m.
Proof.
  intros H1 H2 i Hi.
  destruct (H1 i Hi) as (x & y & k & Hx & Hy & Hk & E1).
  destruct (H2 i Hi) as (y' & z & k' & Hy' & Hz & Hk' & E2).
  rewrite Hy in Hy'. injection Hy' as <-.
  rewrite Hk in Hk'. injection Hk' as <-.
  exists x, z, k. repeat split; try assumption. congruence.
Qed.

End Parsed.

End AddressFacts.

(** X23. For a given mask, [is_same_subnet] is a partial equivalence on
    address strings, whatever [int] accepts: when it answers [True] for
    two addresses it also does so with the two exchanged and for the first
    with itself, and it carries over to any third address in the subnet of
    the second. *)
Theorem same_subnet_is_partial_equivalence (int : string -> option Z)
    (ip1 ip2 ip3 mask : string) :
  NetworkDetect.is_same_subnet int ip1 ip2 mask = true ->
  NetworkDetect.is_same_subnet int ip2 ip1 mask = true
  /\ NetworkDetect.is_same_subnet int ip1 ip1 mask = true
  /\ (NetworkDetect.is_same_subnet int ip2 ip3 mask = true ->
      NetworkDetect.is_same_subnet int ip1 ip3 mask = true).
Proof.
  intros H.
  apply AddressFacts.is_same_subnet_spec in H
    as (a & b & m & Ha & Hb & Hm & Hab).
  repeat split.
  - apply AddressFacts.is_same_subnet_spec. exists b, a, m.
    repeat split; try assumption. now apply AddressFacts.agree_sym.
  - apply AddressFacts.is_same_subnet_spec. exists a, a, m.
    repeat split; try assumption. now apply AddressFacts.agree_refl with b.
  - intros H. apply AddressFacts.is_same_subnet_spec in H
      as (b' & c & m' & Hb' & Hc & Hm' & Hbc).
    rewrite Hb in Hb'. injection Hb' as <-.
    rewrite Hm in Hm'. injection Hm' as <-.
    apply AddressFacts.is_same_subnet_spec. exists a, c, m.
    repeat split; try assumption. now apply AddressFacts.agree_trans with b.
Qed.

Lemma same_subnet_is_partial_equivalence_witness :
  NetworkDetect.is_same_subnet NetworkDetect.decimal
    "192.168.1.100" "192.168.1.1" "255.255.255.0" = true
  /\ NetworkDetect.is_same_subnet NetworkDetect.decimal
       "192.168.1.1" "192.168.1.1" "255.255.255.0" = true
  /\ (NetworkDetect.is_same_subnet NetworkDetect.decimal
        "192.168.1.100" "192.168.1.254" "255.255.255.0" = true ->
      NetworkDetect.is_same_subnet NetworkDetect.decimal
        "192.168.1.1" "192.168.1.254" "255.255.255.0" = true).
Proof.
  apply (same_subnet_is_partial_equivalence NetworkDetect.decimal
           "192.168.1.1" "192.168.1.100" "192.168.1.254" "255.255.255.0").
  vm_compute. reflexivity.
Defined.

Module GatewayFacts.
Import NetworkDetect.

Lemma split_dot_cons s : exists p ps, split_dot s = p :: ps.
Proof.
  induction s as [|c s (p & ps & IH)]; simpl; [now eexists _, _|].
  destruct (Ascii.eqb c "."); [now eexists _, _|].
  rewrite IH. now eexists _, _.
Qed.

Lemma split_dot_free s : Forall (fun p => dot_free p = true) (split_dot s).
Proof.
  induction s as [|c s IH]; simpl.
  - now repeat constructor.
  - destruct (Ascii.eqb c ".") eqn:E.
    + now constructor.
    + destruct (split_dot_cons s) as (p & ps & Hs). rewrite Hs in *.
      inversion IH as [|? ? Hp Hps]; subst. constructor; [|exact Hps].
      unfold dot_free in *. simpl. now rewrite E, Hp.
Qed.

Lemma split_dot_plain p : dot_free p = true -> split_dot p = [p].
Proof.
  unfold dot_free. induction p as [|c p IH]; simpl; [reflexivity|].
  intros H. apply andb_true_iff in H as [Hc Hp].
  apply negb_true_iff in Hc. rewrite Hc, (IH Hp). reflexivity.
Qed.

Lemma split_dot_app p s :
  dot_free p = true ->
  split_dot (p ++ String "." s) = p :: split_dot s.
Proof.
  unfold dot_free. induction p as [|c p IH]; simpl; [reflexivity|].
  intros H. apply andb_true_iff in H as [Hc Hp].
  apply negb_true_iff in Hc. rewrite Hc, (IH Hp). reflexivity.
Qed.

(** Splitting what [join] built gives the parts back. *)
Lemma split_join l :
  l <> [] -> Forall (fun p => dot_free p = true) l ->
  split_dot (Text.join "." l) = l.
Proof.
  induction l as [|x l IH]; [congruence|]. intros _ H.
  inversion H as [|? ? Hx Hl]; subst.
  destruct l as [|y l].
  - simpl. now apply split_dot_plain.
  - change (Text.join "." (x :: y :: l))
      with (x ++ String "." (Text.join "." (y :: l))).
    rewrite (split_dot_app _ _ Hx), IH; [reflexivity | discriminate | exact Hl].
Qed.

Lemma set_item_free i v l :
  dot_free v = true ->
  Forall (fun p => dot_free p = true) l ->
  Forall (fun p => dot_free p = true) (set_item i v l).
Proof.
  intros Hv H. revert i. induction H as [|x l Hx Hl IH]; intros i.
  - destruct i; constructor.
  - destruct i; simpl; constructor; auto.
Qed.

Lemma set_item_twice i v l : set_item i v (set_item i v l) = set_item i v l.
Proof.
  revert i. induction l as [|x l IH]; intros i; [now destruct i|].
  destruct i; simpl; [reflexivity|]. now rewrite IH.
Qed.

Lemma set_item_length i v l : List.length (set_item i v l) = List.length l.
Proof.
  revert i. induction l as [|x l IH]; intros i; [now destruct i|].
  destruct i; simpl; [reflexivity|]. now rewrite IH.
Qed.

End GatewayFacts.

(** X24. Split at the dots, the result of [get_default_gateway_for_ip] is
    the four parts of its argument with the last replaced by [254], or the
    parts of [192.168.1.254] when the argument has not exactly four parts;
    and the function leaves its own results unchanged. *)
Theorem default_gateway_parts (ip : string) :
  NetworkDetect.split_dot (NetworkDetect.get_default_gateway_for_ip ip)
  = (if (List.length (NetworkDetect.split_dot ip) =? 4)%nat
     then NetworkDetect.set_item 3 "254" (NetworkDetect.split_dot ip)
     else ["192"; "168"; "1"; "254"])
  /\ NetworkDetect.get_default_gateway_for_ip
       (NetworkDetect.get_default_gateway_for_ip ip)
     = NetworkDetect.get_default_gateway_for_ip ip.
Proof.
  assert (NetworkDetect.split_dot (NetworkDetect.get_default_gateway_for_ip ip)
          = (if (List.length (NetworkDetect.split_dot ip) =? 4)%nat
             then NetworkDetect.set_item 3 "254" (NetworkDetect.split_dot ip)
             else ["192"; "168"; "1"; "254"])) as Hs.
  { unfold NetworkDetect.get_default_gateway_for_ip. cbv zeta.
    destruct (List.length (NetworkDetect.split_dot ip) =? 4)%nat eqn:E;
      [|reflexivity].
    apply GatewayFacts.split_join.
    - destruct (GatewayFacts.split_dot_cons ip) as (p & ps & ->).
      destruct ps; discriminate.
    - apply GatewayFacts.set_item_free; [reflexivity|].
      apply GatewayFacts.split_dot_free. }
  split; [exact Hs|].
  unfold NetworkDetect.get_default_gateway_for_ip at 1. cbv zeta.
  rewrite Hs.
  destruct (List.length (NetworkDetect.split_dot ip) =? 4)%nat eqn:E.
  - rewrite GatewayFacts.set_item_length, E, GatewayFacts.set_item_twice.
    unfold NetworkDetect.get_default_gateway_for_ip. cbv zeta.
    now rewrite E.
  - unfold NetworkDetect.get_default_gateway_for_ip. cbv zeta.
    now rewrite E.
Qed.

(** ** Status queries and the clock *)

Module PollFacts.

Lemma silent_refl w : silent w w.
Proof. split; [reflexivity | lia]. Qed.

Lemma silent_trans a b c : silent a b -> silent b c -> silent a c.
Proof. intros [H1 T1] [H2 T2]. split; [congruence | lia]. Qed.

Lemma silent_emit e : commands [e] = [] -> preserves silent (emit e).
Proof.
  intros H w. split; [|simpl; lia]. simpl trace.
  change (e :: trace w) with ([e] ++ trace w)%list.
  now rewrite ConfiguratorFacts.commands_app, H.
Qed.

Lemma silent_progress cb msg :
  display_only cb -> preserves silent (call_progress cb msg).
Proof.
  intros H w. rewrite WaiterFacts.call_progress_run. split; [|simpl; lia].
  simpl trace.
  now rewrite ConfiguratorFacts.commands_app,
    (ConfiguratorFacts.commands_shown _ _ H).
Qed.

Lemma silent_sleep d : preserves silent (time_sleep d).
Proof.
  intros w. unfold time_sleep. destruct (d <? 0)%Z eqn:E.
  - apply silent_refl.
  - apply Z.ltb_ge in E. split; [reflexivity | simpl; lia].
Qed.

Lemma silent_next_reply : preserves silent next_reply.
Proof. intros w. split; [reflexivity | simpl; lia]. Qed.

Lemma silent_set_client c : preserves silent (set_client c).
Proof. intros w. split; [reflexivity | simpl; lia]. Qed.

Lemma at_most_of_silent q w w' : silent w w' -> at_most q w w'.
Proof. intros [H T]. split; [now left | exact T]. Qed.

Lemma am_silent q {A} (m : M A) :
  preserves silent m -> preserves (at_most q) m.
Proof. intros H w. apply at_most_of_silent, H. Qed.

Lemma am_bind_l q {A B} (m : M A) (k : A -> M B) :
  preserves silent m -> (forall a, preserves (at_most q) (k a)) ->
  preserves (at_most q) (bind m k).
Proof.
  intros Hm Hk w. unfold bind. specialize (Hm w).
  destruct (m w) as [[a|e|] w1]; simpl in *;
    try (now apply at_most_of_silent).
  destruct Hm as [H1 T1]. destruct (Hk a w1) as [H2 T2].
  split; [rewrite <- H1; exact H2 | lia].
Qed.

Lemma am_bind_r q {A B} (m : M A) (k : A -> M B) :
  preserves (at_most q) m -> (forall a, preserves silent (k a)) ->
  preserves (at_most q) (bind m k).
Proof.
  intros Hm Hk w. unfold bind. specialize (Hm w).
  destruct (m w) as [[a|e|] w1]; simpl in *; try exact Hm.
  destruct Hm as [H1 T1]. destruct (Hk a w1) as [H2 T2].
  split; [rewrite H2; exact H1 | lia].
Qed.

Lemma am_try_except q {A} (m : M A) (h : exn -> M A) :
  preserves (at_most q) m -> (forall e, preserves silent (h e)) ->
  preserves (at_most q) (try_except m h).
Proof.
  intros Hm Hh w. unfold try_except. specialize (Hm w).
  destruct (m w) as [[a|e|] w1]; simpl in *; try exact Hm.
  destruct Hm as [H1 T1]. destruct (Hh e w1) as [H2 T2].
  split; [rewrite H2; exact H1 | lia].
Qed.

Lemma am_send_command c q : preserves (at_most q) (SSH.send_command c q).
Proof.
  intros w. unfold SSH.send_command, bind, emit, next_reply, ret, raise.
  destruct (connection c); [|apply at_most_of_silent, silent_refl].
  simpl. generalize (match replies w with [] => lost | r :: _ => r end).
  intros r. pose proof (N2Z.is_nonneg (took r)).
  destruct (outcome r); simpl; (split; [now right | simpl; lia]).
Qed.

Lemma polled_sleep q d {A} (m : M A) :
  (0 <= d)%Z -> preserves (at_most q) m ->
  preserves (polled q d) (bind (time_sleep d) (fun _ => m)).
Proof.
  intros Hd Hm w. unfold bind, time_sleep.
  apply Z.ltb_ge in Hd. rewrite Hd.
  match goal with |- polled _ _ _ (snd (m ?x)) =>
    destruct (Hm x) as [H T]
  end.
  simpl in H, T. split; [exact H | exact T].
Qed.

(** The loop of a waiter. *)
Lemma while_polls {St A} (q : string) (d start_time timeout : Z)
    (body : St -> M (flow St A)) (after : M A) :
  (0 <= d)%Z ->
  (forall s, preserves (polled q d) (body s)) ->
  preserves silent after ->
  forall fuel s w,
    exists polls,
      polls_of q d (timeout - (now w - start_time)) w
        (snd (while_elapsed fuel start_time timeout body after s w)) polls.
Proof.
  intros Hd Hbody Hafter. unfold polls_of.
  induction fuel as [|fuel IH]; intros s w.
  - exists []. simpl. repeat split; [constructor | lia | now left].
  - rewrite RunFacts.while_elapsed_step.
    destruct (now w - start_time <? timeout)%Z eqn:C.
    + apply Z.ltb_lt in C. destruct (Hbody s w) as [Hc Ht].
      destruct (body s w) as [[[s'|a]|e|] w1]; simpl in Hc, Ht.
      * destruct (IH s' w1) as (polls & E & Hq & Hp & Hb).
        destruct Hc as [Hc|Hc].
        -- exists polls. rewrite E, Hc. repeat split; try assumption; [lia|].
           destruct Hb as [->|Hb]; [now left | right; lia].
        -- exists (polls ++ [q])%list. rewrite E, Hc.
           rewrite <- List.app_assoc. simpl.
           repeat split.
           ++ apply Forall_app. split; [exact Hq | now repeat constructor].
           ++ rewrite List.length_app. simpl. lia.
           ++ right. rewrite List.length_app. simpl.
              destruct Hb as [->|Hb]; simpl; lia.
      * simpl. destruct Hc as [Hc|Hc].
        -- exists []. rewrite Hc. simpl.
           repeat split; [constructor | lia | now left].
        -- exists [q]. rewrite Hc. simpl.
           repeat split; [now repeat constructor | lia | right; lia].
      * simpl. destruct Hc as [Hc|Hc].
        -- exists []. rewrite Hc. simpl.
           repeat split; [constructor | lia | now left].
        -- exists [q]. rewrite Hc. simpl.
           repeat split; [now repeat constructor | lia | right; lia].
      * simpl. destruct Hc as [Hc|Hc].
        -- exists []. rewrite Hc. simpl.
           repeat split; [constructor | lia | now left].
        -- exists [q]. rewrite Hc. simpl.
           repeat split; [now repeat constructor | lia | right; lia].
    + destruct (Hafter w) as [Hc Ht]. exists []. rewrite Hc. simpl.
      repeat split; [constructor | lia | now left].
Qed.

(** A waiter: what comes before the loop sends nothing, the loop starts
    at the time it reads. *)
Lemma waiter_polls {St A} (q : string) (d timeout : Z) (pre : M unit)
    (body : St -> M (flow St A)) (after : M A) (fuel : nat) (s : St) :
  (0 <= d)%Z ->
  preserves silent pre ->
  (forall s, preserves (polled q d) (body s)) ->
  preserves silent after ->
  polls_every q d timeout
    (pre ;; start_time <- time_time ;;
     while_elapsed fuel start_time timeout body after s).
Proof.
  intros Hd Hpre Hbody Hafter w. unfold bind at 1. specialize (Hpre w).
  destruct (pre w) as [[[]|e|] w1]; simpl in Hpre; destruct Hpre as [Hc Ht].
  - unfold bind, time_time.
    destruct (while_polls q d (now w1) timeout body after Hd Hbody Hafter
                fuel s w1) as (polls & E & Hq & Hp & Hb).
    exists polls. unfold polls_of. rewrite E, Hc.
    repeat split; try assumption; [lia|].
    destruct Hb as [->|Hb]; [now left | right; lia].
  - exists []. unfold polls_of. simpl. rewrite Hc.
    repeat split; [constructor | lia | now left].
  - exists []. unfold polls_of. simpl. rewrite Hc.
    repeat split; [constructor | lia | now left].
Qed.

End PollFacts.

#[local] Hint Resolve
  PollFacts.silent_refl PollFacts.silent_emit PollFacts.silent_progress
  PollFacts.silent_sleep PollFacts.silent_next_reply
  PollFacts.silent_set_client : keep.

Ltac keep_silent := keep PollFacts.silent_refl PollFacts.silent_trans.

Module WaiterPolls.

Lemma silent_require_client : preserves silent PANOSUpgrader.require_client.
Proof. unfold PANOSUpgrader.require_client. keep_silent. Qed.

Lemma polled_download_turn self version s :
  display_only (PANOSUpgrader.progress_callback self) ->
  preserves (polled software_info 30) (PANOSUpgrader.download_turn self version s).
Proof.
  intros Hcb. unfold PANOSUpgrader.download_turn.
  apply PollFacts.polled_sleep; [lia|].
  apply PollFacts.am_bind_l;
    [unfold PANOSUpgrader.self_client; keep_silent|].
  intros c. apply PollFacts.am_bind_r; [apply PollFacts.am_send_command|].
  intros status. unfold PANOSUpgrader._update_progress. keep_silent.
Qed.

Lemma polled_install_turn self version s :
  display_only (PANOSUpgrader.progress_callback self) ->
  preserves (polled "show jobs all" 30)
    (PANOSUpgrader.install_turn self version s).
Proof.
  intros Hcb. unfold PANOSUpgrader.install_turn.
  apply PollFacts.polled_sleep; [lia|].
  apply PollFacts.am_bind_r; [|intros done; keep_silent].
  unfold PANOSUpgrader.install_status.
  apply PollFacts.am_try_except; [|intros e; keep_silent].
  apply PollFacts.am_bind_l;
    [unfold PANOSUpgrader.self_client; keep_silent|].
  intros c. apply PollFacts.am_bind_r; [apply PollFacts.am_send_command|].
  intros status. unfold PANOSUpgrader._update_progress. keep_silent.
Qed.

Lemma polled_content_download_turn self s :
  display_only (ContentUpdater.progress_callback self) ->
  preserves (polled "request content upgrade info" 10)
    (ContentUpdater.download_turn self s).
Proof.
  intros Hcb. unfold ContentUpdater.download_turn.
  apply PollFacts.polled_sleep; [lia|].
  apply PollFacts.am_bind_r; [apply PollFacts.am_send_command|].
  intros status. unfold ContentUpdater._update_progress. keep_silent.
Qed.

Lemma polled_content_install_turn self s :
  display_only (ContentUpdater.progress_callback self) ->
  preserves (polled "request content upgrade info" 10)
    (ContentUpdater.install_turn self s).
Proof.
  intros Hcb. unfold ContentUpdater.install_turn.
  apply PollFacts.polled_sleep; [lia|].
  apply PollFacts.am_bind_r; [apply PollFacts.am_send_command|].
  intros status. unfold ContentUpdater._update_progress. keep_silent.
Qed.

Lemma download_waiter_polls fuel self version timeout :
  display_only (PANOSUpgrader.progress_callback self) ->
  polls_every software_info 30 timeout
    (PANOSUpgrader._wait_for_software_download fuel self version timeout).
Proof.
  intros Hcb. unfold PANOSUpgrader._wait_for_software_download.
  apply PollFacts.waiter_polls; [lia | apply silent_require_client | |].
  - intros s. now apply polled_download_turn.
  - keep_silent.
Qed.

End WaiterPolls.

(** ** The commands of a download *)

Module DownloadFacts.

Lemma waiter_late fuel self version timeout w w' :
  PANOSUpgrader._wait_for_software_download fuel self version timeout w
  = (Raise (download_timed_out version), w') ->
  (timeout <= now w' - now w)%Z.
Proof.
  intros H. unfold PANOSUpgrader._wait_for_software_download in H.
  apply WaiterErrors.bind_raise_inv in H as [H|([] & w1 & E1 & H)].
  - apply WaiterErrors.require_client_run in H as [_ [H|H]]; discriminate.
  - apply WaiterErrors.require_client_run in E1 as [-> _].
    unfold bind at 1, time_time in H.
    apply WaiterTiming.while_timeout_late in H; [exact H| |].
    + intros s. apply WaiterTiming.mono_upgrader_download_turn.
    + intros s. apply WaiterErrors.download_turn_raises.
Qed.

Lemma client_waiter fuel self version timeout :
  preserves same_client
    (PANOSUpgrader._wait_for_software_download fuel self version timeout).
Proof.
  unfold PANOSUpgrader._wait_for_software_download,
    PANOSUpgrader.require_client.
  apply KeepFacts.keep_bind; [exact KeepFacts.client_trans | keep_client|].
  intros _.
  apply KeepFacts.keep_bind; [exact KeepFacts.client_trans | keep_client|].
  intros t.
  apply KeepFacts.keep_while;
    [exact KeepFacts.client_refl | exact KeepFacts.client_trans | |
     keep_client].
  intros s. unfold PANOSUpgrader.download_turn, PANOSUpgrader.self_client,
    PANOSUpgrader._update_progress. keep_client.
Qed.

(** A command on a connected client: it is sent, whatever comes back, and
    only the transport can fail. *)
Lemma send_command_sent c q w :
  connection c = true ->
  commands (trace (snd (SSH.send_command c q w))) = q :: commands (trace w)
  /\ (now w <= now (snd (SSH.send_command c q w)))%Z
  /\ client (snd (SSH.send_command c q w)) = client w
  /\ forall e, fst (SSH.send_command c q w) = Raise e ->
               exists msg, e = TransportError msg.
Proof.
  intros Hc. unfold SSH.send_command, bind, emit, next_reply, ret, raise.
  rewrite Hc. simpl.
  generalize (match replies w with [] => lost | r :: _ => r end).
  intros r. pose proof (N2Z.is_nonneg (took r)).
  destruct (outcome r); simpl; repeat split; try (simpl; lia);
    intros e [= <-]; now eexists.
Qed.

Ltac quiet_branch := try unfold PANOSUpgrader._update_progress.

Ltac not_timed_out :=
  first [ unfold PANOSUpgrader._update_progress;
          rewrite WaiterFacts.call_progress_run; discriminate
        | unfold raise, ret, download_timed_out; simpl; discriminate ].

(** What one call of [_download_version] does on a connected client. *)
Lemma download_version_run fuel (self : PANOSUpgrader.t) version timeout
    c w r w' :
  client w = Some c -> connection c = true ->
  display_only (PANOSUpgrader.progress_callback self) ->
  PANOSUpgrader._download_version fuel self version timeout w = (r, w') ->
  exists cmds,
    commands (trace w') = (rev cmds ++ commands (trace w))%list
    /\ cmds <> []
    /\ one_download version timeout cmds
    /\ client w' = Some c
    /\ (now w <= now w')%Z
    /\ (r = Raise (download_timed_out version) ->
        (timeout <= now w' - now w)%Z).
Proof.
  intros Hcl Hc Hcb. unfold PANOSUpgrader._download_version.
  rewrite (StepFacts.bind_run _ _ _ _ _ (StepFacts.require_client_ok w c Hcl)).
  unfold PANOSUpgrader._update_progress at 1.
  rewrite (StepFacts.bind_run _ _ _ _ _ (WaiterFacts.call_progress_run _ _ w)).
  remember (add_trace _ w) as w0 eqn:Ew0.
  assert (commands (trace w0) = commands (trace w)) as Hw0.
  { rewrite Ew0. simpl.
    now rewrite ConfiguratorFacts.commands_app,
      (ConfiguratorFacts.commands_shown _ _ Hcb). }
  assert (client w0 = Some c) as Hcl0 by (rewrite Ew0; exact Hcl).
  assert (now w0 = now w) as Hn0 by (now rewrite Ew0).
  clear Ew0.
  rewrite (StepFacts.bind_run _ _ _ _ _ (StepFacts.self_client_ok w0 c Hcl0)).
  unfold bind at 1.
  destruct (send_command_sent c (download_command version) w0 Hc)
    as (Hs & Ht & Hk & He).
  fold (download_command version).
  destruct (SSH.send_command c (download_command version) w0)
    as [[output|e|] w2]; simpl in Hs, Ht, Hk, He.
  2:{ intros [= <- <-]. exists [download_command version]. cbn [rev List.app].
      split; [now rewrite Hs, Hw0|]. split; [discriminate|].
      split; [exists []; repeat split; [constructor | now left]|].
      split; [congruence|]. split; [lia|].
      intros [= ->]. destruct (He _ eq_refl) as [msg H]. discriminate. }
  2:{ intros [= <- <-]. exists [download_command version]. cbn [rev List.app].
      split; [now rewrite Hs, Hw0|]. split; [discriminate|].
      split; [exists []; repeat split; [constructor | now left]|].
      split; [congruence|]. split; [lia|]. discriminate. }
  cbv zeta.
  assert (forall (m : M unit),
            preserves silent m -> preserves same_client m ->
            fst (m w2) <> Raise (download_timed_out version) ->
            m w2 = (r, w') ->
            exists cmds,
              commands (trace w') = (rev cmds ++ commands (trace w))%list
              /\ cmds <> []
              /\ one_download version timeout cmds
              /\ client w' = Some c
              /\ (now w <= now w')%Z
              /\ (r = Raise (download_timed_out version) ->
                  (timeout <= now w' - now w)%Z)) as Hquiet.
  { intros m Hm Hkc Hne E. specialize (Hm w2). specialize (Hkc w2).
    rewrite E in Hm, Hkc, Hne. simpl in Hm, Hkc, Hne.
    destruct Hm as [Hm1 Hm2]. unfold same_client in Hkc.
    exists [download_command version]. cbn [rev List.app].
    split; [now rewrite Hm1, Hs, Hw0|]. split; [discriminate|].
    split; [exists []; repeat split; [constructor | now left]|].
    split; [congruence|]. split; [lia|].
    intros ->. now contradiction Hne. }
  destruct (Text.contains "already downloaded" (Text.lower output)).
  { apply Hquiet; [quiet_branch; keep_silent | quiet_branch; keep_client | not_timed_out]. }
  destruct (Text.contains "download job enqueued" (Text.lower output)
            || Text.contains "started" (Text.lower output)).
  { intros E.
    destruct (WaiterPolls.download_waiter_polls fuel self version timeout Hcb w2)
      as (polls & Hp1 & Hp2 & Hp3 & Hp4).
    pose proof (client_waiter fuel self version timeout w2) as Hkc.
    rewrite E in Hp1, Hp3, Hkc. cbn [snd] in Hp1, Hp3, Hkc.
    pose proof (Nat2Z.is_nonneg (List.length polls)) as Hlen.
    unfold same_client in Hkc.
    exists (download_command version :: rev polls). cbn [rev].
    rewrite List.rev_involutive, <- List.app_assoc. cbn [List.app].
    split; [now rewrite Hp1, Hs, Hw0|]. split; [discriminate|].
    split.
    { exists (rev polls). repeat split.
      - now apply Forall_rev.
      - rewrite List.length_rev.
        destruct Hp4 as [->|Hp4]; [now left | now right]. }
    split; [congruence|]. split; [lia|].
    intros ->. apply waiter_late in E. lia. }
  destruct (Text.contains "successfully" (Text.lower output)).
  { apply Hquiet; [quiet_branch; keep_silent | quiet_branch; keep_client | not_timed_out]. }
  destruct (Text.contains "failed" (Text.lower output)
            || Text.contains "error" (Text.lower output)).
  { apply Hquiet; [quiet_branch; keep_silent | quiet_branch; keep_client | not_timed_out]. }
  apply Hquiet; [quiet_branch; keep_silent | quiet_branch; keep_client | not_timed_out].
Qed.

End DownloadFacts.

(** C8. On an upgrader whose client is connected, [download_software]
    ends (given fuel for the budget), and the commands it sends are, in
    this order: for a version with a non-zero patch, the download command
    of the zero-patch version of the train, its status queries within
    [timeout // 2], and then, unless that first download raised, the
    download command of the requested version with its status queries
    within [timeout]; for a zero-patch version, the download command of
    the version and its status queries alone.  A download that ends with
    the timeout error has used up its budget: [timeout // 2] for the
    first, [timeout] for the requested one. *)
Theorem download_software_base_first (f : nat) (self : PANOSUpgrader.t)
    (version : string) (timeout : Z) (ver : Version.t)
    (c : PANOSSSHClient) (w : World) (r : result unit) (w' : World) :
  Version.parse version = Ret ver ->
  client w = Some c -> connection c = true ->
  display_only (PANOSUpgrader.progress_callback self) ->
  (timeout <= 30 * Z.of_nat f)%Z ->
  PANOSUpgrader.download_software (S f) self version timeout w = (r, w') ->
  r <> OutOfFuel
  /\ if (Version.patch ver =? 0)%N then
       exists cmds,
         commands (trace w') = (rev cmds ++ commands (trace w))%list
         /\ one_download version timeout cmds
         /\ (r = Raise (download_timed_out version) ->
             (timeout <= now w' - now w)%Z)
     else
       exists first rest,
         commands (trace w') = (rev (first ++ rest) ++ commands (trace w))%list
         /\ one_download (Version.base_version ver) (timeout / 2) first
         /\ ((rest = []
              /\ (exists e, r = Raise e)
              /\ (r = Raise (download_timed_out (Version.base_version ver)) ->
                  (timeout / 2 <= now w' - now w)%Z))
             \/ (one_download version timeout rest
                 /\ (r = Raise (download_timed_out version) ->
                     (timeout <= now w' - now w)%Z))).
Proof.
  intros Hp Hcl Hc Hcb Hf E. split.
  { pose proof (UpgraderFacts.total_download_software f self version timeout
                  Hf w) as Ht.
    now rewrite E in Ht. }
  assert (timeout / 2 <= 30 * Z.of_nat f)%Z as Hhalf.
  { destruct (Z.le_gt_cases 0 timeout) as [Hpos|Hneg].
    - pose proof (Z.div_le_upper_bound timeout 2 timeout ltac:(lia) ltac:(lia)).
      lia.
    - pose proof (Z.div_lt_upper_bound timeout 2 0 ltac:(lia) ltac:(lia)). lia. }
  unfold PANOSUpgrader.download_software in E.
  rewrite (StepFacts.bind_run _ _ _ _ _ (StepFacts.require_client_ok w c Hcl))
    in E.
  unfold PANOSUpgrader._update_progress at 1 in E.
  rewrite (StepFacts.bind_run _ _ _ _ _ (WaiterFacts.call_progress_run _ _ w))
    in E.
  remember (add_trace _ w) as w0 eqn:Ew0.
  assert (commands (trace w0) = commands (trace w)) as Hw0.
  { rewrite Ew0. simpl.
    now rewrite ConfiguratorFacts.commands_app,
      (ConfiguratorFacts.commands_shown _ _ Hcb). }
  assert (client w0 = Some c) as Hcl0 by (rewrite Ew0; exact Hcl).
  assert (now w0 = now w) as Hn0 by (now rewrite Ew0).
  clear Ew0.
  unfold bind at 1, lift in E. rewrite Hp in E.
  destruct (Version.patch ver =? 0)%N; cbn [negb] in E; cbv iota in E.
  - unfold bind at 1, ret at 1 in E.
    destruct (DownloadFacts.download_version_run _ _ _ _ _ _ _ _
                Hcl0 Hc Hcb E) as (cmds & H1 & _ & H2 & _ & _ & H3).
    exists cmds. rewrite H1, Hw0, <- Hn0. repeat split; assumption.
  - cbv zeta in E. unfold bind at 1 in E.
    destruct (PANOSUpgrader._download_version (S f) self
                (Version.base_version ver) (timeout / 2) w0)
      as [r1 w1] eqn:E1.
    destruct (DownloadFacts.download_version_run _ _ _ _ _ _ _ _
                Hcl0 Hc Hcb E1) as (first & H1 & _ & H2 & Hcl1 & Hn1 & H3).
    pose proof (UpgraderFacts.total_download_version f self
                  (Version.base_version ver) (timeout / 2) Hhalf w0) as Ht.
    rewrite E1 in Ht. cbn [fst] in Ht.
    destruct r1 as [[]|e|]; [| |now contradiction Ht].
    + destruct (DownloadFacts.download_version_run _ _ _ _ _ _ _ _
                  Hcl1 Hc Hcb E) as (rest & G1 & _ & G2 & _ & Gn & G3).
      exists first, rest. rewrite G1, H1, Hw0, List.rev_app_distr,
        <- List.app_assoc.
      split; [reflexivity|]. split; [exact H2|]. right.
      split; [exact G2|]. intros Hr. specialize (G3 Hr). lia.
    + injection E as <- <-.
      exists first, []. rewrite List.app_nil_r, H1, Hw0.
      split; [reflexivity|]. split; [exact H2|]. left.
      split; [reflexivity|]. split; [now exists e|].
      intros Hr. specialize (H3 Hr). lia.
Qed.

Lemma download_software_base_first_witness :
  exists first rest,
    commands [Sent "request system software download version 11.2.4";
              Sent "request system software download version 11.2.0"]
    = (rev (first ++ rest) ++ [])%list
    /\ one_download "11.2.0" 900 first
    /\ one_download "11.2.4" 1800 rest.
Proof.
  destruct (download_software_base_first 60 Scenario.upgrader "11.2.4" 1800
              (Version.mk 11 2 4 "11.2.4") Scenario.connected
              Scenario.all_downloaded (Ret tt)
              (mkWorld [] 0 [] [] [] 1 (Some Scenario.connected)
                 [Sent "request system software download version 11.2.4";
                  Sent "request system software download version 11.2.0"]))
    as [_ (first & rest & H1 & H2 & [(_ & [e He] & _)|[H3 _]])];
    [reflexivity | reflexivity | reflexivity | intros message; reflexivity
    | lia | reflexivity | discriminate He | ].
  exists first, rest. repeat split; assumption.
Defined.

(** ** Every status query comes after a sleep *)

Module PaceFacts.

Lemma quiet_refl w : quiet w w.
Proof. now exists []. Qed.

Lemma quiet_trans a b c : quiet a b -> quiet b c -> quiet a c.
Proof.
  intros (l1 & H1 & C1) (l2 & H2 & C2). exists (l2 ++ l1)%list.
  split; [now rewrite H2, H1, List.app_assoc|].
  now rewrite ConfiguratorFacts.commands_app, C1, C2.
Qed.

Lemma quiet_emit e : commands [e] = [] -> preserves quiet (emit e).
Proof. intros H w. now exists [e]. Qed.

Lemma quiet_progress cb msg :
  display_only cb -> preserves quiet (call_progress cb msg).
Proof.
  intros H w. rewrite WaiterFacts.call_progress_run.
  exists (shown cb msg). split; [reflexivity|].
  exact (ConfiguratorFacts.commands_shown _ _ H).
Qed.

Lemma quiet_sleep d : preserves quiet (time_sleep d).
Proof.
  intros w. unfold time_sleep. destruct (d <? 0)%Z.
  - apply quiet_refl.
  - now exists [Slept d].
Qed.

Lemma quiet_next_reply : preserves quiet next_reply.
Proof. intros w. now exists []. Qed.

Lemma qf_of_quiet q w w' : quiet w w' -> query_first q w w'.
Proof. intros (l & H & C). exists l. split; [now left | exact C]. Qed.

Lemma qf_then_quiet q a b c :
  query_first q a b -> quiet b c -> query_first q a c.
Proof.
  intros (l1 & H1 & C1) (l2 & H2 & C2). exists (l2 ++ l1)%list. split.
  - rewrite H2, <- !List.app_assoc.
    destruct H1 as [->| ->]; [now left | now right].
  - now rewrite ConfiguratorFacts.commands_app, C1, C2.
Qed.

(** A step that leaves no event, as a read of [self.client]. *)
Lemma qf_bind_l q {A B} (m : M A) (k : A -> M B) :
  (forall w, snd (m w) = w) ->
  (forall a, preserves (query_first q) (k a)) ->
  preserves (query_first q) (bind m k).
Proof.
  intros Hm Hk w. unfold bind. specialize (Hm w).
  destruct (m w) as [[a|e|] w1]; simpl in *; subst w1;
    try (apply qf_of_quiet, quiet_refl).
  apply Hk.
Qed.

Lemma qf_bind_r q {A B} (m : M A) (k : A -> M B) :
  preserves (query_first q) m -> (forall a, preserves quiet (k a)) ->
  preserves (query_first q) (bind m k).
Proof.
  intros Hm Hk w. unfold bind. specialize (Hm w).
  destruct (m w) as [[a|e|] w1]; simpl in *; try exact Hm.
  exact (qf_then_quiet _ _ _ _ Hm (Hk a w1)).
Qed.

Lemma qf_try_except q {A} (m : M A) (h : exn -> M A) :
  preserves (query_first q) m -> (forall e, preserves quiet (h e)) ->
  preserves (query_first q) (try_except m h).
Proof.
  intros Hm Hh w. unfold try_except. specialize (Hm w).
  destruct (m w) as [[a|e|] w1]; simpl in *; try exact Hm.
  exact (qf_then_quiet _ _ _ _ Hm (Hh e w1)).
Qed.

Lemma qf_send_command c q : preserves (query_first q) (SSH.send_command c q).
Proof.
  intros w. unfold SSH.send_command, bind, emit, next_reply, ret, raise.
  destruct (connection c); [|apply qf_of_quiet, quiet_refl].
  simpl. generalize (match replies w with [] => lost | r :: _ => r end).
  intros r. destruct (outcome r) as [output|msg]; simpl.
  - exists []. split; [now right | reflexivity].
  - exists [LogError ("Command failed: " ++ msg)].
    split; [now right | reflexivity].
Qed.

Lemma self_client_leaves w : snd (PANOSUpgrader.self_client w) = w.
Proof.
  unfold PANOSUpgrader.self_client, bind, get_client.
  now destruct (client w).
Qed.

(** *** From a turn to the loop *)

Lemma sbq_quiet q d l : commands l = [] -> sleeps_before_queries q d l = true.
Proof.
  induction l as [|e l IH]; [reflexivity|].
  destruct e; simpl; try exact IH; discriminate.
Qed.

Lemma sbq_app q d l1 l2 :
  sleeps_before_queries q d l1 = true ->
  sleeps_before_queries q d l2 = true ->
  sleeps_before_queries q d (l1 ++ l2) = true.
Proof.
  intros H1 H2. induction l1 as [|e l1 IH]; [exact H2|].
  destruct e; simpl in *; try (now apply IH); try discriminate.
  apply andb_true_iff in H1 as [H1 H3]. apply andb_true_iff in H1 as [H0 H1].
  destruct l1 as [|[] l1]; try discriminate.
  simpl List.app. rewrite H0, H1. simpl. now apply IH.
Qed.

Lemma paced_refl q d w : paced q d w w.
Proof. now exists []. Qed.

Lemma paced_trans q d a b c : paced q d a b -> paced q d b c -> paced q d a c.
Proof.
  intros (l1 & H1 & C1) (l2 & H2 & C2). exists (l2 ++ l1)%list.
  split; [now rewrite H2, H1, List.app_assoc | now apply sbq_app].
Qed.

Lemma paced_of_quiet q d w w' : quiet w w' -> paced q d w w'.
Proof. intros (l & H & C). exists l. split; [exact H | now apply sbq_quiet]. Qed.

Lemma paced_quiet q d {A} (m : M A) :
  preserves quiet m -> preserves (paced q d) m.
Proof. intros H w. apply paced_of_quiet, H. Qed.

(** A turn: the sleep, then what sends the query first. *)
Lemma paced_sleep q d {A} (m : M A) :
  (0 <= d)%Z -> preserves (query_first q) m ->
  preserves (paced q d) (bind (time_sleep d) (fun _ => m)).
Proof.
  intros Hd Hm w. unfold bind, time_sleep.
  apply Z.ltb_ge in Hd. rewrite Hd.
  match goal with |- paced _ _ _ (snd (m ?x)) =>
    destruct (Hm x) as (later & H & C)
  end.
  simpl in H. destruct H as [H|H].
  - exists (later ++ [Slept d])%list. split.
    + now rewrite H, <- List.app_assoc.
    + apply sbq_app; [now apply sbq_quiet | reflexivity].
  - exists (later ++ [Sent q; Slept d])%list. split.
    + now rewrite H, <- List.app_assoc.
    + apply sbq_app; [now apply sbq_quiet|].
      simpl. now rewrite String.eqb_refl, Z.eqb_refl.
Qed.

Lemma paced_while {St A} q d (start_time timeout : Z)
    (body : St -> M (flow St A)) (after : M A) fuel s :
  (forall s, preserves (paced q d) (body s)) -> preserves quiet after ->
  preserves (paced q d) (while_elapsed fuel start_time timeout body after s).
Proof.
  intros Hbody Hafter.
  apply (KeepFacts.keep_while _ (paced_refl q d) (paced_trans q d));
    [exact Hbody | now apply paced_quiet].
Qed.

End PaceFacts.

#[local] Hint Resolve
  PaceFacts.quiet_refl PaceFacts.quiet_emit PaceFacts.quiet_progress
  PaceFacts.quiet_sleep PaceFacts.quiet_next_reply : keep.

Ltac keep_quiet := keep PaceFacts.quiet_refl PaceFacts.quiet_trans.

Module WaiterPaces.

Lemma qf_download_rest self version (status : string) :
  display_only (PANOSUpgrader.progress_callback self) ->
  preserves quiet
    (if PANOSUpgrader.download_complete version status then
       PANOSUpgrader._update_progress self
         ("Version " ++ version ++ " download complete") ;;
       ret (Return (St := unit) tt)
     else
       (if Text.contains "downloading" (Text.lower status) then
          match Text.search_percent status with
          | Some pct =>
              PANOSUpgrader._update_progress self
                ("Downloading " ++ version ++ ": " ++ pct ++ "%")
          | None => ret tt
          end
        else ret tt) ;;
       if Text.contains "failed" (Text.lower status)
       then raise (RuntimeError ("Download of " ++ version ++ " failed"))
       else ret (Continue tt)).
Proof. intros Hcb. unfold PANOSUpgrader._update_progress. keep_quiet. Qed.

Lemma paced_download_turn self version s :
  display_only (PANOSUpgrader.progress_callback self) ->
  preserves (paced software_info 30)
    (PANOSUpgrader.download_turn self version s).
Proof.
  intros Hcb. unfold PANOSUpgrader.download_turn.
  apply PaceFacts.paced_sleep; [lia|].
  apply PaceFacts.qf_bind_l; [exact PaceFacts.self_client_leaves|].
  intros c. apply PaceFacts.qf_bind_r; [apply PaceFacts.qf_send_command|].
  intros status. now apply qf_download_rest.
Qed.

Lemma paced_install_turn self version s :
  display_only (PANOSUpgrader.progress_callback self) ->
  preserves (paced "show jobs all" 30)
    (PANOSUpgrader.install_turn self version s).
Proof.
  intros Hcb. unfold PANOSUpgrader.install_turn.
  apply PaceFacts.paced_sleep; [lia|].
  apply PaceFacts.qf_bind_r; [|intros done; keep_quiet].
  unfold PANOSUpgrader.install_status.
  apply PaceFacts.qf_try_except; [|intros e; keep_quiet].
  apply PaceFacts.qf_bind_l; [exact PaceFacts.self_client_leaves|].
  intros c. apply PaceFacts.qf_bind_r; [apply PaceFacts.qf_send_command|].
  intros status. unfold PANOSUpgrader._update_progress. keep_quiet.
Qed.

Lemma paced_content_download_turn self s :
  display_only (ContentUpdater.progress_callback self) ->
  preserves (paced "request content upgrade info" 10)
    (ContentUpdater.download_turn self s).
Proof.
  intros Hcb. unfold ContentUpdater.download_turn.
  apply PaceFacts.paced_sleep; [lia|].
  apply PaceFacts.qf_bind_r; [apply PaceFacts.qf_send_command|].
  intros status. unfold ContentUpdater._update_progress. keep_quiet.
Qed.

Lemma paced_content_install_turn self s :
  display_only (ContentUpdater.progress_callback self) ->
  preserves (paced "request content upgrade info" 10)
    (ContentUpdater.install_turn self s).
Proof.
  intros Hcb. unfold ContentUpdater.install_turn.
  apply PaceFacts.paced_sleep; [lia|].
  apply PaceFacts.qf_bind_r; [apply PaceFacts.qf_send_command|].
  intros status. unfold ContentUpdater._update_progress. keep_quiet.
Qed.

Lemma quiet_require_client : preserves quiet PANOSUpgrader.require_client.
Proof. unfold PANOSUpgrader.require_client. keep_quiet. Qed.

Lemma paced_upgrader_waiter {A} q d fuel timeout
    (body : unit -> M (flow unit A)) (after : M A) :
  (forall s, preserves (paced q d) (body s)) -> preserves quiet after ->
  preserves (paced q d)
    (PANOSUpgrader.require_client ;;
     start_time <- time_time ;;
     while_elapsed fuel start_time timeout body after tt).
Proof.
  intros Hbody Hafter.
  apply (KeepFacts.keep_bind _ (PaceFacts.paced_trans q d));
    [apply PaceFacts.paced_quiet, quiet_require_client|].
  intros _.
  apply (KeepFacts.keep_bind _ (PaceFacts.paced_trans q d));
    [apply (KeepFacts.keep_time_time _ (PaceFacts.paced_refl q d))|].
  intros t. now apply PaceFacts.paced_while.
Qed.

Lemma paced_content_waiter {A} q d fuel timeout
    (body : unit -> M (flow unit A)) (after : M A) :
  (forall s, preserves (paced q d) (body s)) -> preserves quiet after ->
  preserves (paced q d)
    (start_time <- time_time ;;
     while_elapsed fuel start_time timeout body after tt).
Proof.
  intros Hbody Hafter.
  apply (KeepFacts.keep_bind _ (PaceFacts.paced_trans q d));
    [apply (KeepFacts.keep_time_time _ (PaceFacts.paced_refl q d))|].
  intros t. now apply PaceFacts.paced_while.
Qed.

Lemma install_waiter_polls fuel self version timeout :
  display_only (PANOSUpgrader.progress_callback self) ->
  polls_every "show jobs all" 30 timeout
    (PANOSUpgrader._wait_for_software_install fuel self version timeout).
Proof.
  intros Hcb. unfold PANOSUpgrader._wait_for_software_install.
  apply PollFacts.waiter_polls;
    [lia | apply WaiterPolls.silent_require_client | |].
  - intros s. now apply WaiterPolls.polled_install_turn.
  - keep_silent.
Qed.

Lemma content_waiter_polls {A} q d fuel timeout
    (body : unit -> M (flow unit A)) (after : M A) :
  (0 <= d)%Z ->
  (forall s, preserves (polled q d) (body s)) -> preserves silent after ->
  polls_every q d timeout
    (start_time <- time_time ;;
     while_elapsed fuel start_time timeout body after tt).
Proof.
  intros Hd Hbody Hafter w. unfold bind, time_time.
  destruct (PollFacts.while_polls q d (now w) timeout body after Hd Hbody
              Hafter fuel tt w) as (polls & E & Hq & Hp & Hb).
  exists polls. unfold polls_of.
  repeat split; try assumption.
  destruct Hb as [->|Hb]; [now left | right; lia].
Qed.

End WaiterPaces.

(** X11. Each of the four job waiters sleeps one poll interval before
    each status query, the first too.  With a progress callback that only
    displays: every command a waiter sends is its status query, and the
    event just before it is a sleep of the interval (30 seconds for
    software, 10 for content); every query is paid for by a full interval
    of the clock, and one more query than [n] is sent only where [n]
    intervals fit in the budget.  And whatever the callback: when a
    waiter returns, at least one interval has passed since it was called,
    even when the job was complete from the start. *)
Theorem waiters_poll_after_interval :
  (forall fuel self version timeout,
      returns_after 30
        (PANOSUpgrader._wait_for_software_download fuel self version timeout))
  /\ (forall fuel self version timeout,
        returns_after 30
          (PANOSUpgrader._wait_for_software_install fuel self version timeout))
  /\ (forall fuel self timeout,
        returns_after 10
          (ContentUpdater._wait_for_download_completion fuel self timeout))
  /\ (forall fuel self timeout,
        returns_after 10
          (ContentUpdater._wait_for_install_completion fuel self timeout))
  /\ (forall fuel self version timeout,
        display_only (PANOSUpgrader.progress_callback self) ->
        preserves (paced software_info 30)
          (PANOSUpgrader._wait_for_software_download fuel self version timeout)
        /\ polls_every software_info 30 timeout
             (PANOSUpgrader._wait_for_software_download fuel self version
                timeout)
        /\ preserves (paced "show jobs all" 30)
             (PANOSUpgrader._wait_for_software_install fuel self version
                timeout)
        /\ polls_every "show jobs all" 30 timeout
             (PANOSUpgrader._wait_for_software_install fuel self version
                timeout))
  /\ (forall fuel self timeout,
        display_only (ContentUpdater.progress_callback self) ->
        preserves (paced "request content upgrade info" 10)
          (ContentUpdater._wait_for_download_completion fuel self timeout)
        /\ polls_every "request content upgrade info" 10 timeout
             (ContentUpdater._wait_for_download_completion fuel self timeout)
        /\ preserves (paced "request content upgrade info" 10)
             (ContentUpdater._wait_for_install_completion fuel self timeout)
        /\ polls_every "request content upgrade info" 10 timeout
             (ContentUpdater._wait_for_install_completion fuel self timeout)).
Proof.
  split; [|split; [|split; [|split; [|split]]]].
  - intros fuel self version timeout w a w' H.
    unfold PANOSUpgrader._wait_for_software_download in H.
    apply SessionFacts.bind_ret_inv in H as ([] & w1 & E1 & H).
    apply SessionFacts.bind_ret_inv in H as (t & w2 & E2 & H).
    injection E2 as <- <-.
    pose proof (SessionFacts.mono_at _ _ _ _
                  UpgraderFacts.mono_require_client E1).
    apply (WaiterTiming.while_returns_after 30) in H; [lia| | |].
    + intros s. apply UpgraderFacts.after_download_turn.
    + intros s. apply WaiterTiming.mono_upgrader_download_turn.
    + intros. apply WaiterTiming.raise_never_returns.
  - intros fuel self version timeout w a w' H.
    unfold PANOSUpgrader._wait_for_software_install in H.
    apply SessionFacts.bind_ret_inv in H as ([] & w1 & E1 & H).
    apply SessionFacts.bind_ret_inv in H as (t & w2 & E2 & H).
    injection E2 as <- <-.
    pose proof (SessionFacts.mono_at _ _ _ _
                  UpgraderFacts.mono_require_client E1).
    apply (WaiterTiming.while_returns_after 30) in H; [lia| | |].
    + intros s. apply UpgraderFacts.after_install_turn.
    + intros s. apply WaiterTiming.mono_upgrader_install_turn.
    + intros. apply WaiterTiming.raise_never_returns.
  - intros fuel self timeout w a w' H.
    unfold ContentUpdater._wait_for_download_completion in H.
    apply SessionFacts.bind_ret_inv in H as (t & w2 & E2 & H).
    injection E2 as <- <-.
    apply (WaiterTiming.while_returns_after 10) in H; [lia| | |].
    + intros s. apply WaiterTiming.after_content_download_turn.
    + intros s. apply WaiterTiming.mono_content_download_turn.
    + intros. apply WaiterTiming.raise_never_returns.
  - intros fuel self timeout w a w' H.
    unfold ContentUpdater._wait_for_install_completion in H.
    apply SessionFacts.bind_ret_inv in H as (t & w2 & E2 & H).
    injection E2 as <- <-.
    apply (WaiterTiming.while_returns_after 10) in H; [lia| | |].
    + intros s. apply WaiterTiming.after_content_install_turn.
    + intros s. apply WaiterTiming.mono_content_install_turn.
    + intros. apply WaiterTiming.raise_never_returns.
  - intros fuel self version timeout Hcb.
    split; [|split; [|split]].
    + unfold PANOSUpgrader._wait_for_software_download.
      apply WaiterPaces.paced_upgrader_waiter.
      * intros s. now apply WaiterPaces.paced_download_turn.
      * keep_quiet.
    + now apply WaiterPolls.download_waiter_polls.
    + unfold PANOSUpgrader._wait_for_software_install.
      apply WaiterPaces.paced_upgrader_waiter.
      * intros s. now apply WaiterPaces.paced_install_turn.
      * keep_quiet.
    + now apply WaiterPaces.install_waiter_polls.
  - intros fuel self timeout Hcb.
    split; [|split; [|split]].
    + unfold ContentUpdater._wait_for_download_completion.
      apply WaiterPaces.paced_content_waiter.
      * intros s. now apply WaiterPaces.paced_content_download_turn.
      * keep_quiet.
    + unfold ContentUpdater._wait_for_download_completion.
      apply WaiterPaces.content_waiter_polls; [lia| |keep_silent].
      intros s. now apply WaiterPolls.polled_content_download_turn.
    + unfold ContentUpdater._wait_for_install_completion.
      apply WaiterPaces.paced_content_waiter.
      * intros s. now apply WaiterPaces.paced_content_install_turn.
      * keep_quiet.
    + unfold ContentUpdater._wait_for_install_completion.
      apply WaiterPaces.content_waiter_polls; [lia| |keep_silent].
      intros s. now apply WaiterPolls.polled_content_install_turn.
Qed.

Lemma waiters_poll_after_interval_witness :
  preserves (paced software_info 30)
    (PANOSUpgrader._wait_for_software_download 61 Scenario.upgrader
       "11.2.4" 1800)
  /\ preserves (paced "request content upgrade info" 10)
       (ContentUpdater._wait_for_download_completion 61
          (ContentUpdater.mk Scenario.connected None) 600).
Proof.
  destruct waiters_poll_after_interval as (_ & _ & _ & _ & Hu & Hc).
  split.
  - apply (Hu 61 Scenario.upgrader "11.2.4" 1800%Z).
    intros message. reflexivity.
  - apply (Hc 61 (ContentUpdater.mk Scenario.connected None) 600%Z).
    intros message. reflexivity.
Defined.
